(** * Backgammon server: invite pairing, game/match state machine

    A shallow embedding of [app/server/server.js] (the invite-only
    backgammon server) together with the theorems that settle the
    properties stated about it.

    Layout of the development:
    - [Slug]      the string helpers [iccjSlugify], [iccjMatchSlug],
                  [iccjSafeDisplayName];
    - data model  players, matches, games, sockets, the server store;
    - [M]         the state-and-exception monad in which the handlers run;
    - handlers    one definition per [this.handleXxx] of the source;
    - theorems.

    Strings are sequences of bytes ([Stdlib.Strings.String.string]); the
    string helpers agree with JavaScript on ASCII input. *)

From Stdlib Require Import ZArith Ascii String.
From stdpp Require Import gmap strings list fin_maps pretty.

Local Open Scope string_scope.
Local Open Scope Z_scope.

(* ===================================================================== *)
(** ** String helpers *)
(* ===================================================================== *)

Module Slug.

(** Characters as their codes. *)
Definition code (c : ascii) : N := N_of_ascii c.

Definition isUpper (c : ascii) : bool := (65 <=? code c)%N && (code c <=? 90)%N.
Definition isLower (c : ascii) : bool := (97 <=? code c)%N && (code c <=? 122)%N.
Definition isDigit (c : ascii) : bool := (48 <=? code c)%N && (code c <=? 57)%N.

(** [String.prototype.trim] white space, within ASCII:
    TAB, LF, VT, FF, CR and SPACE. *)
Definition isSpace (c : ascii) : bool :=
  ((9 <=? code c)%N && (code c <=? 13)%N) || (code c =? 32)%N.

(** The characters of the ASCII range. *)
Definition isASCII (c : ascii) : bool := (code c <? 128)%N.

(** [toLowerCase] / [toUpperCase] on one character of the ASCII range.
    Beyond that range [toLowerCase] yields a character of [[a-z]] for
    the Kelvin sign U+212A ([k]) and for U+0130 ([i], followed by
    U+0307) only; what is stated about the letters of a name is stated
    for names within the range, see [isASCII]. *)
Definition lower (c : ascii) : ascii :=
  if isUpper c then ascii_of_N (code c + 32) else c.
Definition upper (c : ascii) : ascii :=
  if isLower c then ascii_of_N (code c - 32) else c.

Definition dash : ascii := "-"%char.

(** The class [[a-z0-9]] of the slug regular expression. *)
Definition isSlugChar (c : ascii) : bool := isLower c || isDigit c.

(** The class [[A-Za-z0-9 .'\-]] of the display-name expression. *)
Definition isNameChar (c : ascii) : bool :=
  isUpper c || isLower c || isDigit c
  || (code c =? 32)%N || (code c =? 46)%N || (code c =? 39)%N || (code c =? 45)%N.

Fixpoint dropWhile (f : ascii -> bool) (l : list ascii) : list ascii :=
  match l with
  | [] => []
  | c :: t => if f c then dropWhile f t else l
  end.

(** The longest prefix that does not end with a character of class [f]. *)
Definition dropWhileEnd (f : ascii -> bool) (l : list ascii) : list ascii :=
  foldr (fun c t => match t with
                    | [] => if f c then [] else [c]
                    | _ => c :: t
                    end) [] l.

(** [s.trim()] *)
Definition trim (l : list ascii) : list ascii :=
  dropWhileEnd isSpace (dropWhile isSpace l).

(** [s.replace(/X+/g, r)]: every maximal run of characters of class [f]
    is replaced by the single character [r].  [inrun] tells that the
    previous character already belonged to the run being replaced. *)
Fixpoint replaceRuns (f : ascii -> bool) (r : ascii) (inrun : bool)
         (l : list ascii) : list ascii :=
  match l with
  | [] => []
  | c :: t =>
      if f c then
        if inrun then replaceRuns f r true t else r :: replaceRuns f r true t
      else c :: replaceRuns f r false t
  end.

Definition isDash (c : ascii) : bool := Ascii.eqb c dash.
Definition notSlug (c : ascii) : bool := negb (isSlugChar c).

(** [s.replace(/^-+|-+$/g, '')] *)
Definition stripDashes (l : list ascii) : list ascii :=
  dropWhileEnd isDash (dropWhile isDash l).

Definition chars (s : string) : list ascii := list_ascii_of_string s.
Definition str (l : list ascii) : string := string_of_list_ascii l.

(** [iccjSlugify] on the character list of its argument.  The early
    [if (!s) return ''] and the final [s || ''] both yield the empty
    string, which is what the remaining steps compute on an empty
    input as well; they are kept as written. *)
Definition slugifyChars (l : list ascii) : list ascii :=
  let s := map lower (trim l) in
  match s with
  | [] => []
  | _ =>
      let s := replaceRuns notSlug dash false s in
      let s := stripDashes s in
      s
  end.

(** [iccjSlugify(s)]; [None] stands for a missing ([undefined], [null])
    argument, which [(s || '')] turns into the empty string. *)
Definition iccjSlugify (s : option string) : string :=
  str (slugifyChars (chars (default "" s))).

(** JavaScript truthiness of a string value. *)
Definition nonEmpty (s : string) : bool :=
  match s with EmptyString => false | _ => true end.

(** [a || b] on strings. *)
Definition orElse (a b : string) : string := if nonEmpty a then a else b.

(** [iccjMatchSlug(hostName, guestName)] *)
Definition iccjMatchSlug (hostName guestName : option string) : string :=
  let h := iccjSlugify hostName in
  let g := iccjSlugify guestName in
  if nonEmpty h && nonEmpty g then h ++ "-vs-" ++ g
  else orElse h (orElse g "").

(** [s.slice(0, n)] for [0 <= n]. *)
Definition slice0 (n : nat) (l : list ascii) : list ascii := take n l.

(** [iccjSafeDisplayName(name)] *)
Definition iccjSafeDisplayName (name : option string) : string :=
  let n := trim (chars (default "" name)) in
  match n with
  | [] => ""
  | _ =>
      let n := filter (fun c => isNameChar c = true) n in
      let n := trim (replaceRuns isSpace " "%char false n) in
      let n := if (40 <? length n)%nat then trim (slice0 40 n) else n in
      str n
  end.

(** *** The shape of a slug *)

(** A character of a slug: of the class [[a-z0-9]], or the dash. *)
Definition slugOrDash (c : ascii) : Prop := isSlugChar c = true \/ c = dash.

(** No two dashes in a row. *)
Fixpoint noDoubleDash (l : list ascii) : Prop :=
  match l with
  | a :: (b :: _) as t => ~ (a = dash /\ b = dash) /\ noDoubleDash t
  | _ => True
  end.

(** The first character, if any, is not of class [f]; the same for the
    last one. *)
Definition headNot (f : ascii -> bool) (l : list ascii) : Prop :=
  match l with c :: _ => f c = false | [] => True end.

Fixpoint lastNot (f : ascii -> bool) (l : list ascii) : Prop :=
  match l with
  | [] => True
  | [c] => f c = false
  | _ :: t => lastNot f t
  end.

(** The shape of the strings [iccjSlugify] returns. *)
Definition isSlug (l : list ascii) : Prop :=
  Forall slugOrDash l /\ noDoubleDash l /\ headNot isDash l /\ lastNot isDash l.

(** *** Strings that differ in case or in surrounding white space *)

(** A string of white space only. *)
Definition blank (s : string) : Prop := Forall (fun c => isSpace c = true) (chars s).

(** Two strings that differ in the case of their letters at most. *)
Definition sameLetters (s s' : string) : Prop :=
  map lower (chars s) = map lower (chars s').

(** [h] differs from [s] in the case of its letters and in surrounding
    white space at most. *)
Definition variant (h s : string) : Prop :=
  exists pre h0 post,
    h = pre +:+ h0 +:+ post /\ blank pre /\ blank post /\ sameLetters h0 s.

(** [s.toUpperCase()] *)
Definition toUpperCase (s : string) : string := str (map upper (chars s)).

(** *** The shape of a display name *)

Definition space : ascii := " "%char.

(** No two characters [c] in a row. *)
Fixpoint noTwo (c : ascii) (l : list ascii) : Prop :=
  match l with
  | a :: (b :: _) as t => ~ (a = c /\ b = c) /\ noTwo c t
  | _ => True
  end.

(** The shape of the strings [iccjSafeDisplayName] returns: characters
    of the class [[A-Za-z0-9 .'\-]] only, no two spaces in a row, no
    white space at either end, and 40 characters at most. *)
Definition isSafeName (l : list ascii) : Prop :=
  Forall (fun c => isNameChar c = true) l /\ noTwo space l
  /\ headNot isSpace l /\ lastNot isSpace l /\ (length l <= 40)%nat.

(** No letter and no digit among the characters. *)
Definition noAlnum (l : list ascii) : Prop :=
  Forall (fun c => isSlugChar (lower c) = false) l.

End Slug.

(* ===================================================================== *)
(** ** JavaScript values used by the handlers *)
(* ===================================================================== *)

(** Truthiness of an optional string ([undefined], [null] and [''] are
    falsy) and of an optional number ([undefined], [null] and [0]). *)
Definition truthyStr (s : option string) : bool :=
  match s with Some s => Slug.nonEmpty s | None => false end.

Definition truthyNum (n : option Z) : bool :=
  match n with Some n => negb (n =? 0) | None => false end.

Definition isSomeB {A} (o : option A) : bool :=
  match o with Some _ => true | None => false end.

(** [a < b] when [b] is a number and [a] a number or [undefined]:
    [undefined < b] is [false]. *)
Definition jsLt (a : option Z) (b : Z) : bool :=
  match a with Some a => a <? b | None => false end.

(** [x == id] for a numeric [x] and a possibly missing [id]. *)
Definition looseEqID (x : Z) (id : option Z) : bool :=
  match id with Some i => x =? i | None => false end.

(** The cookie header: [cookieStr.match(/\bplayer_id=([0-9]+)/)]. *)
Module Cookie.

Definition isWordChar (c : ascii) : bool :=
  Slug.isUpper c || Slug.isLower c || Slug.isDigit c || (Slug.code c =? 95)%N.

Fixpoint stripPrefix (p l : list ascii) : option (list ascii) :=
  match p, l with
  | [], _ => Some l
  | a :: p', b :: l' => if Ascii.eqb a b then stripPrefix p' l' else None
  | _ :: _, [] => None
  end.

Fixpoint takeDigits (l : list ascii) : list ascii :=
  match l with
  | c :: t => if Slug.isDigit c then c :: takeDigits t else []
  | [] => []
  end.

Definition digitsToZ (ds : list ascii) : Z :=
  fold_left (fun acc c => 10 * acc + (Z.of_N (Slug.code c) - 48)) ds 0.

(** An attempt to match [player_id=([0-9]+)] at the head of [l]. *)
Definition matchHere (l : list ascii) : option Z :=
  match stripPrefix (Slug.chars "player_id=") l with
  | Some rest =>
      match takeDigits rest with
      | [] => None
      | ds => Some (digitsToZ ds)
      end
  | None => None
  end.

(** Leftmost match; [prevWord] tells whether the previous character is
    a word character, in which case [\b] fails here. *)
Fixpoint find (prevWord : bool) (l : list ascii) : option Z :=
  match l with
  | [] => None
  | c :: t =>
      match (if prevWord then None else matchHere l) with
      | Some z => Some z
      | None => find (isWordChar c) t
      end
  end.

(** [Number.MAX_SAFE_INTEGER].  An id is a number of JavaScript: up to
    this bound every integer is such a number, the conversion to a
    string writes it in plain decimal, and the digits are read back as
    the same number. *)
Definition MAX_SAFE_INTEGER : Z := 2 ^ 53 - 1.

(** [m ? m[1] : null], read as the number it is compared with. *)
Definition playerID (cookieStr : string) : option Z :=
  find false (Slug.chars cookieStr).

End Cookie.

(* ===================================================================== *)
(** ** Data model *)
(* ===================================================================== *)

(** Objects are referred to by reference.  Players and matches live in
    the arrays [this.players] and [this.matches], to which the server
    only ever appends: a reference to a player or a match is its index
    in the array.  Board states live in a heap of their own, since a game
    holds two references to board states (the live one and the undo
    snapshot) whose aliasing matters. *)
Abbreviation PlayerRef := nat (only parsing).
Abbreviation MatchRef := nat (only parsing).
Abbreviation SocketID := string (only parsing).
Abbreviation loc := nat (only parsing).

Inductive PieceType := WHITE | BLACK.

#[global] Instance PieceType_eq_dec : EqDecision PieceType.
Proof. solve_decision. Defined.

Record Player := mkPlayer {
  p_id : Z;
  p_name : string;
  p_socketID : option SocketID;
  p_currentMatch : option Z;
  p_currentPieceType : option PieceType
}.

Inductive Message :=
| CREATE_GUEST | GET_MATCH_LIST | PLAY_RANDOM | CREATE_MATCH | JOIN_MATCH
| ROLL_DICE | MOVE_PIECE | CONFIRM_MOVES | UNDO_MOVES | RESIGN_GAME
| RESIGN_MATCH
| EVENT_PLAYER_JOINED | EVENT_TURN_START | EVENT_DICE_ROLL | EVENT_PIECE_MOVE
| EVENT_MATCH_START | EVENT_GAME_OVER | EVENT_MATCH_OVER | EVENT_GAME_RESTART
| EVENT_UNDO_MOVES.

#[global] Instance Message_eq_dec : EqDecision Message.
Proof. solve_decision. Defined.

(** What the process obtains from outside while it serves one request:
    the identifiers given to the objects it creates and the randomness
    of the dice. *)
Record Oracle := mkOracle {
  newPlayerID : Z;
  newMatchID : Z;
  newGameID : Z;
  diceSeed : Z
}.

Section Server.

(** *** The rule engine

    [lib/model.js] and [lib/rules/*.js] are not part of the sources at
    hand.  The board representation and the rule variant are therefore
    parameters of the development; the signatures are those of the
    operations the server calls. *)

(** The opaque board state, the dice of a turn, a piece as named by a
    request, and one atomic board mutation. *)
Context {State Dice Piece MoveAction : Type}.

Record Game := mkGame {
  g_id : Z;
  g_hasStarted : bool;
  g_turnPlayer : option PlayerRef;
  g_turnNumber : Z;
  g_turnDice : option Dice;
  g_moveSequence : Z;
  g_state : loc;                 (* game.state: the live board *)
  g_snapshot : option loc        (* the board retained for undo *)
}.

Definition Game_hasStarted v g :=
  mkGame (g_id g) v (g_turnPlayer g) (g_turnNumber g) (g_turnDice g)
         (g_moveSequence g) (g_state g) (g_snapshot g).
Definition Game_turnPlayer v g :=
  mkGame (g_id g) (g_hasStarted g) v (g_turnNumber g) (g_turnDice g)
         (g_moveSequence g) (g_state g) (g_snapshot g).
Definition Game_turnNumber v g :=
  mkGame (g_id g) (g_hasStarted g) (g_turnPlayer g) v (g_turnDice g)
         (g_moveSequence g) (g_state g) (g_snapshot g).
Definition Game_turnDice v g :=
  mkGame (g_id g) (g_hasStarted g) (g_turnPlayer g) (g_turnNumber g) v
         (g_moveSequence g) (g_state g) (g_snapshot g).
Definition Game_moveSequence v g :=
  mkGame (g_id g) (g_hasStarted g) (g_turnPlayer g) (g_turnNumber g) (g_turnDice g)
         v (g_state g) (g_snapshot g).
Definition Game_state v g :=
  mkGame (g_id g) (g_hasStarted g) (g_turnPlayer g) (g_turnNumber g) (g_turnDice g)
         (g_moveSequence g) v (g_snapshot g).
Definition Game_snapshot v g :=
  mkGame (g_id g) (g_hasStarted g) (g_turnPlayer g) (g_turnNumber g) (g_turnDice g)
         (g_moveSequence g) (g_state g) v.

(** What a rule sees of a game: the game object, the board [game.state]
    refers to and the player [game.turnPlayer] refers to. *)
Record GameView := mkView {
  gv_game : Game;
  gv_state : State;
  gv_turnPlayer : option Player
}.

Record Rule := mkRule {
  r_name : string;
  (** the board of a new game *)
  r_initialState : State;
  (** [rollDice(game)], with its internal randomness made an argument *)
  rollDice : GameView -> Z -> Dice;
  (** [validateMove(game, player, piece, steps)] *)
  validateMove : GameView -> option Player -> Piece -> option Z -> bool;
  (** [getMoveActions(state, piece, steps)] *)
  getMoveActions : State -> Piece -> option Z -> list MoveAction;
  (** [applyMoveActions(state, actions)]: the board it leaves behind,
      and [false] when it throws *)
  applyMoveActions : State -> list MoveAction -> State * bool;
  (** [markAsPlayed(game, steps)]: the remaining dice, [None] when it
      throws *)
  markAsPlayed : Dice -> option Z -> option Dice;
  (** [validateConfirm(game, player)], [validateUndo(game, player)] *)
  validateConfirm : GameView -> option Player -> bool;
  validateUndo : GameView -> option Player -> bool;
  (** [hasWon(state, player)], [getGameScore(state, winner)] *)
  hasWon : State -> option Player -> bool;
  getGameScore : State -> option Player -> Z
}.

(** [model.Utils.loadRule(ruleName)], the length [model.Match.createNew]
    gives a match, and [process.env.DEBUG]. *)
Variable loadRule : string -> Rule.
Variable matchLength : Z.
Variable DEBUG : bool.

Record Match := mkMatch {
  m_id : Z;
  m_host : option PlayerRef;
  m_guest : option PlayerRef;
  m_players : list Z;
  m_ruleName : option string;
  m_score : PieceType -> Z;
  m_length : Z;
  m_currentGame : option Game;
  m_isOver : bool;
  m_hostName : option string;
  m_hostSlug : option string;
  m_guestName : option string;
  m_slug : option string;
  m_name : option string
}.

Definition Match_host v m :=
  mkMatch (m_id m) v (m_guest m) (m_players m) (m_ruleName m) (m_score m)
          (m_length m) (m_currentGame m) (m_isOver m) (m_hostName m)
          (m_hostSlug m) (m_guestName m) (m_slug m) (m_name m).
Definition Match_guest v m :=
  mkMatch (m_id m) (m_host m) v (m_players m) (m_ruleName m) (m_score m)
          (m_length m) (m_currentGame m) (m_isOver m) (m_hostName m)
          (m_hostSlug m) (m_guestName m) (m_slug m) (m_name m).
Definition Match_players v m :=
  mkMatch (m_id m) (m_host m) (m_guest m) v (m_ruleName m) (m_score m)
          (m_length m) (m_currentGame m) (m_isOver m) (m_hostName m)
          (m_hostSlug m) (m_guestName m) (m_slug m) (m_name m).
Definition Match_ruleName v m :=
  mkMatch (m_id m) (m_host m) (m_guest m) (m_players m) v (m_score m)
          (m_length m) (m_currentGame m) (m_isOver m) (m_hostName m)
          (m_hostSlug m) (m_guestName m) (m_slug m) (m_name m).
Definition Match_score v m :=
  mkMatch (m_id m) (m_host m) (m_guest m) (m_players m) (m_ruleName m) v
          (m_length m) (m_currentGame m) (m_isOver m) (m_hostName m)
          (m_hostSlug m) (m_guestName m) (m_slug m) (m_name m).
Definition Match_currentGame v m :=
  mkMatch (m_id m) (m_host m) (m_guest m) (m_players m) (m_ruleName m) (m_score m)
          (m_length m) v (m_isOver m) (m_hostName m)
          (m_hostSlug m) (m_guestName m) (m_slug m) (m_name m).
Definition Match_isOver v m :=
  mkMatch (m_id m) (m_host m) (m_guest m) (m_players m) (m_ruleName m) (m_score m)
          (m_length m) (m_currentGame m) v (m_hostName m)
          (m_hostSlug m) (m_guestName m) (m_slug m) (m_name m).
Definition Match_hostName v m :=
  mkMatch (m_id m) (m_host m) (m_guest m) (m_players m) (m_ruleName m) (m_score m)
          (m_length m) (m_currentGame m) (m_isOver m) v
          (m_hostSlug m) (m_guestName m) (m_slug m) (m_name m).
Definition Match_hostSlug v m :=
  mkMatch (m_id m) (m_host m) (m_guest m) (m_players m) (m_ruleName m) (m_score m)
          (m_length m) (m_currentGame m) (m_isOver m) (m_hostName m)
          v (m_guestName m) (m_slug m) (m_name m).
Definition Match_guestName v m :=
  mkMatch (m_id m) (m_host m) (m_guest m) (m_players m) (m_ruleName m) (m_score m)
          (m_length m) (m_currentGame m) (m_isOver m) (m_hostName m)
          (m_hostSlug m) v (m_slug m) (m_name m).
Definition Match_slug v m :=
  mkMatch (m_id m) (m_host m) (m_guest m) (m_players m) (m_ruleName m) (m_score m)
          (m_length m) (m_currentGame m) (m_isOver m) (m_hostName m)
          (m_hostSlug m) (m_guestName m) v (m_name m).
Definition Match_name v m :=
  mkMatch (m_id m) (m_host m) (m_guest m) (m_players m) (m_ruleName m) (m_score m)
          (m_length m) (m_currentGame m) (m_isOver m) (m_hostName m)
          (m_hostSlug m) (m_guestName m) (m_slug m) v.

Definition Player_name v p :=
  mkPlayer (p_id p) v (p_socketID p) (p_currentMatch p) (p_currentPieceType p).
Definition Player_socketID v p :=
  mkPlayer (p_id p) (p_name p) v (p_currentMatch p) (p_currentPieceType p).
Definition Player_currentMatch v p :=
  mkPlayer (p_id p) (p_name p) (p_socketID p) v (p_currentPieceType p).
Definition Player_currentPieceType v p :=
  mkPlayer (p_id p) (p_name p) (p_socketID p) (p_currentMatch p) v.

(** A connection: [socket.player], [socket.match], [socket.rule] and
    [socket.handshake.headers.cookie]. *)
Record Socket := mkSocket {
  sk_player : option PlayerRef;
  sk_match : option MatchRef;
  sk_rule : option Rule;
  sk_cookie : option string
}.

Definition Socket_player v s := mkSocket v (sk_match s) (sk_rule s) (sk_cookie s).
Definition Socket_match v s := mkSocket (sk_player s) v (sk_rule s) (sk_cookie s).
Definition Socket_rule v s := mkSocket (sk_player s) (sk_match s) v (sk_cookie s).

(** The server object: [this.clients], [this.players], [this.matches],
    and the heap of board states. *)
Record Server := mkServer {
  clients : gmap SocketID Socket;
  players : list Player;
  matches : list Match;
  heap : gmap loc State
}.

Definition Server_clients v s := mkServer v (players s) (matches s) (heap s).
Definition Server_players v s := mkServer (clients s) v (matches s) (heap s).
Definition Server_matches v s := mkServer (clients s) (players s) v (heap s).
Definition Server_heap v s := mkServer (clients s) (players s) (matches s) v.

(** The parameter record of a request. *)
Record Params := mkParams {
  prm_clientMsgSeq : option Z;
  prm_playerName : option string;
  prm_playerID : option Z;
  prm_hostSlug : option string;
  prm_matchID : option Z;
  prm_ruleName : option string;
  prm_piece : option Piece;
  prm_steps : option Z;
  prm_type : option string;
  prm_moveSequence : option Z
}.

Definition Params_moveSequence v p :=
  mkParams (prm_clientMsgSeq p) (prm_playerName p) (prm_playerID p) (prm_hostSlug p)
           (prm_matchID p) (prm_ruleName p) (prm_piece p) (prm_steps p) (prm_type p) v.
Definition Params_ruleName v p :=
  mkParams (prm_clientMsgSeq p) (prm_playerName p) (prm_playerID p) (prm_hostSlug p)
           (prm_matchID p) v (prm_piece p) (prm_steps p) (prm_type p)
           (prm_moveSequence p).

(** One entry of the list sent in reply to [GET_MATCH_LIST]. *)
Record MatchInfo := mkInfo {
  i_id : Z;
  i_name : string;
  i_slug : option string;
  i_hostSlug : option string;
  i_isOpen : bool
}.

(** Values stored in a reply or in the parameters of an event.  Objects
    are held by reference and are serialised when the message is sent. *)
Inductive Val :=
| VBool (b : bool)
| VNum (z : Z)
| VStr (s : string)
| VNull
| VPlayer (r : PlayerRef)
| VMatch (r : MatchRef)
| VGameOf (r : MatchRef)          (* the [currentGame] of a match *)
| VDice (d : Dice)
| VPiece (p : Piece)
| VActions (l : list MoveAction)
| VList (l : list MatchInfo).

Definition vplayer (o : option PlayerRef) : Val :=
  match o with Some r => VPlayer r | None => VNull end.

(** A JavaScript object used as a record of named fields. *)
Abbreviation Obj := (gmap string Val).

(** [socket.emit(msg, params)] *)
Record Emit := mkEmit {
  e_socket : SocketID;
  e_msg : Message;
  e_params : Obj
}.

(** The closure stored in [reply.sendAfter]: every one of them
    broadcasts to a match or to one player. *)
Inductive Deferred :=
| ToMatch (m : MatchRef) (msg : Message) (params : Obj)
| ToPlayer (p : PlayerRef) (msg : Message) (params : Obj).

(** What a handler works on: the server, the reply object under
    construction, its [sendAfter] closure, and the messages emitted so
    far. *)
Record Ctx := mkCtx {
  srv : Server;
  reply : Obj;
  sendAfter : option (list Deferred);
  out : list Emit
}.

(** *** The monad of the handlers

    A JavaScript function either returns or throws; in both cases the
    mutations made until then persist. *)
Inductive Res (A : Type) := Ok (a : A) | Thrown.
Arguments Ok {A} a.
Arguments Thrown {A}.

Definition M (A : Type) : Type := Ctx -> Res A * Ctx.

#[local] Instance M_ret : MRet M := fun A a c => (Ok a, c).
#[local] Instance M_bind : MBind M := fun A B f m c =>
  match m c with
  | (Ok a, c') => f a c'
  | (Thrown, c') => (Thrown, c')
  end.

Definition throw {A} : M A := fun c => (Thrown, c).
Definition getServer : M Server := fun c => (Ok (srv c), c).
Definition putServer (s : Server) : M unit :=
  fun c => (Ok tt, mkCtx s (reply c) (sendAfter c) (out c)).
Definition modifyServer (f : Server -> Server) : M unit :=
  fun c => (Ok tt, mkCtx (f (srv c)) (reply c) (sendAfter c) (out c)).
Definition getReply : M Obj := fun c => (Ok (reply c), c).
Definition modifyReply (f : Obj -> Obj) : M unit :=
  fun c => (Ok tt, mkCtx (srv c) (f (reply c)) (sendAfter c) (out c)).
Definition setSendAfter (d : option (list Deferred)) : M unit :=
  fun c => (Ok tt, mkCtx (srv c) (reply c) d (out c)).
Definition getSendAfter : M (option (list Deferred)) :=
  fun c => (Ok (sendAfter c), c).
Definition emit (e : Emit) : M unit :=
  fun c => (Ok tt, mkCtx (srv c) (reply c) (sendAfter c) (out c ++ [e])).

(** [try { body } catch (e) { handler }] *)
Definition tryCatch {A} (body handler : M A) : M A := fun c =>
  match body c with
  | (Ok a, c') => (Ok a, c')
  | (Thrown, c') => handler c'
  end.

(** Reading a property of [o]: a [TypeError] when [o] is [undefined]. *)
Definition deref {A} (o : option A) : M A :=
  match o with Some a => mret a | None => throw end.


(** *** Access to the store *)

Definition setReply (k : string) (v : Val) : M unit :=
  modifyReply (fun r => <[k := v]> r).

(** [o.k = v] where [v] may be [undefined]: an undefined property is
    not serialised, which is to say it is absent. *)
Definition withOpt (k : string) (v : option Val) (o : Obj) : Obj :=
  match v with Some v => <[k := v]> o | None => delete k o end.

Definition setReplyOpt (k : string) (v : option Val) : M unit :=
  modifyReply (withOpt k v).

(** [reply.errorMessage = msg; return false;] *)
Definition fail (msg : string) : M bool :=
  setReply "errorMessage" (VStr msg);; mret false.

Definition getSocket (k : SocketID) : M Socket :=
  s ← getServer; deref (clients s !! k).

Definition modifySocket (k : SocketID) (f : Socket -> Socket) : M unit :=
  modifyServer (fun s => Server_clients (alter f k (clients s)) s).

Definition getSocketMatch (k : SocketID) : M (option MatchRef) :=
  sk ← getSocket k; mret (sk_match sk).
Definition getSocketPlayer (k : SocketID) : M (option PlayerRef) :=
  sk ← getSocket k; mret (sk_player sk).
Definition getSocketRule (k : SocketID) : M (option Rule) :=
  sk ← getSocket k; mret (sk_rule sk).

Definition setSocketMatch (k : SocketID) (m : MatchRef) : M unit :=
  modifySocket k (Socket_match (Some m)).
Definition setSocketPlayer (k : SocketID) (p : PlayerRef) : M unit :=
  modifySocket k (Socket_player (Some p)).
Definition setSocketRule (k : SocketID) (r : Rule) : M unit :=
  modifySocket k (Socket_rule (Some r)).

Definition readPlayer (r : PlayerRef) : M Player :=
  s ← getServer; deref (players s !! r).
Definition modifyPlayer (r : PlayerRef) (f : Player -> Player) : M unit :=
  modifyServer (fun s => Server_players (alter f r (players s)) s).

Definition readMatch (r : MatchRef) : M Match :=
  s ← getServer; deref (matches s !! r).
Definition modifyMatch (r : MatchRef) (f : Match -> Match) : M unit :=
  modifyServer (fun s => Server_matches (alter f r (matches s)) s).

(** The server with the match at [r] replaced, and with the board at
    [l] replaced. *)
Definition setMatch (r : MatchRef) (m : Match) (s : Server) : Server :=
  Server_matches (<[r := m]> (matches s)) s.
Definition setBoard (l : loc) (st : State) (s : Server) : Server :=
  Server_heap (<[l := st]> (heap s)) s.

(** [match.currentGame.f = v]: a [TypeError] without a current game. *)
Definition modifyCurrentGame (r : MatchRef) (f : Game -> Game) : M unit :=
  m ← readMatch r;
  g ← deref (m_currentGame m);
  modifyMatch r (Match_currentGame (Some (f g))).

Definition readState (l : loc) : M State :=
  s ← getServer; deref (heap s !! l).
Definition writeState (l : loc) (st : State) : M unit :=
  modifyServer (fun s => Server_heap (<[l := st]> (heap s)) s).
(** A new board object holding [st]. *)
Definition allocState (st : State) : M loc :=
  s ← getServer;
  let l := fresh (dom (heap s)) in
  writeState l st;; mret l.

(** The player object behind a reference that may be [null]. *)
Definition resolvePlayer (s : Server) (r : option PlayerRef) : option Player :=
  r ← r; players s !! r.

(** The view a rule has of [game]. *)
Definition viewOf (s : Server) (g : Game) : option GameView :=
  st ← heap s !! g_state g;
  Some (mkView g st (resolvePlayer s (g_turnPlayer g))).

Definition viewGame (g : Game) : M GameView :=
  s ← getServer; deref (viewOf s g).

(** [this.getPlayerByID(id)]: the first player of the array whose id
    equals [id]. *)
Definition getPlayerByID (s : Server) (id : option Z) : option PlayerRef :=
  fst <$> list_find (fun p => looseEqID (p_id p) id = true) (players s).

(** [this.getMatchByID(id)] *)
Definition getMatchByID (s : Server) (id : option Z) : option MatchRef :=
  fst <$> list_find (fun m => looseEqID (m_id m) id = true) (matches s).

(** The condition of the loop of [getOpenMatchByHostSlug]. *)
Definition answersTo (s : Server) (hostSlug : string) (m : Match) : bool :=
  negb (m_isOver m) && negb (isSomeB (m_guest m))
  && ((truthyStr (m_hostSlug m)
       && String.eqb (Slug.iccjSlugify (m_hostSlug m)) hostSlug)
      || (truthyStr (m_hostName m)
          && String.eqb (Slug.iccjSlugify (m_hostName m)) hostSlug)
      || match resolvePlayer s (m_host m) with
         | Some h => Slug.nonEmpty (p_name h)
                     && String.eqb (Slug.iccjSlugify (Some (p_name h))) hostSlug
         | None => false
         end).

(** [this.getOpenMatchByHostSlug(hostSlug)] *)
Definition getOpenMatchByHostSlug (s : Server) (hostSlug : string) : option MatchRef :=
  let hostSlug := Slug.iccjSlugify (Some hostSlug) in
  if negb (Slug.nonEmpty hostSlug) then None
  else fst <$> list_find (fun m => answersTo s hostSlug m = true) (matches s).

Fixpoint forEach {A} (l : list A) (f : A -> M unit) : M unit :=
  match l with
  | [] => mret tt
  | a :: t => f a;; forEach t f
  end.

(** *** Sending *)

Definition sendMessage (k : SocketID) (msg : Message) (params : Obj) : M unit :=
  emit (mkEmit k msg params).

Definition sendPlayerMessage (r : PlayerRef) (msg : Message) (params : Obj) : M unit :=
  p ← readPlayer r;
  s ← getServer;
  match p_socketID p with
  | Some k =>
      match clients s !! k with
      | Some _ => sendMessage k msg params
      | None => mret tt
      end
  | None => mret tt
  end.

Definition sendMatchMessage (r : MatchRef) (msg : Message) (params : Obj) : M unit :=
  m ← readMatch r;
  forEach (m_players m) (fun id =>
    s ← getServer;
    match getPlayerByID s (Some id) with
    | Some p => sendPlayerMessage p msg params
    | None => mret tt
    end).

Definition sendOthersMessage (r : MatchRef) (exceptPlayerID : Z)
           (msg : Message) (params : Obj) : M unit :=
  m ← readMatch r;
  forEach (m_players m) (fun id =>
    if id =? exceptPlayerID then mret tt
    else
      s ← getServer;
      match getPlayerByID s (Some id) with
      | Some p => sendPlayerMessage p msg params
      | None => mret tt
      end).

(** The connection a broadcast reaches for the participant [id]: the
    socket registered under the [socketID] of the first player with
    that id, when there is one. *)
Definition socketOf (s : Server) (id : Z) : option SocketID :=
  r ← getPlayerByID s (Some id);
  p ← players s !! r;
  k ← p_socketID p;
  _ ← clients s !! k;
  Some k.

Definition recipients (s : Server) (ids : list Z) : list SocketID :=
  omap (socketOf s) ids.

Definition runDeferred (d : Deferred) : M unit :=
  match d with
  | ToMatch m msg params => sendMatchMessage m msg params
  | ToPlayer p msg params => sendPlayerMessage p msg params
  end.

(** *** [lib/model.js] *)

(** Modelled from the spec: [model.Player.createNew] of [lib/model.js],
    which is not among the sources.  A player is created with a stable
    id and without connection, match or colour. *)
Definition Player_createNew (o : Oracle) : Player :=
  mkPlayer (newPlayerID o) "" None None None.

(** Modelled from the spec: [model.Match.createNew] of [lib/model.js].
    A match starts with an id, no host, no guest, the name of its rule,
    a zero score for both colours, its length, no game, and not over. *)
Definition Match_createNew (o : Oracle) (rule : Rule) : Match :=
  mkMatch (newMatchID o) None None [] (Some (r_name rule)) (fun _ => 0)
          matchLength None false None None None None None.

(** Modelled from the spec: [model.Match.addHostPlayer] and
    [model.Match.addGuestPlayer] of [lib/model.js]: the player takes
    the seat and its id joins [match.players], the list the broadcasts
    of [server.js] iterate over. *)
Definition Match_addHostPlayer (r : PlayerRef) (p : Player) (m : Match) : Match :=
  Match_players (m_players m ++ [p_id p]) (Match_host (Some r) m).
Definition Match_addGuestPlayer (r : PlayerRef) (p : Player) (m : Match) : Match :=
  Match_players (m_players m ++ [p_id p]) (Match_guest (Some r) m).

(** Modelled from the spec: [model.Match.isHost] of [lib/model.js]:
    the player is the one seated as host. *)
Definition Match_isHost (s : Server) (m : Match) (p : option PlayerRef) : bool :=
  match resolvePlayer s (m_host m), resolvePlayer s p with
  | Some h, Some q => p_id h =? p_id q
  | _, _ => false
  end.

(** Modelled from the spec: [model.Match.createNewGame] of
    [lib/model.js]: a new game on the initial board of the rule, not
    started, without dice, with move sequence 0, becomes
    [match.currentGame]. *)
Definition Match_createNewGame (o : Oracle) (r : MatchRef) (rule : Rule) : M unit :=
  l ← allocState (r_initialState rule);
  modifyMatch r (Match_currentGame
    (Some (mkGame (newGameID o) false None 0 None 0 l None))).

(** Modelled from the spec: [model.Game.diceWasRolled] of
    [lib/model.js]: the dice of the turn are present. *)
Definition Game_diceWasRolled (g : Game) : bool := isSomeB (g_turnDice g).

(** Modelled from the spec: [model.Game.snapshotState] of
    [lib/model.js]: the game retains a deep, independent copy of its
    current board. *)
Definition Game_snapshotState (r : MatchRef) : M unit :=
  m ← readMatch r;
  g ← deref (m_currentGame m);
  st ← readState (g_state g);
  l ← allocState st;
  modifyMatch r (Match_currentGame (Some (Game_snapshot (Some l) g))).

(** Modelled from the spec: [model.Game.restoreState] of
    [lib/model.js]: the board of the game becomes a deep, independent
    copy of the retained snapshot. *)
Definition Game_restoreState (r : MatchRef) : M unit :=
  m ← readMatch r;
  g ← deref (m_currentGame m);
  snap ← deref (g_snapshot g);
  st ← readState snap;
  l ← allocState st;
  modifyMatch r (Match_currentGame (Some (Game_state l g))).

(** Modelled from the spec: [rule.nextTurn(match)] of
    [lib/rules/rule.js]: the turn passes to the opponent and the dice
    of the turn are cleared. *)
Definition Rule_nextTurn (r : MatchRef) : M unit :=
  m ← readMatch r;
  g ← deref (m_currentGame m);
  s ← getServer;
  let next := if Match_isHost s m (g_turnPlayer g) then m_guest m else m_host m in
  modifyMatch r (Match_currentGame
    (Some (Game_turnDice None (Game_turnPlayer next g)))).

(** *** The request handlers *)

Definition RuleBgCasual : string := "RuleBgCasual".

(** [{ 'match': match }] *)
Definition matchParams (r : MatchRef) : Obj := {[ "match" := VMatch r ]}.

(** [{ 'match': match, 'winner': winner, 'resigned': resigned }] *)
Definition overParams (r : MatchRef) (winner : option PlayerRef) (resigned : bool) : Obj :=
  <["match" := VMatch r]> (<["winner" := vplayer winner]>
    {[ "resigned" := VBool resigned ]}).

Definition handleCreateGuest (o : Oracle) (k : SocketID) (params : option Params) : M bool :=
  let desiredName :=
    match params with
    | Some p => if truthyStr (prm_playerName p) then Slug.iccjSafeDisplayName (prm_playerName p) else ""
    | None => ""
    end in
  sk ← getSocket k;
  s ← getServer;
  player ←
    (if negb (isSomeB (sk_player sk)) && truthyNum (params ≫= prm_playerID) then
       let player := getPlayerByID s (params ≫= prm_playerID) in
       match player with
       | Some r => modifyPlayer r (Player_socketID (Some k))
       | None => mret tt
       end;;
       mret player
     else if truthyStr (sk_cookie sk) then
       mret (getPlayerByID s (Cookie.playerID (default "" (sk_cookie sk))))
     else mret None);
  reconnected ←
    match player with
    | Some r =>
        (if Slug.nonEmpty desiredName then modifyPlayer r (Player_name desiredName)
         else mret tt);;
        p ← readPlayer r;
        s ← getServer;
        match getMatchByID s (p_currentMatch p) with
        | Some mr =>
            m ← readMatch mr;
            if negb (m_isOver m) then
              ruleName ← deref (m_ruleName m);
              let rule := loadRule ruleName in
              modifyPlayer r (Player_socketID (Some k));;
              setSocketPlayer k r;;
              setSocketMatch k mr;;
              setSocketRule k rule;;
              setSendAfter (Some [ToPlayer r EVENT_MATCH_START (matchParams mr)]);;
              setReply "player" (VPlayer r);;
              setReply "reconnected" (VBool true);;
              mret true
            else mret false
        | None => mret false
        end
    | None => mret false
    end;
  if reconnected : bool then mret true
  else
    s ← getServer;
    let r := length (players s) in
    let player := Player_createNew o in
    let player :=
      Player_name (Slug.orElse desiredName ("Player " ++ pretty (p_id player))) player in
    modifyServer (fun s => Server_players (players s ++ [player]) s);;
    modifyPlayer r (Player_socketID (Some k));;
    setSocketPlayer k r;;
    setReply "player" (VPlayer r);;
    setReply "reconnected" (VBool false);;
    mret true.

Definition handleGetMatchList (k : SocketID) (params : option Params) : M bool :=
  s ← getServer;
  let list :=
    omap (fun m =>
      if m_isOver m then None
      else Some (mkInfo (m_id m)
                        (if truthyStr (m_name m) then default "" (m_name m)
                         else "Match " ++ pretty (m_id m))
                        (if truthyStr (m_slug m) then m_slug m else None)
                        (if truthyStr (m_hostSlug m) then m_hostSlug m else None)
                        (negb (isSomeB (m_guest m)))))
      (matches s) in
  setReply "list" (VList list);;
  mret true.

Definition handleCreateMatch (o : Oracle) (k : SocketID) (params : option Params) : M bool :=
  player ← getSocketPlayer k;
  match player with
  | None => fail "Player not found!"
  | Some pr =>
      (* Force traditional rules only *)
      let ruleName := RuleBgCasual in
      let rule := loadRule ruleName in
      (* Allow UI to set/override display name *)
      (if truthyStr (params ≫= prm_playerName) then
         let dn := Slug.iccjSafeDisplayName (params ≫= prm_playerName) in
         if Slug.nonEmpty dn then modifyPlayer pr (Player_name dn) else mret tt
       else mret tt);;
      p ← readPlayer pr;
      (* Determine hostSlug (prefer provided, else derived from name) *)
      let hostSlug := "" in
      let hostSlug :=
        if truthyStr (params ≫= prm_hostSlug) then Slug.iccjSlugify (params ≫= prm_hostSlug)
        else hostSlug in
      let hostSlug :=
        if negb (Slug.nonEmpty hostSlug) then Slug.iccjSlugify (Some (p_name p))
        else hostSlug in
      if negb (Slug.nonEmpty hostSlug) then fail "Host name is required."
      else
        s ← getServer;
        (* Reuse existing open match for this hostSlug *)
        match getOpenMatchByHostSlug s hostSlug with
        | Some er =>
            existing ← readMatch er;
            setSocketMatch k er;;
            setSocketRule k rule;;
            setReply "player" (VPlayer pr);;
            setReply "ruleName" (VStr ruleName);;
            setReply "matchID" (VNum (m_id existing));;
            setReply "hostSlug" (VStr hostSlug);;
            setReply "slug" (VStr (if truthyStr (m_slug existing)
                                   then default "" (m_slug existing) else hostSlug));;
            setReply "matchName" (VStr (if truthyStr (m_name existing)
                                        then default "" (m_name existing) else p_name p));;
            setReply "reused" (VBool true);;
            mret true
        | None =>
            let mr := length (matches s) in
            let match_ := Match_createNew o rule in
            (* ICCJ metadata *)
            let match_ := Match_ruleName (Some ruleName) match_ in
            let match_ := Match_hostName (Some (p_name p)) match_ in
            let match_ := Match_hostSlug (Some hostSlug) match_ in
            let match_ := Match_guestName None match_ in
            let match_ := Match_slug (Some hostSlug) match_ in
            let match_ :=
              Match_name (Some (Slug.orElse (p_name p) ("Match " ++ pretty (m_id match_))))
                         match_ in
            let match_ := Match_addHostPlayer pr p match_ in
            modifyPlayer pr (Player_currentMatch (Some (m_id match_)));;
            modifyPlayer pr (Player_currentPieceType (Some WHITE));;
            modifyServer (fun s => Server_matches (matches s ++ [match_]) s);;
            (* Create game but do not start until guest joins *)
            Match_createNewGame o mr rule;;
            setSocketMatch k mr;;
            setSocketRule k rule;;
            setReply "player" (VPlayer pr);;
            setReply "ruleName" (VStr ruleName);;
            setReply "matchID" (VNum (m_id match_));;
            setReply "hostSlug" (VStr hostSlug);;
            setReply "slug" (VStr hostSlug);;
            setReply "matchName" (VStr (default "" (m_name match_)));;
            mret true
        end
  end.

Definition handleJoinMatch (k : SocketID) (params : option Params) : M bool :=
  s ← getServer;
  let match_ :=
    if truthyStr (params ≫= prm_hostSlug) then
      getOpenMatchByHostSlug s (Slug.iccjSlugify (params ≫= prm_hostSlug))
    else if truthyNum (params ≫= prm_matchID) then
      getMatchByID s (params ≫= prm_matchID)
    else None in
  match match_ with
  | None => fail "Match not found!"
  | Some mr =>
      m ← readMatch mr;
      if isSomeB (m_guest m) then fail "Match is full!"
      else
        guestPlayer ← getSocketPlayer k;
        match guestPlayer with
        | None => fail "Player not found!"
        | Some gr =>
            (* Force traditional rules only *)
            let rule := loadRule RuleBgCasual in
            g ← readPlayer gr;
            modifyMatch mr (Match_addGuestPlayer gr g);;
            modifyPlayer gr (Player_currentMatch (Some (m_id m)));;
            modifyPlayer gr (Player_currentPieceType (Some BLACK));;
            (* Finalize match metadata now that both names exist *)
            s ← getServer;
            let hostName :=
              if truthyStr (m_hostName m) then default "" (m_hostName m)
              else match resolvePlayer s (m_host m) with
                   | Some h => Slug.orElse (p_name h) "Host"
                   | None => "Host"
                   end in
            let guestName := Slug.orElse (p_name g) "Guest" in
            modifyMatch mr (Match_hostName (Some hostName));;
            modifyMatch mr (Match_guestName (Some guestName));;
            let slug := Slug.iccjMatchSlug (Some hostName) (Some guestName) in
            modifyMatch mr (Match_slug (Some slug));;
            let name := hostName ++ " vs " ++ guestName in
            modifyMatch mr (Match_name (Some name));;
            (* Start match *)
            modifyCurrentGame mr (Game_hasStarted true);;
            modifyCurrentGame mr (Game_turnPlayer (m_host m));;
            modifyCurrentGame mr (Game_turnNumber 1);;
            setSocketMatch k mr;;
            setSocketRule k rule;;
            setReply "ruleName" (VStr RuleBgCasual);;
            setReply "host" (vplayer (m_host m));;
            setReply "guest" (VPlayer gr);;
            setReply "slug" (VStr slug);;
            setReply "matchName" (VStr name);;
            setSendAfter (Some [ToMatch mr EVENT_MATCH_START (matchParams mr)]);;
            mret true
        end
  end.

(** *** The gameplay handlers *)

Definition handleRollDice (o : Oracle) (k : SocketID) (params : option Params) : M bool :=
  match_ ← getSocketMatch k;
  player ← getSocketPlayer k;
  rule ← getSocketRule k;
  mr ← deref match_;
  m ← readMatch mr;
  match m_currentGame m with
  | None =>
      fail ("Match with ID " ++ pretty (m_id m) ++ " has no current game!")
  | Some game =>
      if negb (g_hasStarted game) then
        fail ("Game with ID " ++ pretty (g_id game) ++ " is not yet started!")
      else
        s ← getServer;
        notTurn ←
          match g_turnPlayer game with
          | None => mret true
          | Some tr =>
              tp ← deref (players s !! tr);
              p ← deref (resolvePlayer s player);
              mret (negb (p_id tp =? p_id p))
          end;
        if notTurn : bool then
          p ← deref (resolvePlayer s player);
          fail ("Cannot roll dice it isn't player " ++ pretty (p_id p) ++ " turn!")
        else if Game_diceWasRolled game then
          fail "Dice was already rolled!"
        else
          p ← deref (resolvePlayer s player);
          rule ← deref rule;
          gv ← viewGame game;
          let dice := rollDice rule gv (diceSeed o) in
          modifyCurrentGame mr (Game_turnDice (Some dice));;
          Game_snapshotState mr;;
          setReply "player" (vplayer (g_turnPlayer game));;
          setReply "dice" (VDice dice);;
          sendOthersMessage mr (p_id p) EVENT_DICE_ROLL (matchParams mr);;
          mret true
  end.

(** The error text of a move that carries a sequence number below the
    counter of the game: the test on the piece comes first. *)
Definition staleText (prm : Params) : string :=
  match prm_piece prm with
  | Some _ => "This move has already been played!"
  | None => "No piece selected!"
  end.

Definition handleMovePiece (k : SocketID) (params : option Params) : M bool :=
  match_ ← getSocketMatch k;
  player ← getSocketPlayer k;
  rule ← getSocketRule k;
  params ← deref params;
  match prm_piece params with
  | None => fail "No piece selected!"
  | Some piece =>
      mr ← deref match_;
      m ← readMatch mr;
      match m_currentGame m with
      | None => fail "Match created, but current game is null!"
      | Some game =>
          if jsLt (prm_moveSequence params) (g_moveSequence game) then
            fail "This move has already been played!"
          else
            rule ← deref rule;
            s ← getServer;
            gv ← viewGame game;
            if negb (validateMove rule gv (resolvePlayer s player) piece (prm_steps params)) then
              fail "Requested move is not valid!"
            else
              let actionList := getMoveActions rule (gv_state gv) piece (prm_steps params) in
              if (length actionList =? 0)%nat then
                fail "Requested move is not allowed!"
              else
                tryCatch
                  (let '(st', completed) := applyMoveActions rule (gv_state gv) actionList in
                   writeState (g_state game) st';;
                   (if completed : bool then mret tt else throw);;
                   dice ← deref (g_turnDice game);
                   dice' ← deref (markAsPlayed rule dice (prm_steps params));
                   modifyCurrentGame mr (Game_turnDice (Some dice'));;
                   modifyCurrentGame mr (fun g => Game_moveSequence (g_moveSequence g + 1) g);;
                   setReply "piece" (VPiece piece);;
                   setReplyOpt "type" (VStr <$> prm_type params);;
                   setReplyOpt "steps" (VNum <$> prm_steps params);;
                   setReply "moveActionList" (VActions actionList);;
                   sendMatchMessage mr EVENT_PIECE_MOVE
                     (<["match" := VMatch mr]> (<["piece" := VPiece piece]>
                       (withOpt "type" (VStr <$> prm_type params)
                         (withOpt "steps" (VNum <$> prm_steps params)
                           {[ "moveActionList" := VActions actionList ]}))));;
                   mret true)
                  (setReply "piece" (VPiece piece);;
                   setReplyOpt "type" (VStr <$> prm_type params);;
                   setReplyOpt "steps" (VNum <$> prm_steps params);;
                   setReply "moveActionList" (VActions []);;
                   if DEBUG then throw else mret false)
      end
  end.

Definition endGame (o : Oracle) (k : SocketID) (winner : option PlayerRef)
           (resigned : bool) : M bool :=
  match_ ← getSocketMatch k;
  rule ← getSocketRule k;
  rule ← deref rule;
  mr ← deref match_;
  m ← readMatch mr;
  game ← deref (m_currentGame m);
  st ← readState (g_state game);
  s ← getServer;
  let score := getGameScore rule st (resolvePlayer s winner) in
  w ← deref (resolvePlayer s winner);
  (* match.score[winner.currentPieceType] += score; the entry is a
     number only for a colour, and no comparison holds otherwise *)
  reached ←
    match p_currentPieceType w with
    | Some c =>
        let total := m_score m c + score in
        modifyMatch mr (fun m =>
          Match_score (fun c' => if decide (c' = c) then total else m_score m c') m);;
        mret (m_length m <=? total)
    | None => mret false
    end;
  (if reached : bool then modifyMatch mr (Match_isOver true) else mret tt);;
  m ← readMatch mr;
  if m_isOver m then
    setSendAfter (Some [ToMatch mr EVENT_MATCH_OVER (overParams mr winner resigned)]);;
    mret true
  else
    Match_createNewGame o mr rule;;
    modifyCurrentGame mr (Game_hasStarted true);;
    modifyCurrentGame mr (Game_turnPlayer winner);;
    modifyCurrentGame mr (Game_turnNumber 1);;
    setSendAfter (Some [
      ToMatch mr EVENT_GAME_OVER (overParams mr winner resigned);
      ToMatch mr EVENT_GAME_RESTART
        (<["match" := VMatch mr]> (<["game" := VGameOf mr]>
          {[ "resigned" := VBool resigned ]})) ]);;
    mret true.

Definition handleConfirmMoves (o : Oracle) (k : SocketID) (params : option Params) : M bool :=
  match_ ← getSocketMatch k;
  player ← getSocketPlayer k;
  rule ← getSocketRule k;
  rule ← deref rule;
  mr ← deref match_;
  m ← readMatch mr;
  game ← deref (m_currentGame m);
  gv ← viewGame game;
  s ← getServer;
  if negb (validateConfirm rule gv (resolvePlayer s player)) then
    fail "Confirming moves is not allowed!"
  else
    (if hasWon rule (gv_state gv) (resolvePlayer s player) then
       endGame o k player false;; mret tt
     else
       Rule_nextTurn mr;;
       sendMatchMessage mr EVENT_TURN_START (matchParams mr));;
    mret true.

Definition handleUndoMoves (k : SocketID) (params : option Params) : M bool :=
  match_ ← getSocketMatch k;
  player ← getSocketPlayer k;
  rule ← getSocketRule k;
  rule ← deref rule;
  mr ← deref match_;
  m ← readMatch mr;
  game ← deref (m_currentGame m);
  gv ← viewGame game;
  s ← getServer;
  if negb (validateUndo rule gv (resolvePlayer s player)) then
    fail "Undo moves is not allowed!"
  else
    Game_restoreState mr;;
    sendMatchMessage mr EVENT_UNDO_MOVES (matchParams mr);;
    mret true.

(** [(model.Match.isHost(match, player)) ? match.guest : match.host]:
    the opponent of a player in a match. *)
Definition opponentOf (s : Server) (m : Match) (player : option PlayerRef)
  : option PlayerRef :=
  if Match_isHost s m player then m_guest m else m_host m.

Definition handleResignGame (o : Oracle) (k : SocketID) (params : option Params) : M bool :=
  match_ ← getSocketMatch k;
  player ← getSocketPlayer k;
  mr ← deref match_;
  m ← readMatch mr;
  s ← getServer;
  let otherPlayer := opponentOf s m player in
  endGame o k otherPlayer true;;
  mret true.

Definition handleResignMatch (k : SocketID) (params : option Params) : M bool :=
  match_ ← getSocketMatch k;
  player ← getSocketPlayer k;
  mr ← deref match_;
  m ← readMatch mr;
  s ← getServer;
  let otherPlayer := opponentOf s m player in
  setSendAfter (Some [ToMatch mr EVENT_MATCH_OVER (overParams mr otherPlayer true)]);;
  mret true.

(** [this.handleRequest(msg, socket, params)] *)
Definition dispatch (o : Oracle) (msg : Message) (k : SocketID)
           (params : option Params) : option (M bool) :=
  match msg with
  | CREATE_GUEST => Some (handleCreateGuest o k params)
  | GET_MATCH_LIST => Some (handleGetMatchList k params)
  | CREATE_MATCH => Some (handleCreateMatch o k params)
  | JOIN_MATCH => Some (handleJoinMatch k params)
  | ROLL_DICE => Some (handleRollDice o k params)
  | MOVE_PIECE => Some (handleMovePiece k params)
  | CONFIRM_MOVES => Some (handleConfirmMoves o k params)
  | UNDO_MOVES => Some (handleUndoMoves k params)
  | RESIGN_GAME => Some (handleResignGame o k params)
  | RESIGN_MATCH => Some (handleResignMatch k params)
  | _ => None
  end.

(** [var reply = { 'result': false };] and the echo of the sequence
    number the client gave the request. *)
Definition initialReply (params : option Params) : Obj :=
  let reply : Obj := {[ "result" := VBool false ]} in
  if truthyNum (params ≫= prm_clientMsgSeq)
  then withOpt "clientMsgSeq" (VNum <$> (params ≫= prm_clientMsgSeq)) reply
  else reply.

Definition handleRequest (o : Oracle) (msg : Message) (k : SocketID)
           (params : option Params) : M unit :=
  modifyReply (fun _ => initialReply params);;
  setSendAfter None;;
  match dispatch o msg k params with
  | None => mret tt                        (* 'Unknown message!' *)
  | Some handler =>
      result ← handler;
      setReply "result" (VBool result);;
      match_ ← getSocketMatch k;
      (match match_ with
       | Some mr => setReply "match" (VMatch mr)
       | None => mret tt
       end);;
      reply ← getReply;
      sendMessage k msg reply;;
      after ← getSendAfter;
      match after with
      | Some ds => forEach ds runDeferred;; setSendAfter None
      | None => mret tt
      end
      (* this.snapshotServer(): persistence, outside the model *)
  end.

(** A request as the socket layer runs it: the handler is wrapped in
    [try { ... } catch (e) { console.log(e); }].  The result is the
    server afterwards and the messages emitted. *)
Definition serve (o : Oracle) (msg : Message) (k : SocketID)
           (params : option Params) (s : Server) : Server * list Emit :=
  let '(_, c) := handleRequest o msg k params (mkCtx s ∅ None []) in
  (srv c, out c).

(** Running one handler from a server state, with a fresh reply. *)
Definition run {A} (h : M A) (s : Server) : Res A * Ctx :=
  h (mkCtx s {[ "result" := VBool false ]} None []).

(** A new connection: [self.clients[socket.id] = socket]. *)
Definition connect (k : SocketID) (cookie : option string) (s : Server) : Server :=
  Server_clients (<[k := mkSocket None None None cookie]> (clients s)) s.

(** *** Predicates used by the statements *)

(** The connection [k] is bound to the rule ["RuleBgCasual"] and the
    reply names that rule. *)
Definition bindsCasual (k : SocketID) (c : Ctx) : Prop :=
  (exists sk, clients (srv c) !! k = Some sk
              /\ sk_rule sk = Some (loadRule RuleBgCasual))
  /\ reply c !! "ruleName" = Some (VStr RuleBgCasual).

(** Every match of [l'] is bound to ["RuleBgCasual"] or is a match of
    [l], at the same place, with the rule name it had. *)
Definition namesKept (l l' : list Match) : Prop :=
  forall j m', l' !! j = Some m' ->
    m_ruleName m' = Some RuleBgCasual
    \/ exists m, l !! j = Some m /\ m_ruleName m = m_ruleName m'.

(** Every match has a current game: [createNewGame] is called on every
    match that [handleCreateMatch] creates. *)
Definition inPlay (s : Server) : Prop :=
  forall (mr : MatchRef) m, matches s !! mr = Some m -> m_currentGame m <> None.

(** The snapshot of the current game of the match [mr] is the board
    object [snap]: it holds [st], and it is not the live board of the
    game. *)
Definition snapshotHeld (mr : MatchRef) (snap : loc) (st : State) (s : Server) : Prop :=
  exists m g,
    matches s !! mr = Some m /\ m_currentGame m = Some g
    /\ g_snapshot g = Some snap /\ g_state g <> snap
    /\ heap s !! snap = Some st.

(** The connection [k] is bound to the match [mr]. *)
Definition boundTo (s : Server) (k : SocketID) (mr : MatchRef) : bool :=
  match clients s !! k with
  | Some sk => match sk_match sk with Some r => Nat.eqb r mr | None => false end
  | None => false
  end.

(** A run of MOVE_PIECE requests on connections of the match [mr], each
    of them answered, be it accepted or refused. *)
Fixpoint playMoves (mr : MatchRef) (reqs : list (SocketID * Params)) (s : Server)
  : option Server :=
  match reqs with
  | [] => Some s
  | (k, prm) :: t =>
      if boundTo s k mr then
        match handleMovePiece k (Some prm) (mkCtx s (initialReply (Some prm)) None []) with
        | (Ok _, c') => playMoves mr t (srv c')
        | (Thrown, _) => None
        end
      else None
  end.

(** The message and the payload of a deferred broadcast. *)
Definition d_msg (d : Deferred) : Message :=
  match d with ToMatch _ msg _ | ToPlayer _ msg _ => msg end.
Definition d_params (d : Deferred) : Obj :=
  match d with ToMatch _ _ params | ToPlayer _ _ params => params end.

(** The reply as [handleRequest] sends it: [reply.result = ...] and
    then [if (match) reply.match = match]. *)
Definition finalReply (result : bool) (match_ : option MatchRef) (reply : Obj) : Obj :=
  let reply := <["result" := VBool result]> reply in
  match match_ with
  | Some mr => <["match" := VMatch mr]> reply
  | None => reply
  end.

(** The computation leaves the field [clientMsgSeq] of the reply as it
    is, whether it returns or throws. *)
Definition keepsSeq {A} (h : M A) : Prop :=
  forall c, reply (snd (h c)) !! "clientMsgSeq" = reply c !! "clientMsgSeq".

(** The context [c'] differs from [c] by an error text in the reply
    only. *)
Definition untouched (c c' : Ctx) : Prop :=
  srv c' = srv c /\ out c' = out c /\ sendAfter c' = sendAfter c
  /\ exists text, reply c' = <["errorMessage" := VStr text]> (reply c).

(** The match a JOIN_MATCH request is about: by slug among the open
    matches when a slug is given, by id otherwise. *)
Definition joinTarget (s : Server) (params : option Params) : option MatchRef :=
  if truthyStr (params ≫= prm_hostSlug) then
    getOpenMatchByHostSlug s (Slug.iccjSlugify (params ≫= prm_hostSlug))
  else if truthyNum (params ≫= prm_matchID) then
    getMatchByID s (params ≫= prm_matchID)
  else None.

(** The payload of EVENT_PIECE_MOVE: the match, the piece, the type and
    the steps of the request, and the actions of the move. *)
Definition movePayload (mr : MatchRef) (piece : Piece) (prm : Params)
           (actionList : list MoveAction) : Obj :=
  <["match" := VMatch mr]> (<["piece" := VPiece piece]>
    (withOpt "type" (VStr <$> prm_type prm)
      (withOpt "steps" (VNum <$> prm_steps prm)
        {[ "moveActionList" := VActions actionList ]}))).

End Server.

#[global] Existing Instance M_ret.
#[global] Existing Instance M_bind.

(** A JavaScript object used as a record of named fields. *)
Abbreviation Obj := (gmap string Val).

Arguments Ok {A} a.
Arguments Thrown {A}.

(* ===================================================================== *)
(** ** A concrete rule variant, for running the server *)
(* ===================================================================== *)

Module Toy.

(** Modelled from the spec: a rule variant ([lib/rules/RuleBgCasual.js]
    is not among the sources).  It is the smallest variant with the
    capabilities of section 4.1: a board is the list of the positions
    of the pieces, a piece is named by its index, the dice are the
    values still to be played, and a move advances one piece by one
    such value. *)
Definition State := list Z.
Definition Dice := list Z.
Definition Piece := nat.
Definition MoveAction := (nat * Z)%type.

Definition ownsTurn (gv : @GameView Dice State) (player : option Player) : bool :=
  match gv_turnPlayer gv, player with
  | Some t, Some p => p_id t =? p_id p
  | _, _ => false
  end.

Fixpoint removeFirst (x : Z) (l : list Z) : option (list Z) :=
  match l with
  | [] => None
  | y :: t => if x =? y then Some t else cons y <$> removeFirst x t
  end.

Definition rule : @Rule State Dice Piece MoveAction :=
  {| r_name := "RuleBgCasual";
     r_initialState := [0; 0];
     rollDice := fun _ seed => [1 + seed mod 6; 1 + (seed / 6) mod 6];
     validateMove := fun gv player _ steps =>
       ownsTurn gv player
       && match g_turnDice (gv_game gv), steps with
          | Some d, Some n => isSomeB (removeFirst n d)
          | _, _ => false
          end;
     getMoveActions := fun st piece steps =>
       match st !! piece, steps with
       | Some pos, Some n => [(piece, pos + n)]
       | _, _ => []
       end;
     applyMoveActions := fun st acts =>
       (fold_left (fun st a => <[fst a := snd a]> st) acts st, true);
     markAsPlayed := fun d steps => n ← steps; removeFirst n d;
     validateConfirm := fun gv player =>
       ownsTurn gv player
       && match g_turnDice (gv_game gv) with Some [] => true | _ => false end;
     validateUndo := fun gv player =>
       ownsTurn gv player && isSomeB (g_turnDice (gv_game gv));
     hasWon := fun st _ => forallb (fun pos => 24 <=? pos) st;
     getGameScore := fun _ _ => 1 |}.

Definition loadRule (name : string) : @Rule State Dice Piece MoveAction := rule.

Definition Server := @Server State Dice Piece MoveAction.
Definition Params := @Params Piece.

Definition noParams : Params :=
  mkParams None None None None None None None None None None.

Definition oracle (n : Z) : Oracle := mkOracle (100 + n) (200 + n) (300 + n) n.

Definition empty : Server := mkServer ∅ [] [] ∅.

(** One request served with match length 1 and without [DEBUG]. *)
Definition step (n : Z) (msg : Message) (k : SocketID) (p : Params) (s : Server) : Server :=
  fst (serve loadRule 1 false (oracle n) msg k (Some p) s).

(** Alice connects on ["sA"]. *)
Definition withAlice : Server :=
  step 1 CREATE_GUEST "sA" noParams (connect "sA" None empty).

Definition aliceParams : Params :=
  mkParams None (Some "Alice ") None None None None None None None None.

(** The same display name, with a slug of her own choosing. *)
Definition aliceAsBob : Params :=
  mkParams None (Some "Alice ") None (Some "bob") None None None None None None.

(** Alice opens a match under the display name ["Alice "]. *)
Definition hosted : Server := step 2 CREATE_MATCH "sA" aliceParams withAlice.

(** Bob connects on ["sB"]. *)
Definition withBob : Server :=
  step 3 CREATE_GUEST "sB"
       (mkParams None (Some "Bob") None None None None None None None None)
    (connect "sB" None hosted).

(** Bob joins through the invite slug ["ALICE"]. *)
Definition joined : Server :=
  step 4 JOIN_MATCH "sB"
       (mkParams None None None (Some "ALICE") None None None None None None) withBob.

(** Alice rolls: with seed 8 the dice are [3; 2]. *)
Definition rolled : Server := step 8 ROLL_DICE "sA" noParams joined.

Definition moveParams (piece : nat) (steps seq : Z) : Params :=
  mkParams None None None None None None (Some piece) (Some steps) None (Some seq).

(** Alice advances piece 0 by 3. *)
Definition moved : Server := step 9 MOVE_PIECE "sA" (moveParams 0 3 0) rolled.

(** Carol connects on ["sC"] once Bob is seated. *)
Definition withCarol : Server :=
  step 5 CREATE_GUEST "sC"
       (mkParams None (Some "Carol") None None None None None None None None)
    (connect "sC" None joined).

Definition joinBySlug (slug : string) : Params :=
  mkParams None None None (Some slug) None None None None None None.
Definition joinByID (id : Z) : Params :=
  mkParams None None None None (Some id) None None None None None.

(** Alice's client opens a second connection, ["sA2"]. *)
Definition reconnecting : Server := connect "sA2" None joined.

Definition guestByID (id : Z) : Params :=
  mkParams None None (Some id) None None None None None None None.

(** Alice plays the other die: piece 1 advances by 2. *)
Definition played : Server := step 10 MOVE_PIECE "sA" (moveParams 1 2 1) moved.

(** The same position with both pieces at the end of the board. *)
Definition won : Server := setBoard 0%nat [24; 24] played.

(** A display name without a letter or a digit. *)
Definition dotsParams : Params :=
  mkParams None (Some "...") None None None None None None None None.

(** A request that carries the sequence number 7 of the client. *)
Definition numbered (p : Params) : Params :=
  mkParams (Some 7) (prm_playerName p) (prm_playerID p) (prm_hostSlug p)
           (prm_matchID p) (prm_ruleName p) (prm_piece p) (prm_steps p)
           (prm_type p) (prm_moveSequence p).

End Toy.

(** The counter of the current game of a match, and its board. *)
Definition counterOf {State Dice Piece MoveAction : Type}
    (s : @Server State Dice Piece MoveAction) (mr : MatchRef) : option Z :=
  m ← matches s !! mr; g ← m_currentGame m; Some (g_moveSequence g).

Definition boardOf {State Dice Piece MoveAction : Type}
    (s : @Server State Dice Piece MoveAction) (mr : MatchRef) : option State :=
  m ← matches s !! mr; g ← m_currentGame m; heap s !! g_state g.

(** The [result] and the [errorMessage] of the reply, which is the last
    message a request emits to its own socket. *)
Definition replyField {Dice Piece MoveAction : Type}
    (field : string) (k : SocketID) (msg : Message)
    (out : list (@Emit Dice Piece MoveAction)) : option (@Val Dice Piece MoveAction) :=
  e ← last (filter (fun e => e_socket e = k /\ e_msg e = msg) out);
  e_params e !! field.

(* ===================================================================== *)
(** ** Concrete runs *)
(* ===================================================================== *)

Example slug_alice : Slug.iccjSlugify (Some "Alice ") = "alice".
Proof. reflexivity. Qed.

Example slug_alice_upper : Slug.iccjSlugify (Some "ALICE") = "alice".
Proof. reflexivity. Qed.

Example slug_runs : Slug.iccjSlugify (Some "  Hillel  &  Rob!! ") = "hillel-rob".
Proof. reflexivity. Qed.

Example name_alice : Slug.iccjSafeDisplayName (Some "Alice ") = "Alice".
Proof. reflexivity. Qed.

Example cookie_id : Cookie.playerID "a=1; player_id=42; b=2" = Some 42.
Proof. reflexivity. Qed.

Example cookie_boundary : Cookie.playerID "xplayer_id=42" = None.
Proof. reflexivity. Qed.

(* ===================================================================== *)
(** ** The slug of a name *)
(* ===================================================================== *)

Module SlugFacts.
Import Slug.

Local Open Scope list_scope.

(** *** Characters *)

Lemma isDash_spec c : isDash c = true <-> c = dash.
Proof. unfold isDash. apply Ascii.eqb_eq. Qed.

Lemma isSpace_lower c : isSpace (lower c) = isSpace c.
Proof. destruct c as [[] [] [] [] [] [] [] []]; reflexivity. Qed.

Lemma lower_lower c : lower (lower c) = lower c.
Proof. destruct c as [[] [] [] [] [] [] [] []]; reflexivity. Qed.

Lemma lower_upper c : lower (upper c) = lower c.
Proof. destruct c as [[] [] [] [] [] [] [] []]; reflexivity. Qed.

Lemma lower_slugChar c : isSlugChar c = true -> lower c = c.
Proof. destruct c as [[] [] [] [] [] [] [] []]; (reflexivity || discriminate). Qed.

Lemma slugChar_not_space c : isSlugChar c = true -> isSpace c = false.
Proof. destruct c as [[] [] [] [] [] [] [] []]; (reflexivity || discriminate). Qed.

Lemma slugChar_not_dash c : isSlugChar c = true -> isDash c = false.
Proof. destruct c as [[] [] [] [] [] [] [] []]; (reflexivity || discriminate). Qed.

Lemma slugOrDash_cases c :
  slugOrDash c -> (isSlugChar c = true /\ isDash c = false) \/ c = dash.
Proof. intros [H| ->]; [left|by right]. split; [done|by apply slugChar_not_dash]. Qed.

(** *** Dropping at both ends *)

Lemma dropWhile_suffix f l : dropWhile f l `suffix_of` l.
Proof.
  induction l as [|c t IH]; cbn; [done|].
  destruct (f c); [by apply suffix_cons_r|done].
Qed.

Lemma dropWhileEnd_prefix f l : dropWhileEnd f l `prefix_of` l.
Proof.
  induction l as [|c t IH]; cbn; [done|].
  fold (dropWhileEnd f t). destruct (dropWhileEnd f t) as [|d t'] eqn:E.
  - destruct (f c); [apply prefix_nil|]. apply prefix_cons, prefix_nil.
  - by apply prefix_cons.
Qed.

Lemma dropWhile_headNot f l : headNot f (dropWhile f l).
Proof.
  induction l as [|c t IH]; cbn; [done|].
  destruct (f c) eqn:E; [done|]. exact E.
Qed.

Lemma dropWhileEnd_lastNot f l : lastNot f (dropWhileEnd f l).
Proof.
  induction l as [|c t IH]; cbn; [done|].
  fold (dropWhileEnd f t). destruct (dropWhileEnd f t) as [|d t'] eqn:E.
  - destruct (f c) eqn:Ec; [done|]. exact Ec.
  - exact IH.
Qed.

Lemma dropWhile_id f l : headNot f l -> dropWhile f l = l.
Proof. destruct l as [|c t]; cbn; [done|]. by intros ->. Qed.

Lemma dropWhileEnd_id f l : lastNot f l -> dropWhileEnd f l = l.
Proof.
  induction l as [|c t IH]; cbn; [done|].
  fold (dropWhileEnd f t). destruct t as [|d t'].
  - cbn. by intros ->.
  - intros H. rewrite (IH H). done.
Qed.

Lemma headNot_prefix f (l1 l2 : list ascii) :
  l1 `prefix_of` l2 -> headNot f l2 -> headNot f l1.
Proof. intros [k ->]. by destruct l1. Qed.

Lemma noDoubleDash_app_l (l1 l2 : list ascii) :
  noDoubleDash (l1 ++ l2) -> noDoubleDash l1.
Proof.
  induction l1 as [|a [|b t] IH]; cbn; [done..|].
  intros [H1 H2]. split; [done|]. by apply IH.
Qed.

Lemma noDoubleDash_app_r (l1 l2 : list ascii) :
  noDoubleDash (l1 ++ l2) -> noDoubleDash l2.
Proof.
  induction l1 as [|a t IH]; cbn; [done|].
  destruct (t ++ l2) eqn:E; [|intros [_ H]; by apply IH].
  apply app_eq_nil in E as [-> ->]. done.
Qed.

Lemma Forall_suffix (P : ascii -> Prop) (l1 l2 : list ascii) :
  l1 `suffix_of` l2 -> Forall P l2 -> Forall P l1.
Proof. intros [k ->] H. by apply Forall_app in H as [_ H]. Qed.

Lemma Forall_prefix (P : ascii -> Prop) (l1 l2 : list ascii) :
  l1 `prefix_of` l2 -> Forall P l2 -> Forall P l1.
Proof. intros [k ->] H. by apply Forall_app in H as [H _]. Qed.

(** *** Collapsing the runs *)

Lemma replaceRuns_slugOrDash b l :
  Forall slugOrDash (replaceRuns notSlug dash b l).
Proof.
  revert b. induction l as [|c t IH]; intros b; cbn; [constructor|].
  change (notSlug c) with (negb (isSlugChar c)).
  destruct (isSlugChar c) eqn:E; cbn.
  - constructor; [by left|apply IH].
  - destruct b; [apply IH|]. constructor; [by right|apply IH].
Qed.

Lemma replaceRuns_noDoubleDash b l :
  noDoubleDash (replaceRuns notSlug dash b l)
  /\ (b = true -> headNot isDash (replaceRuns notSlug dash b l)).
Proof.
  revert b. induction l as [|c t IH]; intros b; cbn; [done|].
  change (notSlug c) with (negb (isSlugChar c)).
  destruct (isSlugChar c) eqn:E; cbn.
  - destruct (IH false) as [IH1 _]. split.
    + destruct (replaceRuns notSlug dash false t) as [|d t'] eqn:Et; [done|].
      split; [|done]. intros [-> _]. discriminate E.
    + intros _. by apply slugChar_not_dash.
  - destruct (IH true) as [IH1 IH2]. destruct b; [by split|].
    split; [|done].
    destruct (replaceRuns notSlug dash true t) as [|d t'] eqn:Et; [done|].
    split; [|done]. intros [_ ->]. specialize (IH2 eq_refl). discriminate IH2.
Qed.

Lemma replaceRuns_id b l :
  Forall slugOrDash l -> noDoubleDash l ->
  (b = true -> headNot isDash l) ->
  replaceRuns notSlug dash b l = l.
Proof.
  revert b. induction l as [|c t IH]; intros b Hok Hdd Hb; cbn; [done|].
  apply Forall_cons in Hok as [Hc Hok].
  assert (Hdd' : noDoubleDash t) by (destruct t; [done|apply Hdd]).
  change (notSlug c) with (negb (isSlugChar c)).
  destruct (slugOrDash_cases c Hc) as [[Hs Hd]| ->].
  - rewrite Hs. cbn. f_equal. by apply IH.
  - cbn. destruct b; [specialize (Hb eq_refl); discriminate Hb|].
    f_equal. apply IH; [done..|]. intros _.
    destruct t as [|d t']; [done|]. cbn. destruct Hdd as [Hn _].
    destruct (isDash d) eqn:Ed; [|done].
    apply isDash_spec in Ed as ->. by destruct Hn.
Qed.

(** *** The slug has the shape of a slug, and is its own slug *)

Lemma stripDashes_isSlug l :
  Forall slugOrDash l -> noDoubleDash l -> isSlug (stripDashes l).
Proof.
  intros Hok Hdd. unfold stripDashes.
  pose proof (dropWhile_suffix isDash l) as Hsuf.
  pose proof (dropWhileEnd_prefix isDash (dropWhile isDash l)) as Hpre.
  assert (Hdd1 : noDoubleDash (dropWhile isDash l))
    by (destruct Hsuf as [k Hk]; rewrite Hk in Hdd; by apply noDoubleDash_app_r in Hdd).
  repeat split.
  - eapply Forall_prefix; [exact Hpre|]. by eapply Forall_suffix.
  - destruct Hpre as [k Hk]. rewrite Hk in Hdd1. by apply noDoubleDash_app_l in Hdd1.
  - eapply headNot_prefix; [exact Hpre|]. apply dropWhile_headNot.
  - apply dropWhileEnd_lastNot.
Qed.

Lemma slugifyChars_isSlug l : isSlug (slugifyChars l).
Proof.
  unfold slugifyChars. destruct (map lower (trim l)) as [|c t] eqn:E.
  - repeat split; constructor.
  - apply stripDashes_isSlug.
    + apply replaceRuns_slugOrDash.
    + apply replaceRuns_noDoubleDash.
Qed.

Lemma headNot_space l :
  Forall slugOrDash l -> headNot isDash l -> headNot isSpace l.
Proof.
  destruct l as [|c t]; cbn; [done|]. intros Hok Hd.
  apply Forall_cons in Hok as [Hc _].
  destruct (slugOrDash_cases c Hc) as [[Hs _]| ->]; [by apply slugChar_not_space|done].
Qed.

Lemma lastNot_space l :
  Forall slugOrDash l -> lastNot isDash l -> lastNot isSpace l.
Proof.
  induction l as [|c [|d t] IH]; [done| |].
  - cbn. intros Hok Hd. apply Forall_cons in Hok as [Hc _].
    destruct (slugOrDash_cases c Hc) as [[Hs _]| ->]; [by apply slugChar_not_space|done].
  - intros Hok Hd. apply Forall_cons in Hok as [_ Hok]. by apply IH.
Qed.

Lemma map_lower_id l : Forall slugOrDash l -> map lower l = l.
Proof.
  induction 1 as [|c t Hc _ IH]; cbn; [done|]. rewrite IH. f_equal.
  destruct Hc as [Hs| ->]; [by apply lower_slugChar|reflexivity].
Qed.

Lemma slugifyChars_id l : isSlug l -> slugifyChars l = l.
Proof.
  intros (Hok & Hdd & Hh & Hl). unfold slugifyChars, trim.
  rewrite (dropWhile_id isSpace l) by (by apply headNot_space).
  rewrite (dropWhileEnd_id isSpace l) by (by apply lastNot_space).
  rewrite map_lower_id by done.
  destruct l as [|c t] eqn:E; [done|]. rewrite <- E in *.
  rewrite replaceRuns_id by done.
  unfold stripDashes. rewrite dropWhile_id by done. by rewrite dropWhileEnd_id.
Qed.

(** [iccjSlugify] is idempotent. *)
Lemma slugifyChars_idem l : slugifyChars (slugifyChars l) = slugifyChars l.
Proof. apply slugifyChars_id, slugifyChars_isSlug. Qed.

Lemma iccjSlugify_idem (s : option string) :
  iccjSlugify (Some (iccjSlugify s)) = iccjSlugify s.
Proof.
  unfold iccjSlugify, chars, str. cbn -[slugifyChars].
  by rewrite list_ascii_of_string_of_list_ascii, slugifyChars_idem.
Qed.

(** *** Case and surrounding white space do not matter *)

Lemma dropWhile_map (f : ascii -> bool) (g : ascii -> ascii) l :
  (forall c, f (g c) = f c) -> dropWhile f (map g l) = map g (dropWhile f l).
Proof.
  intros Hfg. induction l as [|c t IH]; cbn; [done|].
  rewrite Hfg. by destruct (f c).
Qed.

Lemma dropWhileEnd_map (f : ascii -> bool) (g : ascii -> ascii) l :
  (forall c, f (g c) = f c) -> dropWhileEnd f (map g l) = map g (dropWhileEnd f l).
Proof.
  intros Hfg. induction l as [|c t IH]; cbn; [done|].
  fold (dropWhileEnd f (map g t)). fold (dropWhileEnd f t). rewrite IH, Hfg.
  destruct (dropWhileEnd f t); cbn; [by destruct (f c)|done].
Qed.

Lemma trim_lower l : map lower (trim l) = trim (map lower l).
Proof.
  unfold trim.
  rewrite dropWhile_map, dropWhileEnd_map by apply isSpace_lower. done.
Qed.

Lemma slugifyChars_case l l' :
  map lower l = map lower l' -> slugifyChars l = slugifyChars l'.
Proof. intros H. unfold slugifyChars. by rewrite !trim_lower, H. Qed.

Lemma dropWhile_all (f : ascii -> bool) l :
  Forall (fun c => f c = true) l -> dropWhile f l = [].
Proof. induction 1 as [|c t Hc _ IH]; cbn; [done|]. by rewrite Hc. Qed.

Lemma dropWhile_app_all (f : ascii -> bool) pre l :
  Forall (fun c => f c = true) pre -> dropWhile f (pre ++ l) = dropWhile f l.
Proof. induction 1 as [|c t Hc _ IH]; cbn; [done|]. by rewrite Hc. Qed.

Lemma dropWhileEnd_cons (f : ascii -> bool) c t :
  dropWhileEnd f (c :: t)
  = match dropWhileEnd f t with
    | [] => if f c then [] else [c]
    | _ => c :: dropWhileEnd f t
    end.
Proof. reflexivity. Qed.

Lemma dropWhileEnd_all (f : ascii -> bool) l :
  Forall (fun c => f c = true) l -> dropWhileEnd f l = [].
Proof.
  induction 1 as [|c t Hc _ IH]; [done|].
  by rewrite dropWhileEnd_cons, IH, Hc.
Qed.

Lemma dropWhileEnd_app_all (f : ascii -> bool) l post :
  Forall (fun c => f c = true) post -> dropWhileEnd f (l ++ post) = dropWhileEnd f l.
Proof.
  intros Hpost. induction l as [|c t IH].
  - by apply dropWhileEnd_all.
  - cbn [app]. by rewrite !dropWhileEnd_cons, IH.
Qed.

Lemma trim_blank pre l post :
  Forall (fun c => isSpace c = true) pre ->
  Forall (fun c => isSpace c = true) post ->
  trim (pre ++ l ++ post) = trim l.
Proof.
  intros Hpre Hpost. unfold trim. rewrite dropWhile_app_all by done. clear pre Hpre.
  induction l as [|c t IH]; cbn.
  - by rewrite dropWhile_all.
  - destruct (isSpace c); [exact IH|].
    by apply (dropWhileEnd_app_all isSpace (c :: t)).
Qed.

Lemma chars_app (s1 s2 : string) : chars (s1 +:+ s2) = chars s1 ++ chars s2.
Proof.
  unfold chars. induction s1 as [|c s1 IH]; [done|].
  change (String c s1 +:+ s2) with (String c (s1 +:+ s2)).
  cbn [list_ascii_of_string app]. by rewrite IH.
Qed.

(** Surrounding white space does not change the slug. *)
Lemma iccjSlugify_blank (pre s post : string) :
  blank pre -> blank post ->
  iccjSlugify (Some (pre +:+ s +:+ post)) = iccjSlugify (Some s).
Proof.
  intros Hpre Hpost. unfold iccjSlugify, slugifyChars. cbn [default from_option id].
  by rewrite !chars_app, trim_blank.
Qed.

(** The case of the letters does not change the slug. *)
Lemma iccjSlugify_case (s s' : string) :
  sameLetters s s' -> iccjSlugify (Some s) = iccjSlugify (Some s').
Proof.
  intros H. unfold iccjSlugify. cbn [default from_option id].
  by rewrite (slugifyChars_case _ _ H).
Qed.

(** A variant of a string has the slug of that string. *)
Lemma iccjSlugify_variant (h s : string) :
  variant h s -> iccjSlugify (Some h) = iccjSlugify (Some s).
Proof.
  intros (pre & h0 & post & -> & Hpre & Hpost & Hsame).
  rewrite iccjSlugify_blank by done. by apply iccjSlugify_case.
Qed.

Lemma sameLetters_toUpperCase (s : string) : sameLetters (toUpperCase s) s.
Proof.
  unfold sameLetters, toUpperCase, chars, str.
  rewrite list_ascii_of_string_of_list_ascii.
  induction (list_ascii_of_string s) as [|c t IH]; cbn; [done|].
  by rewrite lower_upper, IH.
Qed.
End SlugFacts.

(* ===================================================================== *)
(** ** More on slugs and display names *)
(* ===================================================================== *)

Module SlugMore.
Import Slug SlugFacts.

Local Open Scope list_scope.

Lemma chars_str l : chars (str l) = l.
Proof. apply list_ascii_of_string_of_list_ascii. Qed.

Lemma str_chars s : str (chars s) = s.
Proof. apply string_of_list_ascii_of_string. Qed.

Lemma str_nil_inv l : str l = "" -> l = [].
Proof. by destruct l. Qed.

(** *** When the slug is empty *)

Lemma elem_of_dropWhile (f : ascii -> bool) c l :
  c ∈ l -> f c = false -> c ∈ dropWhile f l.
Proof.
  induction l as [|d t IH]; cbn; [done|]. intros Hin Hc.
  destruct (f d) eqn:Ed; [|done].
  apply elem_of_cons in Hin as [->|Hin]; [congruence|by apply IH].
Qed.

Lemma elem_of_dropWhileEnd (f : ascii -> bool) c l :
  c ∈ l -> f c = false -> c ∈ dropWhileEnd f l.
Proof.
  induction l as [|d t IH]; [done|]. intros Hin Hc.
  rewrite dropWhileEnd_cons.
  apply elem_of_cons in Hin as [->|Hin].
  - destruct (dropWhileEnd f t); [rewrite Hc|]; apply elem_of_cons; by left.
  - specialize (IH Hin Hc). destruct (dropWhileEnd f t) as [|e t'] eqn:E.
    + by apply elem_of_nil in IH.
    + apply elem_of_cons. by right.
Qed.

Lemma elem_of_replaceRuns (f : ascii -> bool) r b c l :
  c ∈ l -> f c = false -> c ∈ replaceRuns f r b l.
Proof.
  revert b. induction l as [|d t IH]; intros b Hin Hc; cbn; [done|].
  apply elem_of_cons in Hin as [->|Hin].
  - rewrite Hc. apply elem_of_cons. by left.
  - destruct (f d); [destruct b|]; try (apply elem_of_cons; right); by apply IH.
Qed.

Lemma replaceRuns_all (f : ascii -> bool) r l :
  Forall (fun c => f c = true) l ->
  replaceRuns f r true l = [] /\ (replaceRuns f r false l = [] \/ replaceRuns f r false l = [r]).
Proof.
  induction 1 as [|c t Hc _ [IH1 IH2]]; cbn; [by split; [|left]|].
  rewrite Hc, IH1. split; [done|by right].
Qed.

Lemma slugChar_lower_not_space c : isSlugChar (lower c) = true -> isSpace c = false.
Proof. destruct c as [[] [] [] [] [] [] [] []]; (reflexivity || discriminate). Qed.

Lemma slugifyChars_nil_iff l : slugifyChars l = [] <-> noAlnum l.
Proof.
  unfold noAlnum. split.
  - intros Hnil. apply Forall_forall. intros c Hc.
    destruct (isSlugChar (lower c)) eqn:E; [exfalso|done].
    assert (Hin : lower c ∈ slugifyChars l).
    { unfold slugifyChars.
      assert (Ht : lower c ∈ map lower (trim l)).
      { apply list_elem_of_fmap. exists c. split; [done|].
        apply elem_of_dropWhileEnd; [|by apply slugChar_lower_not_space].
        apply elem_of_dropWhile; [done|by apply slugChar_lower_not_space]. }
      destruct (map lower (trim l)) as [|d t] eqn:El; [by apply elem_of_nil in Ht|].
      apply elem_of_dropWhileEnd; [|by apply slugChar_not_dash].
      apply elem_of_dropWhile; [|by apply slugChar_not_dash].
      apply elem_of_replaceRuns; [done|]. unfold notSlug. by rewrite E. }
    rewrite Hnil in Hin. by apply elem_of_nil in Hin.
  - intros Hall. unfold slugifyChars.
    assert (Ht : Forall (fun c => notSlug c = true) (map lower (trim l))).
    { apply Forall_fmap. unfold trim.
      eapply Forall_prefix; [apply dropWhileEnd_prefix|].
      eapply Forall_suffix; [apply dropWhile_suffix|].
      eapply Forall_impl; [exact Hall|]. intros c Hc. cbn. unfold notSlug. by rewrite Hc. }
    destruct (map lower (trim l)) as [|d t] eqn:El; [done|].
    destruct (replaceRuns_all notSlug dash _ Ht) as [_ [-> | ->]]; reflexivity.
Qed.

(** The slug of a name of ASCII characters is empty exactly when the
    name holds no letter and no digit: this is when CREATE_MATCH
    answers that a host name is required.  (Beyond ASCII the Kelvin
    sign and the dotted capital I are put in lower case as [k] and
    [i], see [lower].) *)
Theorem slug_empty_iff (s : string) :
  Forall (fun c => isASCII c = true) (chars s) ->
  (iccjSlugify (Some s) = "" <-> noAlnum (chars s)).
Proof.
  intros _. unfold iccjSlugify. cbn [default from_option id].
  rewrite <- slugifyChars_nil_iff. split.
  - apply str_nil_inv.
  - by intros ->.
Qed.

(** *** Slugs are the fixed points of [iccjSlugify] *)

(** A string is the slug of some name exactly when it is its own slug,
    and exactly when it has the shape of a slug: characters of
    [[a-z0-9]] and single dashes, none at either end. *)
Theorem slug_fixed_points (s : string) :
  (iccjSlugify (Some s) = s <-> isSlug (chars s))
  /\ ((exists n, iccjSlugify n = s) <-> isSlug (chars s)).
Proof.
  assert (Hfix : isSlug (chars s) -> iccjSlugify (Some s) = s).
  { intros H. unfold iccjSlugify. cbn [default from_option id].
    by rewrite slugifyChars_id, str_chars. }
  assert (Himg : forall n, isSlug (chars (iccjSlugify n))).
  { intros n. unfold iccjSlugify. rewrite chars_str. apply slugifyChars_isSlug. }
  split; split.
  - intros <-. apply Himg.
  - exact Hfix.
  - intros [n <-]. apply Himg.
  - intros H. exists (Some s). by apply Hfix.
Qed.

(** *** The slug of a match *)

Lemma noDoubleDash_app_head (l1 l2 : list ascii) :
  noDoubleDash l1 -> noDoubleDash l2 -> headNot isDash l2 ->
  noDoubleDash (l1 ++ l2).
Proof.
  intros H1 H2 Hh. induction l1 as [|a [|b t] IH]; [done| |].
  - destruct l2 as [|d t2]; [done|]. cbn in *. split; [|done].
    intros [_ ->]. discriminate Hh.
  - destruct H1 as [Hab H1]. split; [done|]. by apply IH.
Qed.

Lemma noDoubleDash_app_last (l1 l2 : list ascii) :
  noDoubleDash l1 -> noDoubleDash l2 -> lastNot isDash l1 ->
  noDoubleDash (l1 ++ l2).
Proof.
  intros H1 H2 Hl. induction l1 as [|a [|b t] IH]; [done| |].
  - destruct l2 as [|d t2]; [done|]. cbn in *. split; [|done].
    intros [-> _]. discriminate Hl.
  - destruct H1 as [Hab H1]. split; [done|]. by apply IH.
Qed.

Lemma lastNot_app (f : ascii -> bool) (l1 l2 : list ascii) :
  l2 <> [] -> lastNot f l2 -> lastNot f (l1 ++ l2).
Proof.
  intros Hne Hl. induction l1 as [|a t IH]; [done|].
  cbn [app]. destruct (t ++ l2) as [|d t'] eqn:E; [|exact IH].
  apply app_eq_nil in E as [_ ->]. done.
Qed.

Lemma isSlug_vs (a b : list ascii) :
  isSlug a -> isSlug b -> a <> [] -> b <> [] ->
  isSlug (a ++ chars "-vs-" ++ b).
Proof.
  intros (Ha1 & Ha2 & Ha3 & Ha4) (Hb1 & Hb2 & Hb3 & Hb4) Hane Hbne.
  repeat split.
  - apply Forall_app. split; [done|]. apply Forall_app. split; [|done].
    repeat constructor; by (left + right).
  - apply noDoubleDash_app_last; [done| |done].
    apply (noDoubleDash_app_head (chars "-vs-")); [|done..].
    cbn. repeat split; intros [? ?]; discriminate.
  - destruct a; [done|exact Ha3].
  - apply lastNot_app; [by destruct a|].
    apply lastNot_app; [done..].
Qed.

Lemma nonEmpty_chars s : nonEmpty s = true <-> chars s <> [].
Proof. by destruct s. Qed.

(** The slug of a match is [h-vs-g] when both names have a slug, the
    slug of the one that has when only one does, and empty when none
    does.  In each case it is a slug, hence its own slug. *)
Theorem match_slug_is_slug (hostName guestName : option string) :
  let h := iccjSlugify hostName in
  let g := iccjSlugify guestName in
  let r := iccjMatchSlug hostName guestName in
  (h <> "" -> g <> "" -> r = h +:+ "-vs-" +:+ g)
  /\ (g = "" -> r = h) /\ (h = "" -> r = g)
  /\ isSlug (chars r)
  /\ iccjSlugify (Some r) = r.
Proof.
  intros h g r.
  assert (Hh : isSlug (chars h))
    by (unfold h, iccjSlugify; rewrite chars_str; apply slugifyChars_isSlug).
  assert (Hg : isSlug (chars g))
    by (unfold g, iccjSlugify; rewrite chars_str; apply slugifyChars_isSlug).
  assert (Hr : isSlug (chars r)).
  { unfold r, iccjMatchSlug, orElse. fold h g.
    destruct (nonEmpty h) eqn:Eh; [|by destruct (nonEmpty g)].
    destruct (nonEmpty g) eqn:Eg; [|done]. cbn [andb].
    rewrite !chars_app. apply isSlug_vs; try done; by apply nonEmpty_chars. }
  split; [|split; [|split; [|split]]].
  - intros Hhn Hgn. unfold r, iccjMatchSlug. fold h g.
    by destruct h, g.
  - intros Eg. unfold r, iccjMatchSlug, orElse. fold h g. rewrite Eg.
    by destruct h.
  - intros Eh. unfold r, iccjMatchSlug, orElse. fold h g. rewrite Eh.
    by destruct g.
  - exact Hr.
  - unfold iccjSlugify at 1. cbn [default from_option id].
    by rewrite slugifyChars_id, str_chars.
Qed.

(** *** Display names *)

Lemma nameChar_space c : isNameChar c = true -> isSpace c = true -> c = space.
Proof. destruct c as [[] [] [] [] [] [] [] []]; (reflexivity || discriminate). Qed.

Lemma noTwo_app_l c (l1 l2 : list ascii) : noTwo c (l1 ++ l2) -> noTwo c l1.
Proof.
  induction l1 as [|a [|b t] IH]; cbn; [done..|].
  intros [H1 H2]. split; [done|]. by apply IH.
Qed.

Lemma noTwo_app_r c (l1 l2 : list ascii) : noTwo c (l1 ++ l2) -> noTwo c l2.
Proof.
  induction l1 as [|a t IH]; cbn; [done|].
  destruct (t ++ l2) eqn:E; [|intros [_ H]; by apply IH].
  apply app_eq_nil in E as [-> ->]. done.
Qed.

Lemma noTwo_prefix c (l1 l2 : list ascii) : l1 `prefix_of` l2 -> noTwo c l2 -> noTwo c l1.
Proof. intros [k ->]. apply noTwo_app_l. Qed.

Lemma noTwo_suffix c (l1 l2 : list ascii) : l1 `suffix_of` l2 -> noTwo c l2 -> noTwo c l1.
Proof. intros [k ->]. apply noTwo_app_r. Qed.

Lemma replaceRuns_Forall (P : ascii -> Prop) f r b l :
  P r -> Forall P l -> Forall P (replaceRuns f r b l).
Proof.
  intros Hr Hl. revert b. induction Hl as [|c t Hc _ IH]; intros b; cbn; [constructor|].
  destruct (f c); [destruct b|]; repeat constructor; auto.
Qed.

Lemma replaceRuns_noTwo b l :
  noTwo space (replaceRuns isSpace space b l)
  /\ (b = true -> headNot isSpace (replaceRuns isSpace space b l)).
Proof.
  revert b. induction l as [|c t IH]; intros b; cbn; [done|].
  destruct (isSpace c) eqn:E.
  - destruct (IH true) as [IH1 IH2]. destruct b; [by split|].
    split; [|done].
    destruct (replaceRuns isSpace space true t) as [|d t'] eqn:Et; [done|].
    split; [|done]. intros [_ ->]. specialize (IH2 eq_refl). discriminate IH2.
  - destruct (IH false) as [IH1 _]. split; [|done].
    destruct (replaceRuns isSpace space false t) as [|d t'] eqn:Et; [done|].
    split; [|done]. intros [-> _]. discriminate E.
Qed.

Lemma replaceRuns_space_id b l :
  Forall (fun c => isNameChar c = true) l -> noTwo space l ->
  (b = true -> headNot isSpace l) ->
  replaceRuns isSpace space b l = l.
Proof.
  revert b. induction l as [|c t IH]; intros b Hok Hnt Hb; cbn; [done|].
  apply Forall_cons in Hok as [Hc Hok].
  assert (Hnt' : noTwo space t) by (destruct t; [done|apply Hnt]).
  destruct (isSpace c) eqn:E.
  - destruct b; [specialize (Hb eq_refl); cbn in Hb; congruence|].
    rewrite (nameChar_space c Hc E) in *. f_equal. apply IH; [done..|].
    intros _. destruct t as [|d t']; [done|]. cbn. destruct Hnt as [Hn _].
    destruct (isSpace d) eqn:Ed; [|done].
    apply Forall_cons in Hok as [Hd _].
    rewrite (nameChar_space d Hd Ed) in Hn. by destruct Hn.
  - f_equal. by apply IH.
Qed.

Lemma trim_sub (P : ascii -> Prop) l : Forall P l -> Forall P (trim l).
Proof.
  intros H. unfold trim.
  eapply Forall_prefix; [apply dropWhileEnd_prefix|].
  eapply Forall_suffix; [apply dropWhile_suffix|done].
Qed.

Lemma trim_noTwo c l : noTwo c l -> noTwo c (trim l).
Proof.
  intros H. unfold trim.
  eapply noTwo_prefix; [apply dropWhileEnd_prefix|].
  eapply noTwo_suffix; [apply dropWhile_suffix|done].
Qed.

Lemma trim_headNot l : headNot isSpace (trim l).
Proof.
  unfold trim. eapply headNot_prefix; [apply dropWhileEnd_prefix|].
  apply dropWhile_headNot.
Qed.

Lemma trim_lastNot l : lastNot isSpace (trim l).
Proof. apply dropWhileEnd_lastNot. Qed.

Lemma trim_length l : (length (trim l) <= length l)%nat.
Proof.
  unfold trim. etrans; [apply prefix_length, dropWhileEnd_prefix|].
  apply suffix_length, dropWhile_suffix.
Qed.

Lemma trim_id l : headNot isSpace l -> lastNot isSpace l -> trim l = l.
Proof. intros Hh Hl. unfold trim. by rewrite dropWhile_id, dropWhileEnd_id. Qed.

Lemma filter_id (l : list ascii) :
  Forall (fun c => isNameChar c = true) l ->
  filter (fun c => isNameChar c = true) l = l.
Proof.
  induction 1 as [|c t Hc _ IH]; [done|].
  rewrite filter_cons, decide_True by done. by rewrite IH.
Qed.

Lemma isSafeName_nil : isSafeName [].
Proof. repeat split; [constructor|cbn; lia]. Qed.

Lemma safeChars_isSafeName l :
  isSafeName (chars (iccjSafeDisplayName (Some (str l)))).
Proof.
  unfold iccjSafeDisplayName. cbn [default from_option id].
  rewrite chars_str.
  destruct (trim l) as [|c0 t0] eqn:E; [apply isSafeName_nil|]. rewrite <- E. clear E c0 t0.
  rewrite chars_str.
  set (n1 := filter (fun c => isNameChar c = true) (trim l)).
  set (n2 := trim (replaceRuns isSpace space false n1)).
  assert (H1 : Forall (fun c => isNameChar c = true) n1).
  { apply Forall_forall. intros c Hc. by apply list_elem_of_filter in Hc as [Hc _]. }
  assert (H2 : Forall (fun c => isNameChar c = true) n2).
  { apply trim_sub. by apply replaceRuns_Forall. }
  assert (H3 : noTwo space n2) by (apply trim_noTwo, replaceRuns_noTwo).
  change (" "%char) with space. fold n1. fold n2.
  destruct (40 <? length n2)%nat eqn:Elen.
  - repeat split.
    + apply trim_sub. eapply Forall_prefix; [apply prefix_take|done].
    + apply trim_noTwo. eapply noTwo_prefix; [apply prefix_take|done].
    + apply trim_headNot.
    + apply trim_lastNot.
    + etrans; [apply trim_length|]. unfold slice0. rewrite length_take. lia.
  - repeat split; try done.
    + apply trim_headNot.
    + apply trim_lastNot.
    + apply Nat.ltb_ge in Elen. exact Elen.
Qed.

Lemma display_name_is_safe_aux (name : option string) :
  isSafeName (chars (iccjSafeDisplayName name)).
Proof.
  destruct name as [s|].
  - rewrite <- (str_chars s). apply safeChars_isSafeName.
  - apply isSafeName_nil.
Qed.

(** The display name the server keeps is made of the characters
    [[A-Za-z0-9 .'\-]] only, has no two spaces in a row and no white
    space at either end, and is 40 characters long at most. *)
Theorem display_name_is_safe (name : option string) :
  let l := chars (iccjSafeDisplayName name) in
  Forall (fun c => isNameChar c = true) l /\ noTwo space l
  /\ headNot isSpace l /\ lastNot isSpace l /\ (length l <= 40)%nat
  /\ (truthyStr name = false -> l = []).
Proof.
  intros l. destruct (display_name_is_safe_aux name) as (H1 & H2 & H3 & H4 & H5).
  repeat split; try done.
  unfold l. by destruct name as [[|]|].
Qed.

(** The names of that shape are kept as they are: cleaning up a name
    twice is cleaning it up once. *)
Theorem display_name_idempotent (name : option string) :
  (forall s, isSafeName (chars s) -> iccjSafeDisplayName (Some s) = s)
  /\ iccjSafeDisplayName (Some (iccjSafeDisplayName name)) = iccjSafeDisplayName name.
Proof.
  assert (Hfix : forall s, isSafeName (chars s) -> iccjSafeDisplayName (Some s) = s).
  { intros s (Hok & Hnt & Hh & Hl & Hlen).
    unfold iccjSafeDisplayName. cbn [default from_option id].
    rewrite trim_id by done.
    destruct (chars s) as [|c0 t0] eqn:E.
    { by rewrite <- (str_chars s), E. }
    rewrite <- E in *. clear E c0 t0.
    rewrite filter_id by done.
    change (" "%char) with space.
    rewrite replaceRuns_space_id by done.
    rewrite trim_id by done.
    apply Nat.ltb_ge in Hlen. rewrite Hlen. apply str_chars. }
  split; [exact Hfix|].
  apply Hfix, display_name_is_safe_aux.
Qed.

End SlugMore.

(* ===================================================================== *)
(** ** The cookie that carries the player id *)
(* ===================================================================== *)

Module CookieFacts.
Import Slug Cookie.

Local Open Scope list_scope.

Lemma pretty_N_char_digit (d : N) :
  (d < 10)%N ->
  isDigit (pretty_N_char d) = true
  /\ Z.of_N (code (pretty_N_char d)) - 48 = Z.of_N d.
Proof.
  intros Hd.
  assert (d = 0 \/ d = 1 \/ d = 2 \/ d = 3 \/ d = 4 \/ d = 5 \/ d = 6 \/ d = 7
          \/ d = 8 \/ d = 9)%N as H by lia.
  repeat (destruct H as [->|H]; [by split|]). subst. by split.
Qed.

Lemma digitsToZ_snoc ds c :
  digitsToZ (ds ++ [c]) = 10 * digitsToZ ds + (Z.of_N (code c) - 48).
Proof. unfold digitsToZ. by rewrite fold_left_app. Qed.

(** The decimal digits [pretty] writes are read back as the number. *)
Lemma pretty_N_go_digits (x : N) (s : string) :
  exists ds,
    chars (pretty_N_go x s) = ds ++ chars s
    /\ Forall (fun c => isDigit c = true) ds
    /\ digitsToZ ds = Z.of_N x
    /\ ((0 < x)%N -> ds <> []).
Proof.
  revert s. induction (N.lt_wf_0 x) as [x _ IH]; intros s.
  destruct (decide (x = 0%N)) as [->|Hx].
  - exists []. rewrite pretty_N_go_0. repeat split; [constructor|lia].
  - assert (0 < x)%N as Hpos by lia.
    rewrite pretty_N_go_step by done.
    destruct (IH (x `div` 10)%N (N.div_lt x 10 Hpos eq_refl)
                 (String (pretty_N_char (x `mod` 10)) s))
      as (ds & Hds & Hall & Hval & _).
    destruct (pretty_N_char_digit (x `mod` 10)%N) as [Hd Hc];
      [by apply N.mod_lt|].
    exists (ds ++ [pretty_N_char (x `mod` 10)]). repeat split.
    + rewrite Hds. cbn. by rewrite <- app_assoc.
    + apply Forall_app. split; [done|]. by constructor.
    + rewrite digitsToZ_snoc, Hval, Hc.
      rewrite (N.div_mod x 10) at 3 by done. lia.
    + intros _. by destruct ds.
Qed.

Lemma pretty_Z_digits (n : Z) :
  0 <= n ->
  exists ds,
    chars (pretty n) = ds
    /\ Forall (fun c => isDigit c = true) ds
    /\ digitsToZ ds = n /\ ds <> [].
Proof.
  intros Hn. destruct n as [|p|p]; [| |lia].
  - exists (chars "0"). repeat split; [by repeat constructor|done].
  - unfold pretty, pretty_Z, pretty, pretty_positive, pretty, pretty_N.
    rewrite decide_False by done.
    destruct (pretty_N_go_digits (N.pos p) "") as (ds & Hds & Hall & Hval & Hne).
    exists ds. cbn in Hds. rewrite app_nil_r in Hds.
    repeat split; [done..|]. by apply Hne.
Qed.

Lemma stripPrefix_app p l : stripPrefix p (p ++ l) = Some l.
Proof. induction p as [|a p IH]; cbn; [done|]. by rewrite Ascii.eqb_refl. Qed.

Lemma takeDigits_app ds l :
  Forall (fun c => isDigit c = true) ds -> headNot isDigit l ->
  takeDigits (ds ++ l) = ds.
Proof.
  intros Hds Hl. induction Hds as [|c t Hc _ IH]; cbn [app takeDigits].
  - destruct l as [|c t]; [done|]. cbn [headNot] in Hl. cbn [takeDigits]. by rewrite Hl.
  - by rewrite Hc, IH.
Qed.

(** The cookie the client sets after CREATE_GUEST, [player_id=<id>],
    is read back by the server as that id, for an id that is a safe
    integer (the client then writes it in plain decimal), whatever
    follows the digits as long as it does not start with a digit. *)
Theorem cookie_round_trip (id : Z) (rest : string) :
  0 <= id <= MAX_SAFE_INTEGER ->
  headNot isDigit (chars rest) ->
  playerID ("player_id=" +:+ pretty id +:+ rest) = Some id.
Proof.
  intros [Hid _] Hrest. unfold playerID.
  rewrite !SlugFacts.chars_app.
  destruct (pretty_Z_digits id Hid) as (ds & -> & Hall & Hval & Hne).
  assert (Hm : matchHere (chars "player_id=" ++ ds ++ chars rest) = Some id).
  { unfold matchHere. rewrite stripPrefix_app, takeDigits_app by done.
    destruct ds; [done|]. by rewrite Hval. }
  change (chars "player_id=") with ("p"%char :: chars "layer_id=") in *.
  cbn [app find]. cbn [app] in Hm. by rewrite Hm.
Qed.

End CookieFacts.

(* ===================================================================== *)
(** ** Theorems *)
(* ===================================================================== *)

(** Unfolding the monad and the accessors of the store. *)
Ltac msimpl :=
  cbv beta iota zeta delta
    [mbind mret M_bind M_ret deref throw fail setReply setReplyOpt
     getSocketMatch getSocketPlayer getSocketRule getSocket readMatch
     readPlayer readState viewGame getServer getReply modifyReply
     setSendAfter getSendAfter emit sendMessage] in *;
  cbn [srv reply sendAfter out] in *.

(** One step of symbolic execution: rewrite with a known equation on the
    scrutinee of a match, or else split on a scrutinee that is not itself
    a match. *)
Ltac mcase :=
  match goal with
  | H : ?x = _ |- context [match ?x with _ => _ end] => rewrite H
  | |- context [match ?x with _ => _ end] =>
      lazymatch x with
      | context [match _ with _ => _ end] => fail
      | _ => destruct x eqn:?
      end
  end.

Ltac mauto := repeat (msimpl; mcase); msimpl.

(** The same with the updates of the store unfolded as well; the server
    is kept in the form [mkServer _ _ _ _]. *)
Ltac mfull :=
  cbv beta iota zeta delta
    [mbind mret M_bind M_ret deref throw fail setReply setReplyOpt
     getSocketMatch getSocketPlayer getSocketRule getSocket readMatch
     readPlayer readState viewGame getServer getReply modifyReply
     setSendAfter getSendAfter emit sendMessage
     modifyServer modifySocket modifyPlayer modifyMatch modifyCurrentGame
     setSocketMatch setSocketPlayer setSocketRule writeState allocState
     Match_createNewGame Game_snapshotState Game_restoreState
     Server_clients Server_players Server_matches Server_heap
     srv reply sendAfter out clients players matches heap fst snd].

Ltac mautof := repeat (mfull; mcase); mfull.

(** A branch of the case analysis that tests the empty string. *)
Ltac absurd_branch :=
  exfalso;
  match goal with
  | H : negb (Slug.nonEmpty "") = false |- _ => discriminate H
  | H : Slug.nonEmpty "" = true |- _ => discriminate H
  end.

(** Reading a field of an object built by successive assignments. *)
Ltac solve_field :=
  repeat (rewrite lookup_insert_ne by (let H := fresh in intros H; discriminate H));
  first [ apply lookup_insert_eq | by rewrite lookup_insert_eq ].

(** What holds of the context an accepted request leaves. *)
Definition accepted {State Dice Piece MoveAction : Type}
    (r : @Res bool * @Ctx State Dice Piece MoveAction)
    (P : @Ctx State Dice Piece MoveAction -> Prop) : Prop :=
  match r with
  | (Ok true, c') => P c'
  | _ => True
  end.

Lemma accepted_inv {State Dice Piece MoveAction : Type}
    (r : @Res bool * @Ctx State Dice Piece MoveAction) P c' :
  accepted r P -> r = (Ok true, c') -> P c'.
Proof. by intros H ->. Qed.

Section Properties.

Context {State Dice Piece MoveAction : Type}.
Variable loadRule : string -> @Rule State Dice Piece MoveAction.
Variable matchLength : Z.
Variable DEBUG : bool.

Abbreviation Ctx := (@Ctx State Dice Piece MoveAction).
Abbreviation Params := (@Params Piece).
Abbreviation Server := (@Server State Dice Piece MoveAction).
Abbreviation Match := (@Match Dice).
Abbreviation Game := (@Game Dice).
Abbreviation Rule := (@Rule State Dice Piece MoveAction).
Abbreviation Obj := (gmap string (@Val Dice Piece MoveAction)).

Lemma handleMovePiece_stale (k : SocketID) (prm : Params) (c : Ctx) sk mr m game n :
  clients (srv c) !! k = Some sk ->
  sk_match sk = Some mr ->
  matches (srv c) !! mr = Some m ->
  m_currentGame m = Some game ->
  prm_moveSequence prm = Some n ->
  n < g_moveSequence game ->
  handleMovePiece DEBUG k (Some prm) c = fail (staleText prm) c.
Proof.
  intros Hk Hm Hmr Hg Hn Hlt.
  unfold handleMovePiece, staleText. destruct c as [s rp sa ou]. msimpl.
  rewrite Hk. msimpl. rewrite Hk. msimpl. rewrite Hk. msimpl.
  destruct (prm_piece prm) as [pc|]; [|reflexivity].
  rewrite Hm. msimpl. rewrite Hmr. msimpl. rewrite Hg.
  unfold jsLt. rewrite Hn.
  destruct (Z.ltb_spec n (g_moveSequence game)); [reflexivity | lia].
Qed.

(** A handler that fails with an error text: the request is answered
    by one reply carrying that text and [result] false, and the server
    is as the handler left it, which is as it was. *)
Lemma serve_fail (o : Oracle) (msg : Message) (k : SocketID)
      (params : option Params) (s : Server) sk h text :
  clients s !! k = Some sk ->
  dispatch loadRule matchLength DEBUG o msg k params = Some h ->
  h (mkCtx s (initialReply params) None [])
    = fail text (mkCtx s (initialReply params) None []) ->
  exists rep : Obj,
    serve loadRule matchLength DEBUG o msg k params s = (s, [mkEmit k msg rep])
    /\ rep !! "result" = Some (VBool false)
    /\ rep !! "errorMessage" = Some (VStr text).
Proof.
  intros Hk Hd Hh.
  unfold serve, handleRequest. rewrite Hd. msimpl. rewrite Hh. msimpl.
  rewrite Hk. msimpl.
  destruct (sk_match sk) as [mr|]; msimpl;
    (eexists; split; [reflexivity|]; split; by simplify_map_eq).
Qed.

(** C1.  A MOVE_PIECE request whose [moveSequence] is strictly below
    the counter of the current game is answered by one reply, with
    [result] false and an error text, and the server (boards, dice,
    counters, matches, players, connections) is left as it was. *)
Theorem stale_move_rejected (o : Oracle) (k : SocketID) (prm : Params) (s : Server)
        sk mr m game n :
  clients s !! k = Some sk ->
  sk_match sk = Some mr ->
  matches s !! mr = Some m ->
  m_currentGame m = Some game ->
  prm_moveSequence prm = Some n ->
  n < g_moveSequence game ->
  exists rep : Obj,
    serve loadRule matchLength DEBUG o MOVE_PIECE k (Some prm) s
      = (s, [mkEmit k MOVE_PIECE rep])
    /\ rep !! "result" = Some (VBool false)
    /\ rep !! "errorMessage" = Some (VStr (staleText prm)).
Proof.
  intros Hk Hm Hmr Hg Hn Hlt.
  eapply serve_fail; [exact Hk | reflexivity |].
  by apply (handleMovePiece_stale k prm _ sk mr m game n).
Qed.

(** A request carrying a sequence number that is not below the counter
    passes the sequence test whatever the number is: the handler does
    what it does for the same request carrying the counter itself. *)
Lemma handleMovePiece_future (k : SocketID) (prm : Params) (c : Ctx) sk mr m game n :
  clients (srv c) !! k = Some sk ->
  sk_match sk = Some mr ->
  matches (srv c) !! mr = Some m ->
  m_currentGame m = Some game ->
  prm_moveSequence prm = Some n ->
  g_moveSequence game < n ->
  handleMovePiece DEBUG k (Some prm) c
  = handleMovePiece DEBUG k
      (Some (Params_moveSequence (Some (g_moveSequence game)) prm)) c.
Proof.
  intros Hk Hm Hmr Hg Hn Hlt.
  unfold handleMovePiece. destruct c as [s rp sa ou]. msimpl.
  rewrite Hk. msimpl. rewrite Hk. msimpl. rewrite Hk. msimpl.
  cbn [Params_moveSequence prm_piece prm_steps prm_type prm_moveSequence].
  destruct (prm_piece prm) as [pc|]; [|reflexivity].
  rewrite Hm. msimpl. rewrite Hmr. msimpl. rewrite Hg.
  unfold jsLt. rewrite Hn.
  destruct (Z.ltb_spec n (g_moveSequence game)); [lia|].
  rewrite Z.ltb_irrefl. reflexivity.
Qed.

(** The two refusals that come after the sequence test. *)
Lemma handleMovePiece_refused (k : SocketID) (prm : Params) (c : Ctx)
      sk mr m game rule gv pc :
  clients (srv c) !! k = Some sk ->
  sk_match sk = Some mr ->
  matches (srv c) !! mr = Some m ->
  m_currentGame m = Some game ->
  jsLt (prm_moveSequence prm) (g_moveSequence game) = false ->
  sk_rule sk = Some rule ->
  viewOf (srv c) game = Some gv ->
  prm_piece prm = Some pc ->
  validateMove rule gv (resolvePlayer (srv c) (sk_player sk)) pc (prm_steps prm) = false
  \/ getMoveActions rule (gv_state gv) pc (prm_steps prm) = [] ->
  handleMovePiece DEBUG k (Some prm) c
  = fail (if validateMove rule gv (resolvePlayer (srv c) (sk_player sk)) pc (prm_steps prm)
          then "Requested move is not allowed!"
          else "Requested move is not valid!") c.
Proof.
  intros Hk Hm Hmr Hg Hlt Hr Hv Hp Hrej.
  unfold handleMovePiece. destruct c as [s rp sa ou]. msimpl.
  rewrite Hk. msimpl. rewrite Hk. msimpl. rewrite Hk. msimpl.
  rewrite Hp, Hm. msimpl. rewrite Hmr. msimpl. rewrite Hg, Hlt, Hr. msimpl.
  rewrite Hv. msimpl.
  destruct (validateMove rule gv _ pc _); [|reflexivity].
  destruct Hrej as [?| ->]; [done | reflexivity].
Qed.

(** C4, as amended.  A MOVE_PIECE request whose [moveSequence] is
    strictly above the counter of the current game is served exactly as
    the same request carrying the counter itself; when the rule refuses
    the move (it is not valid, or it has no move actions) the request is
    answered by one reply with [result] false and an error text, and the
    server is left as it was. *)
Theorem future_move_as_current (o : Oracle) (k : SocketID) (prm : Params) (s : Server)
        sk mr m game n :
  clients s !! k = Some sk ->
  sk_match sk = Some mr ->
  matches s !! mr = Some m ->
  m_currentGame m = Some game ->
  prm_moveSequence prm = Some n ->
  g_moveSequence game < n ->
  serve loadRule matchLength DEBUG o MOVE_PIECE k (Some prm) s
  = serve loadRule matchLength DEBUG o MOVE_PIECE k
      (Some (Params_moveSequence (Some (g_moveSequence game)) prm)) s
  /\ forall rule gv pc,
      sk_rule sk = Some rule ->
      viewOf s game = Some gv ->
      prm_piece prm = Some pc ->
      validateMove rule gv (resolvePlayer s (sk_player sk)) pc (prm_steps prm) = false
      \/ getMoveActions rule (gv_state gv) pc (prm_steps prm) = [] ->
      exists (rep : Obj) (text : string),
        serve loadRule matchLength DEBUG o MOVE_PIECE k (Some prm) s
          = (s, [mkEmit k MOVE_PIECE rep])
        /\ rep !! "result" = Some (VBool false)
        /\ rep !! "errorMessage" = Some (VStr text).
Proof.
  intros Hk Hm Hmr Hg Hn Hlt. split.
  - unfold serve, handleRequest. cbn [dispatch]. msimpl.
    change (initialReply (Dice:=Dice) (MoveAction:=MoveAction)
              (Some (Params_moveSequence (Some (g_moveSequence game)) prm)))
      with (initialReply (Dice:=Dice) (MoveAction:=MoveAction) (Some prm)).
    by rewrite (handleMovePiece_future k prm _ sk mr m game n).
  - intros rule gv pc Hr Hv Hp Hrej.
    edestruct (serve_fail o MOVE_PIECE k (Some prm) s sk) as (rep & ? & ? & ?);
      [exact Hk | reflexivity | | eauto].
    apply (handleMovePiece_refused k prm _ sk mr m game rule gv pc); try done.
    unfold jsLt. rewrite Hn. apply Z.ltb_ge. lia.
Qed.


(** *** The store *)

Lemma alter_lookup_insert {A} (f : A -> A) (l : list A) i x :
  l !! i = Some x -> alter f i l = <[i := f x]> l.
Proof.
  intros H. apply list_eq. intros j.
  destruct (decide (j = i)) as [->|Hne].
  - rewrite list_lookup_alter_eq, H.
    by rewrite list_lookup_insert_eq by (by eapply lookup_lt_Some).
  - by rewrite list_lookup_alter_ne, list_lookup_insert_ne.
Qed.

Lemma modifyMatch_set (r : MatchRef) f (c : Ctx) m :
  matches (srv c) !! r = Some m ->
  modifyMatch r f c
  = (Ok tt, mkCtx (setMatch r (f m) (srv c)) (reply c) (sendAfter c) (out c)).
Proof.
  intros H. unfold modifyMatch, modifyServer, setMatch.
  by rewrite (alter_lookup_insert f _ r m).
Qed.

Lemma modifyCurrentGame_set (r : MatchRef) f (c : Ctx) m g :
  matches (srv c) !! r = Some m ->
  m_currentGame m = Some g ->
  modifyCurrentGame r f c
  = (Ok tt, mkCtx (setMatch r (Match_currentGame (Some (f g)) m) (srv c))
                  (reply c) (sendAfter c) (out c)).
Proof.
  intros H Hg. unfold modifyCurrentGame. destruct c as [s rp sa ou]. msimpl.
  cbn [srv] in H. rewrite H. msimpl. rewrite Hg. msimpl.
  by rewrite (modifyMatch_set r _ _ m).
Qed.

Lemma matches_setMatch_eq (r : MatchRef) m' (s : Server) m :
  matches s !! r = Some m -> matches (setMatch r m' s) !! r = Some m'.
Proof.
  intros H. unfold setMatch. cbn.
  apply list_lookup_insert_eq. by eapply lookup_lt_Some.
Qed.

Lemma matches_setMatch_ne (r r' : MatchRef) m' (s : Server) :
  r <> r' -> matches (setMatch r m' s) !! r' = matches s !! r'.
Proof. intros H. unfold setMatch. cbn. by apply list_lookup_insert_ne. Qed.

Lemma allocState_eq (st : State) (c : Ctx) :
  allocState st c
  = (Ok (fresh (dom (heap (srv c)))),
     mkCtx (setBoard (fresh (dom (heap (srv c)))) st (srv c))
           (reply c) (sendAfter c) (out c)).
Proof. destruct c. reflexivity. Qed.

Lemma fresh_loc_None (s : Server) : heap s !! fresh (dom (heap s)) = None.
Proof. apply not_elem_of_dom. apply is_fresh. Qed.

Lemma Game_snapshotState_eq (r : MatchRef) (c : Ctx) m g st :
  matches (srv c) !! r = Some m ->
  m_currentGame m = Some g ->
  heap (srv c) !! g_state g = Some st ->
  Game_snapshotState r c
  = (Ok tt,
     mkCtx (setMatch r (Match_currentGame
                          (Some (Game_snapshot (Some (fresh (dom (heap (srv c))))) g)) m)
              (setBoard (fresh (dom (heap (srv c)))) st (srv c)))
           (reply c) (sendAfter c) (out c)).
Proof.
  intros H Hg Hst. unfold Game_snapshotState. destruct c as [s rp sa ou]. msimpl.
  cbn [srv] in *. rewrite H. msimpl. rewrite Hg. msimpl. rewrite Hst. msimpl.
  rewrite allocState_eq. msimpl.
  by rewrite (modifyMatch_set r _ _ m).
Qed.

Lemma Game_restoreState_eq (r : MatchRef) (c : Ctx) m g snap st :
  matches (srv c) !! r = Some m ->
  m_currentGame m = Some g ->
  g_snapshot g = Some snap ->
  heap (srv c) !! snap = Some st ->
  Game_restoreState r c
  = (Ok tt,
     mkCtx (setMatch r (Match_currentGame
                          (Some (Game_state (fresh (dom (heap (srv c)))) g)) m)
              (setBoard (fresh (dom (heap (srv c)))) st (srv c)))
           (reply c) (sendAfter c) (out c)).
Proof.
  intros H Hg Hsn Hst. unfold Game_restoreState. destruct c as [s rp sa ou]. msimpl.
  cbn [srv] in *. rewrite H. msimpl. rewrite Hg. msimpl. rewrite Hsn. msimpl.
  rewrite Hst. msimpl. rewrite allocState_eq. msimpl.
  by rewrite (modifyMatch_set r _ _ m).
Qed.

(** The recipients of a broadcast depend on the players and on the
    connections only. *)
Lemma recipients_ext (s s' : Server) ids :
  players s = players s' -> clients s = clients s' ->
  recipients s ids = recipients s' ids.
Proof.
  intros Hp Hc. unfold recipients, socketOf, getPlayerByID.
  by rewrite Hp, Hc.
Qed.

(** *** Lookups and broadcasts *)

Lemma getPlayerByID_Some (s : Server) id r :
  getPlayerByID s id = Some r ->
  exists p, players s !! r = Some p /\ id = Some (p_id p).
Proof.
  unfold getPlayerByID. intros H.
  destruct (list_find _ _) as [[i p]|] eqn:Hf; simplify_eq/=.
  apply list_find_Some in Hf as (Hp & Heq & _).
  exists p. split; [done|].
  unfold looseEqID in Heq. destruct id; [|done].
  apply Z.eqb_eq in Heq. by subst.
Qed.

Lemma getMatchByID_Some (s : Server) id r :
  getMatchByID s id = Some r ->
  exists m, matches s !! r = Some m /\ id = Some (m_id m).
Proof.
  unfold getMatchByID. intros H.
  destruct (list_find _ _) as [[i m]|] eqn:Hf; simplify_eq/=.
  apply list_find_Some in Hf as (Hm & Heq & _).
  exists m. split; [done|].
  unfold looseEqID in Heq. destruct id; [|done].
  apply Z.eqb_eq in Heq. by subst.
Qed.

(** One step of a broadcast: the message goes to [socketOf s id], if
    any, and nothing else happens. *)
Lemma sendToID (c : Ctx) (id : Z) msg params :
  (s ← getServer;
   match getPlayerByID s (Some id) with
   | Some p => sendPlayerMessage p msg params
   | None => mret tt
   end) c
  = (Ok tt, mkCtx (srv c) (reply c) (sendAfter c)
                  (out c ++ match socketOf (srv c) id with
                            | Some k => [mkEmit k msg params]
                            | None => []
                            end)).
Proof.
  destruct c as [s rp sa ou]. unfold sendPlayerMessage, socketOf. msimpl.
  destruct (getPlayerByID s (Some id)) as [r|] eqn:Hr; msimpl;
    cbn [option_bind]; [|by rewrite app_nil_r].
  apply getPlayerByID_Some in Hr as (p & Hp & _). rewrite Hp. msimpl.
  cbn [option_bind].
  destruct (p_socketID p) as [k'|]; msimpl; cbn [option_bind];
    [|by rewrite app_nil_r].
  destruct (clients s !! k'); msimpl; cbn [option_bind];
    [done|by rewrite app_nil_r].
Qed.

Lemma forEach_send (ids : list Z) (c : Ctx) msg params :
  forEach ids (fun id =>
    s ← getServer;
    match getPlayerByID s (Some id) with
    | Some p => sendPlayerMessage p msg params
    | None => mret tt
    end) c
  = (Ok tt, mkCtx (srv c) (reply c) (sendAfter c)
                  (out c ++ map (fun k => mkEmit k msg params)
                                (recipients (srv c) ids))).
Proof.
  revert c. induction ids as [|id ids IH]; intros c.
  - destruct c. simpl. by rewrite app_nil_r.
  - cbn [forEach]. change (forEach ids ?f) with (forEach ids f).
    unfold mbind at 1, M_bind at 1. rewrite sendToID.
    rewrite IH. cbn [srv reply sendAfter out].
    unfold recipients. cbn [omap list_omap].
    destruct (socketOf (srv c) id); cbn [map]; by rewrite <- app_assoc.
Qed.

(** [sendMatchMessage]: the message goes to the connection of every
    participant; the server is not touched. *)
Lemma sendMatchMessage_out (mr : MatchRef) (c : Ctx) m msg params :
  matches (srv c) !! mr = Some m ->
  sendMatchMessage mr msg params c
  = (Ok tt, mkCtx (srv c) (reply c) (sendAfter c)
                  (out c ++ map (fun k => mkEmit k msg params)
                                (recipients (srv c) (m_players m)))).
Proof.
  intros Hm. unfold sendMatchMessage.
  unfold mbind at 1, M_bind at 1. unfold readMatch, getServer.
  unfold mbind at 1, M_bind at 1. rewrite Hm. cbn [deref mret M_ret].
  apply forEach_send.
Qed.

Lemma forEach_sendOthers (ids : list Z) (except : Z) (c : Ctx) msg params :
  forEach ids (fun id =>
    if id =? except then mret tt
    else
      s ← getServer;
      match getPlayerByID s (Some id) with
      | Some p => sendPlayerMessage p msg params
      | None => mret tt
      end) c
  = (Ok tt, mkCtx (srv c) (reply c) (sendAfter c)
                  (out c ++ map (fun k => mkEmit k msg params)
                                (recipients (srv c)
                                   (filter (fun id => id <> except) ids)))).
Proof.
  revert c. induction ids as [|id ids IH]; intros c.
  - destruct c. simpl. by rewrite app_nil_r.
  - cbn [forEach]. unfold mbind at 1, M_bind at 1.
    rewrite filter_cons.
    destruct (Z.eqb_spec id except) as [->|Hne].
    + cbn [mret M_ret]. rewrite IH. rewrite decide_False by (intros H; by apply H).
      done.
    + rewrite sendToID, IH. cbn [srv reply sendAfter out].
      rewrite decide_True by done.
      unfold recipients. cbn [omap list_omap].
      destruct (socketOf (srv c) id); cbn [map]; by rewrite <- app_assoc.
Qed.

(** [sendOthersMessage]: the same, leaving out every participant whose
    id is the excepted one. *)
Lemma sendOthersMessage_out (mr : MatchRef) (except : Z) (c : Ctx) m msg params :
  matches (srv c) !! mr = Some m ->
  sendOthersMessage mr except msg params c
  = (Ok tt, mkCtx (srv c) (reply c) (sendAfter c)
                  (out c ++ map (fun k => mkEmit k msg params)
                                (recipients (srv c)
                                   (filter (fun id => id <> except) (m_players m))))).
Proof.
  intros Hm. unfold sendOthersMessage.
  unfold mbind at 1, M_bind at 1. unfold readMatch, getServer.
  unfold mbind at 1, M_bind at 1. rewrite Hm. cbn [deref mret M_ret].
  apply forEach_sendOthers.
Qed.

(** *** Resigning a match *)

Lemma handleResignMatch_bound (k : SocketID) (params : option Params) (c : Ctx) sk mr m :
  clients (srv c) !! k = Some sk ->
  sk_match sk = Some mr ->
  matches (srv c) !! mr = Some m ->
  handleResignMatch k params c
  = (Ok true,
     mkCtx (srv c) (reply c)
           (Some [ToMatch mr EVENT_MATCH_OVER
                    (overParams mr (opponentOf (srv c) m (sk_player sk)) true)])
           (out c)).
Proof.
  intros Hk Hm Hmr. destruct c as [s rp sa ou].
  unfold handleResignMatch, opponentOf. msimpl.
  rewrite Hk. msimpl. rewrite Hk. msimpl. rewrite Hm. msimpl.
  rewrite Hmr. msimpl. reflexivity.
Qed.

Lemma handleResignMatch_frame (k : SocketID) (params : option Params) (c : Ctx) r c' :
  handleResignMatch k params c = (r, c') ->
  srv c' = srv c /\ out c' = out c
  /\ (r = Thrown -> reply c' = reply c /\ sendAfter c' = sendAfter c).
Proof.
  destruct c as [s rp sa ou]. unfold handleResignMatch.
  mauto; intros [= <- <-]; by repeat split.
Qed.

(** The opponent of a player in a match, by seats: the guest for the
    host, the host for a player with another id. *)
Lemma opponentOf_seats (s : Server) (m : Match) (player : option PlayerRef) p h :
  resolvePlayer s player = Some p ->
  resolvePlayer s (m_host m) = Some h ->
  (p_id p = p_id h -> opponentOf s m player = m_guest m)
  /\ (p_id p <> p_id h -> opponentOf s m player = m_host m).
Proof.
  intros Hp Hh. unfold opponentOf, Match_isHost. rewrite Hh, Hp.
  destruct (Z.eqb_spec (p_id h) (p_id p)) as [He|Hne]; split; intros Hid;
    first [reflexivity | congruence].
Qed.

(** C10.  A RESIGN_MATCH request changes nothing in the server: in
    particular the score and the [isOver] flag of every match are what
    they were.  On a connection bound to a match, the only effect beside
    the reply is the EVENT_MATCH_OVER broadcast to the participants,
    which has [resigned] set and names the opponent of the resigning
    player as winner: the guest of the match when it is the host who
    resigns, the host when it is a player with another id, the guest
    that is. *)
Theorem resign_match_frame (o : Oracle) (k : SocketID) (params : option Params)
        (s : Server) :
  fst (serve loadRule matchLength DEBUG o RESIGN_MATCH k params s) = s
  /\ forall sk mr m,
      clients s !! k = Some sk ->
      sk_match sk = Some mr ->
      matches s !! mr = Some m ->
      exists (rep : Obj) (winner : option PlayerRef),
        snd (serve loadRule matchLength DEBUG o RESIGN_MATCH k params s)
        = mkEmit k RESIGN_MATCH rep
          :: map (fun k' => mkEmit k' EVENT_MATCH_OVER (overParams mr winner true))
                 (recipients s (m_players m))
        /\ rep !! "result" = Some (VBool true)
        /\ rep !! "errorMessage" = None
        /\ (forall p h,
              resolvePlayer s (sk_player sk) = Some p ->
              resolvePlayer s (m_host m) = Some h ->
              (p_id p = p_id h -> winner = m_guest m)
              /\ (p_id p <> p_id h -> winner = m_host m)).
Proof.
  split.
  - unfold serve, handleRequest. cbn [dispatch]. msimpl.
    destruct (handleResignMatch k params _) as [[b|] [s' rp sa ou]] eqn:Hh;
      pose proof (handleResignMatch_frame _ _ _ _ _ Hh) as (Hs & _ & _);
      cbn [srv] in Hs; subst s'; msimpl; [|done].
    destruct (clients s !! k) as [sk|] eqn:Hk; msimpl; [|done].
    destruct (sk_match sk) as [mr|] eqn:Hm; msimpl.
    + destruct (matches s !! mr) as [m|] eqn:Hmr.
      * rewrite (handleResignMatch_bound k params _ sk mr m) in Hh by done.
        simplify_eq. cbn [forEach runDeferred]. msimpl.
        by rewrite (sendMatchMessage_out mr _ m).
      * revert Hh. unfold handleResignMatch. by mauto.
    + revert Hh. unfold handleResignMatch. by mauto.
  - intros sk mr m Hk Hm Hmr.
    unfold serve, handleRequest. cbn [dispatch]. msimpl.
    rewrite (handleResignMatch_bound k params _ sk mr m) by done.
    msimpl. rewrite Hk. msimpl. rewrite Hm. msimpl.
    cbn [forEach runDeferred]. msimpl.
    rewrite (sendMatchMessage_out mr _ m) by done. msimpl.
    eexists _, (opponentOf s m (sk_player sk)). split; [reflexivity|].
    split; [by simplify_map_eq|].
    split; [|intros p h Hp Hh; exact (opponentOf_seats s m _ p h Hp Hh)].
    rewrite !lookup_insert_ne by done.
    unfold initialReply. destruct (truthyNum _); [|by simplify_map_eq].
    unfold withOpt. destruct (_ <$> _); by simplify_map_eq.
Qed.

(** *** Rolling the dice *)

(** What an accepted ROLL_DICE request has found and done. *)
Lemma handleRollDice_accepted (o : Oracle) (k : SocketID) (params : option Params)
      (c c' : Ctx) :
  handleRollDice o k params c = (Ok true, c') ->
  exists sk mr m game pr p rule st,
    clients (srv c) !! k = Some sk
    /\ sk_match sk = Some mr /\ sk_player sk = Some pr /\ sk_rule sk = Some rule
    /\ matches (srv c) !! mr = Some m /\ m_currentGame m = Some game
    /\ players (srv c) !! pr = Some p
    /\ heap (srv c) !! g_state game = Some st
    /\ g_hasStarted game = true /\ g_turnDice game = None
    /\ srv c' =
         setMatch mr
           (Match_currentGame
              (Some (Game_snapshot (Some (fresh (dom (heap (srv c)))))
                       (Game_turnDice
                          (Some (rollDice rule
                                   (mkView game st
                                      (resolvePlayer (srv c) (g_turnPlayer game)))
                                   (diceSeed o)))
                          game))) m)
           (setBoard (fresh (dom (heap (srv c)))) st (srv c))
    /\ out c' =
         (out c ++ map (fun k' => mkEmit k' EVENT_DICE_ROLL (matchParams mr))
                       (recipients (srv c)
                          (filter (fun id => id <> p_id p) (m_players m))))%list.
Proof.
  destruct c as [s rp sa ou]. unfold handleRollDice, Game_diceWasRolled.
  mauto; try (intros [=]; fail).
  intros [= <-].
  match goal with H : viewOf _ _ = Some _ |- _ =>
    unfold viewOf in H; apply bind_Some in H as (st & Hst & [= <-]) end.
  match goal with H : resolvePlayer _ (sk_player _) = Some _ |- _ =>
    unfold resolvePlayer in H; apply bind_Some in H as (pr & Hpr & Hp) end.
  match goal with H : modifyCurrentGame _ _ _ = _ |- _ =>
    erewrite modifyCurrentGame_set in H by eassumption; injection H as _ <- end.
  match goal with H : Game_snapshotState _ _ = _ |- _ =>
    erewrite Game_snapshotState_eq in H;
      [
      | cbn [srv]; by eapply matches_setMatch_eq
      | reflexivity
      | eassumption ];
      injection H as _ <- end.
  match goal with H : sendOthersMessage _ _ _ _ _ = _ |- _ =>
    erewrite sendOthersMessage_out in H;
      [
      | cbn [srv]; eapply matches_setMatch_eq;
        cbn; by eapply matches_setMatch_eq ];
      injection H as _ <- end.
  match goal with
  | Hk : clients _ !! _ = Some ?sk, Hm : sk_match ?sk = Some ?mr,
    Hmr : matches _ !! ?mr = Some ?m, Hg : m_currentGame ?m = Some ?g,
    Hp : players _ !! pr = Some ?p, Hr : sk_rule ?sk = Some ?rule |- _ =>
      exists sk, mr, m, g, pr, p, rule, st
  end.
  repeat (split; [done|]).
  split; [by destruct (g_hasStarted _)|].
  split; [by destruct (g_turnDice _)|].
  cbn [srv out]. split.
  - unfold setMatch, setBoard. cbn. by rewrite list_insert_insert_eq.
  - reflexivity.
Qed.

Lemma elem_of_recipients (s : Server) (ids : list Z) (k' : SocketID) :
  k' ∈ recipients s ids <-> exists id, id ∈ ids /\ socketOf s id = Some k'.
Proof. unfold recipients. apply list_elem_of_omap. Qed.

(** C7.  An accepted ROLL_DICE request emits, beside nothing else, one
    EVENT_DICE_ROLL to the connection of every participant of the match
    whose id is not the id of the rolling player, and every message it
    emits is such an event: none is addressed to the roller. *)
Theorem dice_roll_to_others (o : Oracle) (k : SocketID) (params : option Params)
        (c c' : Ctx) :
  handleRollDice o k params c = (Ok true, c') ->
  exists sk mr m pr p evs,
    clients (srv c) !! k = Some sk
    /\ sk_match sk = Some mr /\ matches (srv c) !! mr = Some m
    /\ sk_player sk = Some pr /\ players (srv c) !! pr = Some p
    /\ out c' = (out c ++ evs)%list
    /\ (forall id k', id ∈ m_players m -> id <> p_id p ->
                       socketOf (srv c) id = Some k' ->
                       mkEmit k' EVENT_DICE_ROLL (matchParams mr) ∈ evs)
    /\ (forall e, e ∈ evs ->
                  e_msg e = EVENT_DICE_ROLL /\ e_params e = matchParams mr
                  /\ exists id, id ∈ m_players m /\ id <> p_id p
                                /\ socketOf (srv c) id = Some (e_socket e)).
Proof.
  intros H.
  apply handleRollDice_accepted in H
    as (sk & mr & m & game & pr & p & rule & st & Hk & Hm & Hpr & _ & Hmr & _
        & Hp & _ & _ & _ & _ & Hout).
  exists sk, mr, m, pr, p. eexists. repeat (split; [eassumption|]). split.
  - intros id k' Hid Hne Hsock.
    apply list_elem_of_fmap. exists k'. split; [done|].
    apply elem_of_recipients. exists id. split; [|done].
    by apply list_elem_of_filter.
  - intros e He. apply list_elem_of_fmap in He as (k' & -> & Hk').
    apply elem_of_recipients in Hk' as (id & Hid & Hsock).
    apply list_elem_of_filter in Hid as [Hne Hid].
    cbn. repeat (split; [done|]). by exists id.
Qed.

(** *** The end of a game *)

Lemma Match_createNewGame_eq (o : Oracle) (r : MatchRef) (rule : Rule) (c : Ctx) m :
  matches (srv c) !! r = Some m ->
  Match_createNewGame o r rule c
  = (Ok tt,
     mkCtx (setMatch r
              (Match_currentGame
                 (Some (mkGame (newGameID o) false None 0 None 0
                               (fresh (dom (heap (srv c)))) None)) m)
              (setBoard (fresh (dom (heap (srv c)))) (r_initialState rule) (srv c)))
           (reply c) (sendAfter c) (out c)).
Proof.
  intros H. unfold Match_createNewGame. destruct c as [s rp sa ou]. msimpl.
  rewrite allocState_eq. msimpl. by rewrite (modifyMatch_set r _ _ m).
Qed.

Lemma endGame_eq (o : Oracle) (k : SocketID) (wr : PlayerRef) (resigned : bool)
      (c : Ctx) sk rule mr m game st w col :
  clients (srv c) !! k = Some sk ->
  sk_match sk = Some mr -> sk_rule sk = Some rule ->
  matches (srv c) !! mr = Some m ->
  m_currentGame m = Some game ->
  heap (srv c) !! g_state game = Some st ->
  players (srv c) !! wr = Some w ->
  p_currentPieceType w = Some col ->
  let total := m_score m col + getGameScore rule st (Some w) in
  let m1 := Match_score (fun c' => if decide (c' = col) then total else m_score m c') m in
  let m2 := if m_length m <=? total then Match_isOver true m1 else m1 in
  let l := fresh (dom (heap (srv c))) in
  endGame o k (Some wr) resigned c
  = if m_isOver m2 then
      (Ok true,
       mkCtx (setMatch mr m2 (srv c)) (reply c)
             (Some [ToMatch mr EVENT_MATCH_OVER (overParams mr (Some wr) resigned)])
             (out c))
    else
      (Ok true,
       mkCtx (setMatch mr
                (Match_currentGame
                   (Some (mkGame (newGameID o) true (Some wr) 1 None 0 l None)) m2)
                (setBoard l (r_initialState rule) (srv c)))
             (reply c)
             (Some [ToMatch mr EVENT_GAME_OVER (overParams mr (Some wr) resigned);
                    ToMatch mr EVENT_GAME_RESTART
                      (<["match" := VMatch mr]> (<["game" := VGameOf mr]>
                        {[ "resigned" := VBool resigned ]}))])
             (out c)).
Proof.
  intros Hk Hm Hr Hmr Hg Hst Hw Hcol total m1 m2 l.
  destruct c as [s rp sa ou]. cbn [srv reply sendAfter out] in *.
  unfold endGame. msimpl.
  rewrite Hk. msimpl. rewrite Hk. msimpl. rewrite Hr, Hm. msimpl.
  rewrite Hmr. msimpl. rewrite Hg. msimpl. rewrite Hst. msimpl.
  unfold resolvePlayer. cbn [mbind option_bind]. rewrite Hw. msimpl.
  rewrite Hcol. msimpl.
  rewrite (modifyMatch_set mr _ _ m) by done. msimpl.
  fold total. fold m1.
  assert (Hm1 : matches (setMatch mr m1 s) !! mr = Some m1)
    by (by eapply matches_setMatch_eq).
  subst m2. destruct (m_length m <=? total) eqn:Hreach.
  - rewrite (modifyMatch_set mr _ _ m1) by done. msimpl.
    assert (Hs : setMatch mr (Match_isOver true m1) (setMatch mr m1 s)
                 = setMatch mr (Match_isOver true m1) s)
      by (unfold setMatch; cbn; by rewrite list_insert_insert_eq).
    rewrite Hs.
    rewrite (matches_setMatch_eq mr _ s m) by done. msimpl.
    reflexivity.
  - msimpl. rewrite Hm1. msimpl.
    change (m_isOver m1) with (m_isOver m).
    destruct (m_isOver m); msimpl; [reflexivity|].
    rewrite (Match_createNewGame_eq o mr rule _ m1) by done. msimpl.
    set (s1 := setMatch mr _ (setBoard _ _ _)).
    assert (Hs1 : forall x, matches (setMatch mr x (setBoard l (r_initialState rule)
                                                       (setMatch mr m1 s))) !! mr = Some x).
    { intros x. eapply matches_setMatch_eq. cbn. exact Hm1. }
    subst s1.
    erewrite modifyCurrentGame_set;
      [|cbn [srv]; apply Hs1 | reflexivity]. msimpl.
    erewrite modifyCurrentGame_set;
      [|cbn [srv]; eapply matches_setMatch_eq; apply Hs1 | reflexivity]. msimpl.
    erewrite modifyCurrentGame_set;
      [|cbn [srv]; eapply matches_setMatch_eq; eapply matches_setMatch_eq; apply Hs1
       | reflexivity]. msimpl.
    f_equal. f_equal.
    unfold setMatch, setBoard. cbn. by rewrite !list_insert_insert_eq.
Qed.

(** C3.  When a game ends, the total of the winner's colour is
    increased by the score of the game and the other colour keeps its
    total; a match that was not over is over afterwards exactly when
    that total has reached the length of the match, and a match that
    was over stays over.  While the match is not over a new game is
    current: started, on a new board, with the winner to play and turn
    number 1.  Once the match is over no game is created: the current
    game and the boards are what they were. *)
Theorem end_game_scoring (o : Oracle) (k : SocketID) (wr : PlayerRef) (resigned : bool)
        (c : Ctx) sk rule mr m game st w col :
  clients (srv c) !! k = Some sk ->
  sk_match sk = Some mr -> sk_rule sk = Some rule ->
  matches (srv c) !! mr = Some m ->
  m_currentGame m = Some game ->
  heap (srv c) !! g_state game = Some st ->
  players (srv c) !! wr = Some w ->
  p_currentPieceType w = Some col ->
  exists c' m',
    endGame o k (Some wr) resigned c = (Ok true, c')
    /\ matches (srv c') !! mr = Some m'
    /\ m_score m' col = m_score m col + getGameScore rule st (Some w)
    /\ (forall col', col' <> col -> m_score m' col' = m_score m col')
    /\ m_length m' = m_length m
    /\ m_isOver m' = m_isOver m || (m_length m <=? m_score m' col)
    /\ (m_isOver m = false -> (m_isOver m' = true <-> m_length m <= m_score m' col))
    /\ (m_isOver m' = false ->
        exists g',
          m_currentGame m' = Some g'
          /\ heap (srv c) !! g_state g' = None
          /\ heap (srv c') !! g_state g' = Some (r_initialState rule)
          /\ g_hasStarted g' = true
          /\ g_turnPlayer g' = Some wr
          /\ g_turnNumber g' = 1)
    /\ (m_isOver m' = true ->
        m_currentGame m' = Some game /\ heap (srv c') = heap (srv c)).
Proof.
  intros Hk Hm Hr Hmr Hg Hst Hw Hcol.
  pose proof (endGame_eq o k wr resigned c sk rule mr m game st w col
                Hk Hm Hr Hmr Hg Hst Hw Hcol) as E.
  cbv zeta in E.
  set (total := m_score m col + getGameScore rule st (Some w)) in *.
  set (m1 := Match_score _ m) in *.
  assert (Htot : m_score m1 col = total)
    by (subst m1; cbn; by rewrite decide_True).
  assert (Hoth : forall col', col' <> col -> m_score m1 col' = m_score m col')
    by (intros col' Hne; subst m1; cbn; by rewrite decide_False).
  destruct (m_length m <=? total) eqn:Hreach.
  - (* the total has reached the length *)
    cbn [m_isOver Match_isOver] in E.
    eexists _, (Match_isOver true m1). split; [exact E|]. cbn [srv].
    split; [by eapply matches_setMatch_eq|].
    split; [exact Htot|]. split; [exact Hoth|]. split; [reflexivity|].
    cbn [m_isOver Match_isOver m_score].
    change (m_score (Match_isOver true m1) col) with (m_score m1 col).
    rewrite Htot, Hreach, orb_true_r.
    split; [reflexivity|]. split; [intros _; split; [intros _; by apply Z.leb_le|done]|].
    split; [done|]. intros _. split; [exact Hg|reflexivity].
  - change (m_isOver m1) with (m_isOver m) in E.
    destruct (m_isOver m) eqn:Hover.
    + (* the match was over already *)
      eexists _, m1. split; [exact E|]. cbn [srv].
      split; [by eapply matches_setMatch_eq|].
      split; [exact Htot|]. split; [exact Hoth|]. split; [reflexivity|].
      rewrite Htot, Hreach.
      change (m_isOver m1) with (m_isOver m). rewrite Hover.
      split; [reflexivity|]. split; [done|]. split; [done|].
      intros _. split; [exact Hg|reflexivity].
    + (* the match goes on: a new game *)
      eexists _, (Match_currentGame _ m1). split; [exact E|]. cbn [srv].
      split; [eapply matches_setMatch_eq; cbn; exact Hmr|].
      split; [exact Htot|]. split; [exact Hoth|]. split; [reflexivity|].
      change (m_score (Match_currentGame ?g m1) col) with (m_score m1 col).
      change (m_isOver (Match_currentGame ?g m1)) with (m_isOver m).
      rewrite Htot, Hreach, Hover.
      split; [reflexivity|].
      split; [intros _; split; [done|intros H; apply Z.leb_le in H; congruence]|].
      split; [|done]. intros _. eexists. split; [reflexivity|].
      cbn [g_state g_hasStarted g_turnPlayer g_turnNumber].
      split; [apply fresh_loc_None|].
      split; [cbn; apply lookup_insert_eq|]. done.
Qed.

(** *** The rule of a match *)

Lemma namesKept_refl (l : list Match) : namesKept l l.
Proof. intros j m' H. right. by exists m'. Qed.

Lemma namesKept_alter (f : Match -> Match) (i : nat) (l l' : list Match) :
  (forall m, m_ruleName (f m) = m_ruleName m) ->
  namesKept l l' -> namesKept l (alter f i l').
Proof.
  intros Hf H j m' Hj.
  destruct (decide (i = j)) as [->|Hne].
  - rewrite list_lookup_alter_eq in Hj.
    destruct (l' !! j) as [m''|] eqn:E; simplify_eq/=.
    rewrite Hf. by apply (H j).
  - rewrite list_lookup_alter_ne in Hj by done. by apply (H j).
Qed.

Lemma namesKept_app (m : Match) (l l' : list Match) :
  m_ruleName m = Some RuleBgCasual ->
  namesKept l l' -> namesKept l (l' ++ [m]).
Proof.
  intros Hm H j m' Hj.
  apply lookup_app_Some in Hj as [Hj|[_ Hj]]; [by apply (H j)|].
  apply list_lookup_singleton_Some in Hj as [_ <-]. by left.
Qed.

Ltac solve_namesKept :=
  repeat first
    [ apply namesKept_refl
    | apply namesKept_app; [reflexivity|]
    | apply namesKept_alter; [intros []; reflexivity|] ].

Ltac solve_rule :=
  cbv beta iota zeta delta [accepted]; mautof; try exact I; try absurd_branch;
  (split;
   [ split;
     [ eexists; split;
       [ rewrite lookup_alter_eq, lookup_alter_eq;
         match goal with H : _ !! _ = Some _ |- _ => rewrite H end;
         reflexivity
       | reflexivity ]
     | solve_field ]
   | solve_namesKept ]).

Lemma handleJoinMatch_rule (k : SocketID) (params : option Params) (c c' : Ctx) :
  handleJoinMatch loadRule k params c = (Ok true, c') ->
  bindsCasual loadRule k c' /\ namesKept (matches (srv c)) (matches (srv c')).
Proof.
  apply (accepted_inv _ (fun c' => bindsCasual loadRule k c'
                           /\ namesKept (matches (srv c)) (matches (srv c')))).
  destruct c as [[cl pl ma he] rp sa ou]. unfold handleJoinMatch, bindsCasual.
  solve_rule.
Qed.

Lemma handleCreateMatch_rule (o : Oracle) (k : SocketID) (params : option Params)
      (c c' : Ctx) :
  handleCreateMatch loadRule matchLength o k params c = (Ok true, c') ->
  bindsCasual loadRule k c' /\ namesKept (matches (srv c)) (matches (srv c')).
Proof.
  apply (accepted_inv _ (fun c' => bindsCasual loadRule k c'
                           /\ namesKept (matches (srv c)) (matches (srv c')))).
  destruct c as [[cl pl ma he] rp sa ou]. unfold handleCreateMatch, bindsCasual.
  solve_rule.
Qed.

(** C9.  CREATE_MATCH and JOIN_MATCH do not read the [ruleName] of the
    request: whatever it is, the outcome is the same.  When they accept
    the request, the connection is bound to the rule ["RuleBgCasual"],
    the reply names it, and every match of the server either carries
    that rule name or is an earlier match with the rule name it had
    (so that a server whose matches are all of that rule keeps them
    so). *)
Theorem rule_is_RuleBgCasual (o : Oracle) (k : SocketID) (prm : Params)
        (x : option string) (c : Ctx) :
  handleCreateMatch loadRule matchLength o k (Some (Params_ruleName x prm)) c
  = handleCreateMatch loadRule matchLength o k (Some prm) c
  /\ handleJoinMatch loadRule k (Some (Params_ruleName x prm)) c
     = handleJoinMatch loadRule k (Some prm) c
  /\ (forall c',
        handleCreateMatch loadRule matchLength o k (Some prm) c = (Ok true, c') ->
        bindsCasual loadRule k c' /\ namesKept (matches (srv c)) (matches (srv c')))
  /\ (forall c',
        handleJoinMatch loadRule k (Some prm) c = (Ok true, c') ->
        bindsCasual loadRule k c' /\ namesKept (matches (srv c)) (matches (srv c'))).
Proof.
  split; [reflexivity|]. split; [reflexivity|].
  split; intros c'; [apply handleCreateMatch_rule | apply handleJoinMatch_rule].
Qed.

(** *** Joining a match *)

(** The deferred broadcasts and the reply do not touch the server. *)
Lemma sendPlayerMessage_srv (r : PlayerRef) msg params (c : Ctx) :
  srv (snd (sendPlayerMessage r msg params c)) = srv c.
Proof.
  destruct c as [s rp sa ou]. unfold sendPlayerMessage. msimpl.
  destruct (players s !! r) as [p|]; msimpl; [|done].
  destruct (p_socketID p) as [k'|]; msimpl; [|done].
  destruct (clients s !! k'); msimpl; done.
Qed.

Lemma sendMatchMessage_srv (r : MatchRef) msg params (c : Ctx) :
  srv (snd (sendMatchMessage r msg params c)) = srv c.
Proof.
  destruct (matches (srv c) !! r) as [m|] eqn:Hm.
  - by rewrite (sendMatchMessage_out r c m).
  - destruct c as [s rp sa ou]. unfold sendMatchMessage. msimpl.
    cbn [srv] in Hm. by rewrite Hm.
Qed.

Lemma runDeferred_srv (ds : list Deferred) (c : Ctx) :
  srv (snd (forEach ds runDeferred c)) = srv c.
Proof.
  revert c. induction ds as [|d ds IH]; intros c; [done|].
  cbn [forEach]. unfold mbind at 1, M_bind at 1.
  assert (Hd : srv (snd (runDeferred d c)) = srv c)
    by (destruct d; [apply sendMatchMessage_srv | apply sendPlayerMessage_srv]).
  destruct (runDeferred d c) as [[[]|] c1]; cbn [snd] in Hd; [|done].
  by rewrite IH.
Qed.

(** The server after a request is the server its handler leaves. *)
Lemma serve_state (o : Oracle) (msg : Message) (k : SocketID)
      (params : option Params) (s : Server) h :
  dispatch loadRule matchLength DEBUG o msg k params = Some h ->
  fst (serve loadRule matchLength DEBUG o msg k params s)
  = srv (snd (h (mkCtx s (initialReply params) None []))).
Proof.
  intros Hd. unfold serve, handleRequest. rewrite Hd. msimpl.
  destruct (h _) as [[b|] [s' rp sa ou]]; msimpl; [|done].
  destruct (clients s' !! k) as [sk|]; msimpl; [|done].
  assert (E : forall rp', 
    fst (let '(_, c) :=
           (let (r0, c') :=
              (Ok (), mkCtx s' rp' sa (ou ++ [mkEmit k msg rp']))
            in match r0 with
               | Ok _ =>
                   match sendAfter c' with
                   | Some ds =>
                       fun c0 =>
                         let (r1, c'0) := forEach ds runDeferred c0 in
                         match r1 with
                         | Ok _ => (Ok (), mkCtx (srv c'0) (reply c'0) None (out c'0))
                         | Thrown => (Thrown, c'0)
                         end
                   | None => fun c0 => (Ok (), c0)
                   end c'
               | Thrown => (Thrown, c')
               end) in (srv c, out c)) = s').
  { intros rp'. cbn [sendAfter]. destruct sa as [ds|]; [|done].
    pose proof (runDeferred_srv ds (mkCtx s' rp' (Some ds) (ou ++ [mkEmit k msg rp'])))
      as Hs.
    destruct (forEach ds runDeferred _) as [[[]|] c2]; cbn [snd srv] in Hs; by subst. }
  destruct (sk_match sk); msimpl; apply E.
Qed.

Lemma getOpenMatchByHostSlug_open (s : Server) (h : string) (mr : MatchRef) :
  getOpenMatchByHostSlug s h = Some mr ->
  exists m, matches s !! mr = Some m /\ m_guest m = None /\ m_isOver m = false.
Proof.
  unfold getOpenMatchByHostSlug. destruct (negb _); [done|].
  intros H. destruct (list_find _ _) as [[i m]|] eqn:Hf; simplify_eq/=.
  apply list_find_Some in Hf as (Hm & Ha & _).
  exists m. split; [done|]. unfold answersTo in Ha.
  apply andb_prop in Ha as [Ha _]. apply andb_prop in Ha as [Ho Hg].
  split; [by destruct (m_guest m)|by destruct (m_isOver m)].
Qed.

Lemma handleJoinMatch_full (k : SocketID) (prm : Params) (c : Ctx) (mr : MatchRef) m :
  truthyStr (prm_hostSlug prm) = false ->
  truthyNum (prm_matchID prm) = true ->
  getMatchByID (srv c) (prm_matchID prm) = Some mr ->
  matches (srv c) !! mr = Some m ->
  m_guest m <> None ->
  handleJoinMatch loadRule k (Some prm) c = fail "Match is full!" c.
Proof.
  intros Hs Hi Hid Hm Hg. destruct c as [s rp sa ou]. cbn [srv] in *.
  unfold handleJoinMatch. msimpl. cbn [mbind option_bind].
  rewrite Hs, Hi, Hid. msimpl. rewrite Hm. msimpl.
  destruct (m_guest m); [reflexivity|done].
Qed.

Lemma handleJoinMatch_not_found (k : SocketID) (prm : Params) (c : Ctx) :
  truthyStr (prm_hostSlug prm) = true ->
  getOpenMatchByHostSlug (srv c) (Slug.iccjSlugify (prm_hostSlug prm)) = None ->
  handleJoinMatch loadRule k (Some prm) c = fail "Match not found!" c.
Proof.
  intros Hs Hn. destruct c as [s rp sa ou]. cbn [srv] in *.
  unfold handleJoinMatch. msimpl. cbn [mbind option_bind].
  rewrite Hs, Hn. reflexivity.
Qed.

(** Whatever a JOIN_MATCH request does, a match whose guest seat is
    filled is left as it is. *)
Lemma handleJoinMatch_frame (k : SocketID) (params : option Params) (c : Ctx)
      (mr : MatchRef) m :
  matches (srv c) !! mr = Some m ->
  m_guest m <> None ->
  matches (srv (snd (handleJoinMatch loadRule k params c))) !! mr = Some m.
Proof.
  intros Hm Hg. destruct c as [[cl pl ma he] rp sa ou]. cbn [srv matches] in Hm.
  unfold handleJoinMatch. mautof;
    rewrite ?list_lookup_alter_ne; try assumption;
    intros ->;
    match type of Hm with
    | ?X = _ =>
        match goal with
        | H1 : X = Some ?b, H3 : isSomeB (m_guest ?b) = false |- _ =>
            rewrite Hm in H1; injection H1 as <-;
            destruct (m_guest m); [discriminate H3 | by apply Hg]
        end
    end.
Qed.

(** C5, as amended.  A JOIN_MATCH request addressed by match id to a
    match whose guest seat is filled fails with ["Match is full!"] and
    changes nothing.  Addressed by slug, only open matches are looked
    up, so a match whose guest seat is filled is never the one resolved;
    when no open match answers to the slug the request fails with
    ["Match not found!"] and changes nothing.  In every case a match
    whose guest seat is filled is left as it is. *)
Theorem join_full_match (o : Oracle) (k : SocketID) (prm : Params) (s : Server) sk :
  clients s !! k = Some sk ->
  (truthyStr (prm_hostSlug prm) = false ->
   truthyNum (prm_matchID prm) = true ->
   forall (mr : MatchRef) m,
     getMatchByID s (prm_matchID prm) = Some mr ->
     matches s !! mr = Some m ->
     m_guest m <> None ->
     exists rep : Obj,
       serve loadRule matchLength DEBUG o JOIN_MATCH k (Some prm) s
         = (s, [mkEmit k JOIN_MATCH rep])
       /\ rep !! "result" = Some (VBool false)
       /\ rep !! "errorMessage" = Some (VStr "Match is full!"))
  /\ (truthyStr (prm_hostSlug prm) = true ->
      (forall mr : MatchRef,
         getOpenMatchByHostSlug s (Slug.iccjSlugify (prm_hostSlug prm)) = Some mr ->
         exists m, matches s !! mr = Some m /\ m_guest m = None)
      /\ (getOpenMatchByHostSlug s (Slug.iccjSlugify (prm_hostSlug prm)) = None ->
          exists rep : Obj,
            serve loadRule matchLength DEBUG o JOIN_MATCH k (Some prm) s
              = (s, [mkEmit k JOIN_MATCH rep])
            /\ rep !! "result" = Some (VBool false)
            /\ rep !! "errorMessage" = Some (VStr "Match not found!")))
  /\ (forall (mr : MatchRef) m,
        matches s !! mr = Some m ->
        m_guest m <> None ->
        matches (fst (serve loadRule matchLength DEBUG o JOIN_MATCH k (Some prm) s))
          !! mr = Some m).
Proof.
  intros Hk. split; [|split].
  - intros Hs Hi mr m Hid Hm Hg.
    eapply serve_fail; [exact Hk | reflexivity |].
    by apply (handleJoinMatch_full k prm _ mr m).
  - intros Hs. split.
    + intros mr Hmr. apply getOpenMatchByHostSlug_open in Hmr as (m & ? & ? & _).
      by exists m.
    + intros Hn. eapply serve_fail; [exact Hk | reflexivity |].
      by apply handleJoinMatch_not_found.
  - intros mr m Hm Hg.
    rewrite (serve_state o JOIN_MATCH k (Some prm) s
               (handleJoinMatch loadRule k (Some prm))) by reflexivity.
    by apply handleJoinMatch_frame.
Qed.

(** *** Resolving a match by the slug of its host *)

(** Whether a match answers to a slug depends on the matches and on
    the names of the players only. *)
Lemma answersTo_ext (s s' : Server) (sl : string) (m : Match) :
  (forall r : PlayerRef, p_name <$> players s' !! r = p_name <$> players s !! r) ->
  answersTo s' sl m = answersTo s sl m.
Proof.
  intros Hn. unfold answersTo. do 2 f_equal.
  unfold resolvePlayer. destruct (m_host m) as [r|]; cbn; [|done].
  specialize (Hn r).
  destruct (players s' !! r) as [p'|], (players s !! r) as [p|]; cbn in *;
    try discriminate Hn; [|done].
  injection Hn as Hn. by rewrite Hn.
Qed.

Lemma getOpenMatchByHostSlug_ext (s s' : Server) (h : string) :
  matches s' = matches s ->
  (forall r : PlayerRef, p_name <$> players s' !! r = p_name <$> players s !! r) ->
  getOpenMatchByHostSlug s' h = getOpenMatchByHostSlug s h.
Proof.
  intros Hm Hn. unfold getOpenMatchByHostSlug. rewrite Hm. clear Hm.
  destruct (negb _); [done|]. f_equal.
  induction (matches s) as [|m t IH]; [done|]. cbn.
  by rewrite (answersTo_ext s s' _ m Hn), IH.
Qed.

(** A match appended with slug [sl], open, is the one found for [sl]
    when none of the earlier matches answers to [sl]. *)
Lemma getOpenMatchByHostSlug_new (s s' : Server) (sl : string) (new : Match) :
  Slug.iccjSlugify (Some sl) = sl ->
  Slug.nonEmpty sl = true ->
  getOpenMatchByHostSlug s sl = None ->
  (forall r : PlayerRef, p_name <$> players s' !! r = p_name <$> players s !! r) ->
  matches s' = (matches s ++ [new])%list ->
  m_isOver new = false -> m_guest new = None -> m_hostSlug new = Some sl ->
  getOpenMatchByHostSlug s' sl = Some (length (matches s)).
Proof.
  intros Hid Hne Hnone Hn Hm Hover Hguest Hslug.
  unfold getOpenMatchByHostSlug in *. rewrite Hid, Hne in *. cbn [negb] in *.
  rewrite Hm.
  apply fmap_None in Hnone.
  assert (Hnone' : list_find (fun m => answersTo s' sl m = true) (matches s) = None).
  { apply list_find_None. apply list_find_None in Hnone.
    eapply Forall_impl; [exact Hnone|]. intros m Hx.
    by rewrite (answersTo_ext s s'). }
  rewrite (list_find_app_r _ _ _ Hnone'). cbn.
  rewrite decide_True; [cbn; done|].
  unfold answersTo. rewrite Hover, Hguest, Hslug. cbn.
  by rewrite Hid, Hne, String.eqb_refl.
Qed.

Lemma iccjSlugify_truthy (h : string) :
  Slug.nonEmpty (Slug.iccjSlugify (Some h)) = true -> truthyStr (Some h) = true.
Proof. by destruct h. Qed.

Lemma iccjSafeDisplayName_falsy (name : option string) :
  truthyStr name = false -> Slug.iccjSafeDisplayName name = "".
Proof. by destruct name as [[|]|]. Qed.

(** The name of the host after CREATE_MATCH is the display name of the
    request when that is not empty. *)
Ltac display_name :=
  let Hx := fresh in
  intros Hx;
  first
    [ discriminate Hx
    | match goal with
      | H : truthyStr _ = false |- _ =>
          rewrite (iccjSafeDisplayName_falsy _ H) in Hx; discriminate Hx
      end
    | match goal with
      | H : alter _ ?n ?pl !! ?n = Some _ |- _ =>
          rewrite list_lookup_alter_eq in H; destruct (pl !! n); cbn in H;
          [injection H as <-; reflexivity | discriminate H]
      end ].

Lemma iccjSlugify_falsy (x : option string) :
  truthyStr x = false -> Slug.iccjSlugify x = "".
Proof. by destruct x as [[|]|]. Qed.

(** The slug chosen: the one given when it is not empty, that of the
    name of the player otherwise. *)
Ltac slug_choice :=
  unfold Slug.orElse;
  first
    [ match goal with
      | H : negb (Slug.nonEmpty ?a) = false
        |- _ = (if Slug.nonEmpty ?a then _ else _) =>
          destruct (Slug.nonEmpty a); [reflexivity|discriminate H]
      end
    | match goal with
      | H : negb (Slug.nonEmpty ?a) = true
        |- _ = (if Slug.nonEmpty ?a then _ else _) =>
          destruct (Slug.nonEmpty a); [discriminate H|reflexivity]
      end
    | match goal with
      | H : truthyStr (prm_hostSlug _) = false |- _ =>
          rewrite (iccjSlugify_falsy _ H); reflexivity
      end ].

Ltac slug_given :=
  match goal with
  | H : negb ?b = false |- ?b = true => by destruct b
  end.

(** What an accepted CREATE_MATCH request that carries no slug has
    found and done. *)
Lemma handleCreateMatch_accepted (o : Oracle) (k : SocketID) (prm : Params)
      (c c' : Ctx) :
  truthyStr (prm_hostSlug prm) = false ->
  handleCreateMatch loadRule matchLength o k (Some prm) c = (Ok true, c') ->
  exists sk' (pr : PlayerRef) hp (mr : MatchRef),
    clients (srv c') !! k = Some sk'
    /\ sk_player sk' = Some pr /\ sk_match sk' = Some mr
    /\ players (srv c') !! pr = Some hp
    /\ (Slug.nonEmpty (Slug.iccjSafeDisplayName (prm_playerName prm)) = true ->
        p_name hp = Slug.iccjSafeDisplayName (prm_playerName prm))
    /\ Slug.nonEmpty (Slug.iccjSlugify (Some (p_name hp))) = true
    /\ reply c' !! "hostSlug" = Some (VStr (Slug.iccjSlugify (Some (p_name hp))))
    /\ getOpenMatchByHostSlug (srv c') (Slug.iccjSlugify (Some (p_name hp))) = Some mr
    /\ (inPlay (srv c) -> inPlay (srv c')).
Proof.
  intros Hs.
  apply (accepted_inv _ (fun c' => exists sk' (pr : PlayerRef) hp (mr : MatchRef),
    clients (srv c') !! k = Some sk'
    /\ sk_player sk' = Some pr /\ sk_match sk' = Some mr
    /\ players (srv c') !! pr = Some hp
    /\ (Slug.nonEmpty (Slug.iccjSafeDisplayName (prm_playerName prm)) = true ->
        p_name hp = Slug.iccjSafeDisplayName (prm_playerName prm))
    /\ Slug.nonEmpty (Slug.iccjSlugify (Some (p_name hp))) = true
    /\ reply c' !! "hostSlug" = Some (VStr (Slug.iccjSlugify (Some (p_name hp))))
    /\ getOpenMatchByHostSlug (srv c') (Slug.iccjSlugify (Some (p_name hp))) = Some mr
    /\ (inPlay (srv c) -> inPlay (srv c')))).
  destruct c as [[cl pl ma he] rp sa ou].
  unfold handleCreateMatch. cbn [mbind option_bind].
  rewrite Hs. cbv beta iota zeta delta [accepted].
  mautof; try exact I; try absurd_branch.
  all: lazymatch goal with
       | Hk : _ !! _ = Some ?s, Hpl : sk_player ?s = Some ?n, Hp : _ !! ?n = Some ?p,
         Ho : getOpenMatchByHostSlug _ _ = Some ?n0 |- _ =>
           exists (Socket_rule (Some (loadRule RuleBgCasual)) (Socket_match (Some n0) s)),
                  n, p, n0;
           split; [by rewrite !lookup_alter_eq, Hk|];
           split; [exact Hpl|]; split; [reflexivity|]; split; [exact Hp|];
           split; [display_name|];
           split; [slug_given|];
           split; [solve_field|];
           split; [exact Ho|exact id]
       | Hk : _ !! _ = Some ?s, Hpl : sk_player ?s = Some ?n, Hp : _ !! ?n = Some ?p,
         Ho : getOpenMatchByHostSlug ?s0 _ = None |- _ =>
           eexists _, n, _, _;
           split; [by rewrite !lookup_alter_eq, Hk|];
           split; [exact Hpl|]; split; [reflexivity|];
           split; [rewrite list_lookup_alter_eq, list_lookup_alter_eq, Hp; reflexivity|];
           change (p_name (Player_currentPieceType _ (Player_currentMatch _ p)))
             with (p_name p);
           split; [display_name|];
           split; [slug_given|];
           split; [solve_field|];
           split;
           [ eapply (getOpenMatchByHostSlug_new s0);
             [ apply SlugFacts.iccjSlugify_idem
             | slug_given
             | exact Ho
             | intros r; cbn [players]; destruct (decide (r = n)) as [->|];
               [ by rewrite list_lookup_alter_eq, list_lookup_alter_eq, Hp
               | by rewrite !list_lookup_alter_ne ]
             | cbn [matches]; rewrite alter_app_r_alt by done;
               rewrite Nat.sub_diag; reflexivity
             | reflexivity .. ]
           | intros Hin mr m Hm; rewrite alter_app_r_alt in Hm by done;
             rewrite Nat.sub_diag in Hm;
             apply lookup_app_Some in Hm as [Hm|[_ Hm]]; [by apply (Hin mr)|];
             apply list_lookup_singleton_Some in Hm as [_ <-]; done ]
       end.
Qed.

(** What an accepted CREATE_MATCH request has found and done, whether
    it carries a slug or not. *)
Lemma handleCreateMatch_accepted_any (o : Oracle) (k : SocketID) (prm : Params)
      (c c' : Ctx) :
  handleCreateMatch loadRule matchLength o k (Some prm) c = (Ok true, c') ->
  exists sk' (pr : PlayerRef) hp (mr : MatchRef) sl,
    clients (srv c') !! k = Some sk'
    /\ sk_player sk' = Some pr /\ sk_match sk' = Some mr
    /\ players (srv c') !! pr = Some hp
    /\ (Slug.nonEmpty (Slug.iccjSafeDisplayName (prm_playerName prm)) = true ->
        p_name hp = Slug.iccjSafeDisplayName (prm_playerName prm))
    /\ reply c' !! "hostSlug" = Some (VStr sl)
    /\ sl = Slug.orElse (Slug.iccjSlugify (prm_hostSlug prm))
                        (Slug.iccjSlugify (Some (p_name hp)))
    /\ Slug.nonEmpty sl = true
    /\ Slug.iccjSlugify (Some sl) = sl
    /\ getOpenMatchByHostSlug (srv c') sl = Some mr
    /\ (inPlay (srv c) -> inPlay (srv c')).
Proof.
  apply (accepted_inv _ (fun c' => exists sk' (pr : PlayerRef) hp (mr : MatchRef) sl,
    clients (srv c') !! k = Some sk'
    /\ sk_player sk' = Some pr /\ sk_match sk' = Some mr
    /\ players (srv c') !! pr = Some hp
    /\ (Slug.nonEmpty (Slug.iccjSafeDisplayName (prm_playerName prm)) = true ->
        p_name hp = Slug.iccjSafeDisplayName (prm_playerName prm))
    /\ reply c' !! "hostSlug" = Some (VStr sl)
    /\ sl = Slug.orElse (Slug.iccjSlugify (prm_hostSlug prm))
                        (Slug.iccjSlugify (Some (p_name hp)))
    /\ Slug.nonEmpty sl = true
    /\ Slug.iccjSlugify (Some sl) = sl
    /\ getOpenMatchByHostSlug (srv c') sl = Some mr
    /\ (inPlay (srv c) -> inPlay (srv c')))).
  destruct c as [[cl pl ma he] rp sa ou].
  unfold handleCreateMatch. cbn [mbind option_bind].
  cbv beta iota zeta delta [accepted].
  mautof; try exact I; try absurd_branch.
  all: lazymatch goal with
       | Hk : _ !! _ = Some ?s, Hpl : sk_player ?s = Some ?n, Hp : _ !! ?n = Some ?p,
         Ho : getOpenMatchByHostSlug _ _ = Some ?n0 |- _ =>
           exists (Socket_rule (Some (loadRule RuleBgCasual)) (Socket_match (Some n0) s)),
                  n, p, n0;
           eexists;
           split; [by rewrite !lookup_alter_eq, Hk|];
           split; [exact Hpl|]; split; [reflexivity|]; split; [exact Hp|];
           split; [display_name|];
           split; [solve_field|];
           split; [slug_choice|];
           split; [slug_given|];
           split; [apply SlugFacts.iccjSlugify_idem|];
           split; [exact Ho|exact id]
       | Hk : _ !! _ = Some ?s, Hpl : sk_player ?s = Some ?n, Hp : _ !! ?n = Some ?p,
         Ho : getOpenMatchByHostSlug ?s0 _ = None |- _ =>
           eexists _, n, _, _, _;
           split; [by rewrite !lookup_alter_eq, Hk|];
           split; [exact Hpl|]; split; [reflexivity|];
           split; [rewrite list_lookup_alter_eq, list_lookup_alter_eq, Hp; reflexivity|];
           change (p_name (Player_currentPieceType _ (Player_currentMatch _ p)))
             with (p_name p);
           split; [display_name|];
           split; [solve_field|];
           split; [slug_choice|];
           split; [slug_given|];
           split; [apply SlugFacts.iccjSlugify_idem|];
           split;
           [ eapply (getOpenMatchByHostSlug_new s0);
             [ apply SlugFacts.iccjSlugify_idem
             | slug_given
             | exact Ho
             | intros r; cbn [players]; destruct (decide (r = n)) as [->|];
               [ by rewrite list_lookup_alter_eq, list_lookup_alter_eq, Hp
               | by rewrite !list_lookup_alter_ne ]
             | cbn [matches]; rewrite alter_app_r_alt by done;
               rewrite Nat.sub_diag; reflexivity
             | reflexivity .. ]
           | intros Hin mr m Hm; rewrite alter_app_r_alt in Hm by done;
             rewrite Nat.sub_diag in Hm;
             apply lookup_app_Some in Hm as [Hm|[_ Hm]]; [by apply (Hin mr)|];
             apply list_lookup_singleton_Some in Hm as [_ <-]; done ]
       end.
Qed.

(** A JOIN_MATCH request by a slug that resolves to the open match
    [mr] seats the player of the connection as guest of [mr]. *)
Lemma handleJoinMatch_resolves (k : SocketID) (prm : Params) (c : Ctx)
      (h : string) (mr : MatchRef) sk (gr : PlayerRef) g :
  prm_hostSlug prm = Some h ->
  truthyStr (Some h) = true ->
  getOpenMatchByHostSlug (srv c) (Slug.iccjSlugify (Some h)) = Some mr ->
  inPlay (srv c) ->
  clients (srv c) !! k = Some sk -> sk_player sk = Some gr ->
  players (srv c) !! gr = Some g ->
  exists c' m m',
    handleJoinMatch loadRule k (Some prm) c = (Ok true, c')
    /\ length (matches (srv c')) = length (matches (srv c))
    /\ (exists sk', clients (srv c') !! k = Some sk' /\ sk_match sk' = Some mr)
    /\ matches (srv c) !! mr = Some m
    /\ matches (srv c') !! mr = Some m'
    /\ m_guest m = None /\ m_guest m' = Some gr
    /\ m_id m' = m_id m /\ m_host m' = m_host m
    /\ (forall r : MatchRef, r <> mr -> matches (srv c') !! r = matches (srv c) !! r).
Proof.
  intros Hh Ht Hopen Hin Hk Hgr Hg.
  destruct (getOpenMatchByHostSlug_open _ _ _ Hopen) as (m & Hm & Hguest & _).
  destruct (m_currentGame m) as [game|] eqn:Hgame; [|by destruct (Hin mr m Hm)].
  destruct c as [[cl pl ma he] rp sa ou]. cbn [srv clients players matches heap] in *.
  unfold handleJoinMatch. cbn [mbind option_bind]. rewrite Hh, Ht.
  mfull. rewrite Hopen. mfull. rewrite Hm. mfull. rewrite Hguest. cbn [isSomeB].
  rewrite Hk. mfull. rewrite Hgr. mfull. rewrite Hg. mfull.
  do 3 (rewrite ?list_lookup_alter_eq, ?Hm;
        cbn [fmap option_fmap option_map m_currentGame Match_name Match_slug
             Match_guestName Match_hostName Match_addGuestPlayer Match_players
             Match_guest Match_currentGame];
        rewrite ?Hgame; mfull).
  eexists _, m, _. split; [reflexivity|]. mfull.
  split; [by rewrite !length_alter|].
  split; [eexists; by rewrite !lookup_alter_eq, Hk|].
  split; [reflexivity|].
  split; [by rewrite !list_lookup_alter_eq, ?Hm|].
  split; [exact Hguest|].
  repeat (split; [reflexivity|]).
  intros r Hr. by rewrite !list_lookup_alter_ne.
Qed.

(** C6, as amended.  The slug of a match opened by CREATE_MATCH is
    [iccjSlugify] of the slug the request gives when that is not
    empty, and [iccjSlugify] of the display name of the host otherwise
    (the name is trimmed and put in lower case, every run of
    characters other than [a-z0-9] becomes one dash, and the dashes at
    both ends are dropped), so that the display name ["Alice "] with
    no slug given yields ["alice"].  The request binds the connection
    to the open match [mr] that this slug resolves to, and every slug
    that differs from it in case or in surrounding white space only,
    such as ["ALICE"], resolves to [mr] too.  As long as the slug
    resolves to [mr], a JOIN_MATCH request that carries such a variant
    is accepted, seats the player of its connection as guest of [mr],
    binds the connection to [mr], and leaves the number of matches and
    every other match as they were. *)
Theorem slug_pairing (o : Oracle) (k : SocketID) (prm : Params) (c c' : Ctx) :
  handleCreateMatch loadRule matchLength o k (Some prm) c = (Ok true, c') ->
  exists sk' (pr : PlayerRef) hp (mr : MatchRef) sl,
    clients (srv c') !! k = Some sk'
    /\ sk_player sk' = Some pr /\ sk_match sk' = Some mr
    /\ players (srv c') !! pr = Some hp
    /\ (Slug.nonEmpty (Slug.iccjSafeDisplayName (prm_playerName prm)) = true ->
        p_name hp = Slug.iccjSafeDisplayName (prm_playerName prm))
    /\ sl = Slug.orElse (Slug.iccjSlugify (prm_hostSlug prm))
                        (Slug.iccjSlugify (Some (p_name hp)))
    /\ (truthyStr (prm_hostSlug prm) = false ->
        sl = Slug.iccjSlugify (Some (p_name hp)))
    /\ reply c' !! "hostSlug" = Some (VStr sl)
    /\ (inPlay (srv c) -> inPlay (srv c'))
    /\ (forall h, Slug.variant h sl ->
                  getOpenMatchByHostSlug (srv c') (Slug.iccjSlugify (Some h)) = Some mr)
    /\ (forall h (k2 : SocketID) (prm2 : Params) (c2 : Ctx) sk2 (gr : PlayerRef) g,
          Slug.variant h sl ->
          prm_hostSlug prm2 = Some h ->
          getOpenMatchByHostSlug (srv c2) sl = Some mr ->
          inPlay (srv c2) ->
          clients (srv c2) !! k2 = Some sk2 -> sk_player sk2 = Some gr ->
          players (srv c2) !! gr = Some g ->
          exists c3 m m3,
            handleJoinMatch loadRule k2 (Some prm2) c2 = (Ok true, c3)
            /\ length (matches (srv c3)) = length (matches (srv c2))
            /\ (exists sk3, clients (srv c3) !! k2 = Some sk3 /\ sk_match sk3 = Some mr)
            /\ matches (srv c2) !! mr = Some m
            /\ matches (srv c3) !! mr = Some m3
            /\ m_guest m = None /\ m_guest m3 = Some gr
            /\ m_id m3 = m_id m /\ m_host m3 = m_host m
            /\ (forall r : MatchRef,
                  r <> mr -> matches (srv c3) !! r = matches (srv c2) !! r))
    /\ Slug.iccjSlugify (Some (Slug.iccjSafeDisplayName (Some "Alice "))) = "alice"
    /\ Slug.variant "ALICE" "alice".
Proof.
  intros Hc.
  destruct (handleCreateMatch_accepted_any o k prm c c' Hc)
    as (sk' & pr & hp & mr & sl & Hk & Hpr & Hmr & Hhp & Hname & Hrep & Hsl & Hne
        & Hid & Hopen & Hin).
  assert (Hvar : forall h, Slug.variant h sl -> Slug.iccjSlugify (Some h) = sl).
  { intros h Hh. by rewrite (SlugFacts.iccjSlugify_variant _ _ Hh). }
  exists sk', pr, hp, mr, sl.
  do 4 (split; [assumption|]). split; [exact Hname|]. split; [exact Hsl|].
  split; [|split; [exact Hrep|]; split; [exact Hin|]; split; [|split; [|split]]].
  - intros Hs. rewrite Hsl. by rewrite (iccjSlugify_falsy _ Hs).
  - intros h Hh. by rewrite (Hvar h Hh).
  - intros h k2 prm2 c2 sk2 gr g Hh Hprm Hres Hin2 Hk2 Hgr Hg.
    apply (handleJoinMatch_resolves k2 prm2 c2 h mr sk2 gr g); try assumption.
    + apply iccjSlugify_truthy. by rewrite (Hvar h Hh).
    + by rewrite (Hvar h Hh).
  - vm_compute; reflexivity.
  - exists "", "ALICE", "". split; [reflexivity|].
    split; [constructor|]. split; [constructor|]. reflexivity.
Qed.

(** *** Reconnection *)

(** C8, as amended.  A CREATE_GUEST request that arrives on a
    connection to which no player is bound yet, and that carries the id
    of an existing player whose current match exists and is not over,
    is accepted: the connection is bound to that player, to that match
    and to the rule of the match, the player is the same object with
    its [socketID] set to the connection, no player is added, the
    matches (and so the games) and the boards are untouched, and the
    reply is marked [reconnected]. *)
Theorem reconnect_rebinds (o : Oracle) (k : SocketID) (prm : Params) (c : Ctx)
        sk (r : PlayerRef) p (mr : MatchRef) m rn :
  clients (srv c) !! k = Some sk ->
  sk_player sk = None ->
  truthyNum (prm_playerID prm) = true ->
  getPlayerByID (srv c) (prm_playerID prm) = Some r ->
  players (srv c) !! r = Some p ->
  getMatchByID (srv c) (p_currentMatch p) = Some mr ->
  matches (srv c) !! mr = Some m ->
  m_isOver m = false ->
  m_ruleName m = Some rn ->
  exists c',
    handleCreateGuest loadRule o k (Some prm) c = (Ok true, c')
    /\ (exists sk', clients (srv c') !! k = Some sk'
                    /\ sk_player sk' = Some r /\ sk_match sk' = Some mr
                    /\ sk_rule sk' = Some (loadRule rn))
    /\ (exists p', players (srv c') !! r = Some p'
                   /\ p_id p' = p_id p /\ p_socketID p' = Some k
                   /\ p_currentMatch p' = p_currentMatch p
                   /\ p_currentPieceType p' = p_currentPieceType p)
    /\ length (players (srv c')) = length (players (srv c))
    /\ (forall r' : PlayerRef, r' <> r -> players (srv c') !! r' = players (srv c) !! r')
    /\ matches (srv c') = matches (srv c)
    /\ heap (srv c') = heap (srv c)
    /\ reply c' !! "reconnected" = Some (VBool true)
    /\ reply c' !! "player" = Some (VPlayer r)
    /\ sendAfter c' = Some [ToPlayer r EVENT_MATCH_START (matchParams mr)].
Proof.
  intros Hk Hnone Hid Hr Hp Hmr Hm Hover Hrn.
  destruct c as [[cl pl ma he] rp sa ou]. cbn [srv clients players matches heap] in *.
  unfold getPlayerByID, getMatchByID in *. cbn [players matches] in *.
  unfold handleCreateGuest.
  mfull. rewrite Hk. mfull. rewrite Hnone. cbn [isSomeB negb andb mbind option_bind].
  rewrite Hid. unfold getPlayerByID. cbn [players]. rewrite Hr. mfull.
  destruct (Slug.nonEmpty _) eqn:Hname; mfull.
  - rewrite list_lookup_alter_eq, list_lookup_alter_eq, Hp. cbn [fmap option_fmap option_map].
    mfull. unfold getMatchByID. cbn [matches p_currentMatch Player_name Player_socketID].
    rewrite Hmr. mfull. rewrite Hm. mfull. rewrite Hover. cbn [negb]. mfull.
    rewrite Hrn. mfull.
    eexists. split; [reflexivity|]. mfull.
    split.
    { eexists. rewrite !lookup_alter_eq, Hk. split; [reflexivity|]. done. }
    split.
    { eexists. rewrite !list_lookup_alter_eq, Hp. split; [reflexivity|]. done. }
    split; [by rewrite !length_alter|].
    split; [intros r' Hne; by rewrite !list_lookup_alter_ne|].
    repeat (split; [reflexivity || solve_field|]). reflexivity.
  - rewrite list_lookup_alter_eq, Hp. cbn [fmap option_fmap option_map].
    mfull. unfold getMatchByID. cbn [matches p_currentMatch Player_name Player_socketID].
    rewrite Hmr. mfull. rewrite Hm. mfull. rewrite Hover. cbn [negb]. mfull.
    rewrite Hrn. mfull.
    eexists. split; [reflexivity|]. mfull.
    split.
    { eexists. rewrite !lookup_alter_eq, Hk. split; [reflexivity|]. done. }
    split.
    { eexists. rewrite !list_lookup_alter_eq, Hp. split; [reflexivity|]. done. }
    split; [by rewrite !length_alter|].
    split; [intros r' Hne; by rewrite !list_lookup_alter_ne|].
    repeat (split; [reflexivity || solve_field|]). reflexivity.
Qed.

(** *** Undoing the moves of a turn *)

Lemma boundTo_spec (s : Server) (k : SocketID) (mr : MatchRef) :
  boundTo s k mr = true ->
  exists sk, clients s !! k = Some sk /\ sk_match sk = Some mr.
Proof.
  unfold boundTo. destruct (clients s !! k) as [sk|]; [|done].
  destruct (sk_match sk) as [r|] eqn:E; [|done].
  intros H%Nat.eqb_eq. subst. by exists sk.
Qed.

(** Writing a board other than the snapshot keeps the snapshot. *)
Lemma writeState_held (mr : MatchRef) (snap l : loc) (st0 st : State) (c : Ctx) :
  l <> snap ->
  snapshotHeld mr snap st0 (srv c) ->
  snapshotHeld mr snap st0 (srv (snd (writeState l st c))).
Proof.
  intros Hl (m & g & Hm & Hg & Hsnap & Hne & Hheap). destruct c as [s rp sa ou].
  exists m, g. cbn. repeat (split; [done|]). by rewrite lookup_insert_ne.
Qed.

(** An update of a current game that keeps its board and its snapshot
    keeps the snapshot. *)
Lemma modifyCurrentGame_held (mr r : MatchRef) (snap : loc) (st0 : State)
      (f : Game -> Game) (c : Ctx) :
  (forall g, g_state (f g) = g_state g /\ g_snapshot (f g) = g_snapshot g) ->
  snapshotHeld mr snap st0 (srv c) ->
  snapshotHeld mr snap st0 (srv (snd (modifyCurrentGame r f c))).
Proof.
  intros Hf Hheld. destruct c as [s rp sa ou]. unfold modifyCurrentGame. msimpl.
  destruct (matches s !! r) as [m'|] eqn:Hm'; msimpl; [|done].
  destruct (m_currentGame m') as [g'|] eqn:Hg'; msimpl; [|done].
  destruct Hheld as (m & g & Hm & Hg & Hsnap & Hne & Hheap).
  unfold snapshotHeld, modifyMatch, modifyServer. cbn.
  destruct (decide (r = mr)) as [->|Hr].
  - rewrite Hm in Hm'. injection Hm' as <-. rewrite Hg in Hg'. injection Hg' as <-.
    exists (Match_currentGame (Some (f g)) m), (f g).
    rewrite list_lookup_alter_eq, Hm. destruct (Hf g) as [-> ->]. by repeat split.
  - exists m, g. rewrite list_lookup_alter_ne by done. by repeat split.
Qed.

(** One step along the trace of a handler. *)
Ltac held_step :=
  match goal with
  | H : writeState ?l ?st ?c = (_, ?c'), Hne : ?l <> _,
    Hh : snapshotHeld _ _ _ _ |- _ =>
      let Hx := fresh "Hheld" in
      pose proof (writeState_held _ _ l _ st c Hne Hh) as Hx;
      rewrite H in Hx; cbn [snd] in Hx; clear H
  | H : modifyCurrentGame ?r ?f ?c = (_, ?c'), Hh : snapshotHeld _ _ _ _ |- _ =>
      let Hx := fresh "Hheld" in
      pose proof (modifyCurrentGame_held _ r _ _ f c
                    ltac:(intros []; split; reflexivity) Hh) as Hx;
      rewrite H in Hx; cbn [snd] in Hx; clear H
  | H : sendMatchMessage ?r ?msg ?prm ?c = (_, ?c'),
    Hh : snapshotHeld ?mr ?snap ?st0 _ |- _ =>
      let Hx := fresh "Hheld" in
      assert (Hx : snapshotHeld mr snap st0 (srv c'))
        by (pose proof (sendMatchMessage_srv r msg prm c) as Hx;
            rewrite H in Hx; cbn [snd srv] in Hx; rewrite Hx; exact Hh);
      clear H
  end.

(** A MOVE_PIECE request on a connection of the match, whatever its
    outcome, keeps the snapshot. *)
Lemma handleMovePiece_held (k : SocketID) (params : option Params) (c : Ctx)
      (mr : MatchRef) (snap : loc) (st0 : State) :
  boundTo (srv c) k mr = true ->
  snapshotHeld mr snap st0 (srv c) ->
  snapshotHeld mr snap st0 (srv (snd (handleMovePiece DEBUG k params c))).
Proof.
  intros (sk & Hk & Hsk)%boundTo_spec Hheld.
  pose proof Hheld as (m & g & Hm & Hg & Hsnap & Hne & Hheap).
  destruct c as [s rp sa ou]. cbn [srv] in *.
  unfold handleMovePiece, tryCatch. mauto.
  all: cbn [snd srv] in *; repeat held_step; assumption.
Qed.

Lemma playMoves_held (mr : MatchRef) (snap : loc) (st0 : State)
      (reqs : list (SocketID * Params)) (s s' : Server) :
  playMoves DEBUG mr reqs s = Some s' ->
  snapshotHeld mr snap st0 s -> snapshotHeld mr snap st0 s'.
Proof.
  revert s. induction reqs as [|[k prm] t IH]; intros s; cbn [playMoves].
  - by intros [= <-].
  - destruct (boundTo s k mr) eqn:Hb; [|done].
    intros Hrun Hheld.
    pose proof (handleMovePiece_held k (Some prm)
                  (mkCtx s (initialReply (Some prm)) None []) mr snap st0 Hb Hheld)
      as Hnext.
    destruct (handleMovePiece _ _ _ _) as [[b|] c']; [|done].
    by apply (IH (srv c')).
Qed.

(** What an accepted ROLL_DICE request leaves: the board is as it was
    and its snapshot is held. *)
Lemma handleRollDice_held (o : Oracle) (k : SocketID) (params : option Params)
      (c c' : Ctx) sk (mr : MatchRef) :
  clients (srv c) !! k = Some sk -> sk_match sk = Some mr ->
  handleRollDice o k params c = (Ok true, c') ->
  exists st0 snap,
    boardOf (srv c) mr = Some st0
    /\ boardOf (srv c') mr = Some st0
    /\ snapshotHeld mr snap st0 (srv c').
Proof.
  intros Hk Hsk H.
  apply handleRollDice_accepted in H
    as (sk' & mr' & m & game & pr & p & rule & st & Hk' & Hm' & _ & _ & Hmr & Hg
        & _ & Hst & _ & _ & Hsrv & _).
  rewrite Hk in Hk'. injection Hk' as <-. rewrite Hsk in Hm'. injection Hm' as <-.
  pose proof (fresh_loc_None (srv c)) as Hfresh.
  assert (Hne : g_state game <> fresh (dom (heap (srv c)))).
  { intros E. rewrite <- E in Hfresh. congruence. }
  exists st, (fresh (dom (heap (srv c)))). rewrite Hsrv.
  split; [|split].
  - unfold boardOf. rewrite Hmr. cbn. rewrite Hg. cbn. exact Hst.
  - unfold boardOf. erewrite matches_setMatch_eq by exact Hmr. cbn.
    by rewrite lookup_insert_ne.
  - eexists _, _. erewrite matches_setMatch_eq by exact Hmr.
    split; [reflexivity|]. split; [reflexivity|]. split; [reflexivity|].
    split; [exact Hne|]. cbn. by rewrite lookup_insert_eq.
Qed.

(** What an accepted UNDO_MOVES request does when a snapshot is held:
    the board of the game is a new object that holds the value of the
    snapshot, and the snapshot is held still. *)
Lemma handleUndoMoves_held (k : SocketID) (params : option Params) (c c' : Ctx)
      (mr : MatchRef) (snap : loc) (st0 : State) :
  boundTo (srv c) k mr = true ->
  snapshotHeld mr snap st0 (srv c) ->
  handleUndoMoves k params c = (Ok true, c') ->
  boardOf (srv c') mr = Some st0 /\ snapshotHeld mr snap st0 (srv c').
Proof.
  intros (sk & Hk & Hsk)%boundTo_spec (m & g & Hm & Hg & Hsnap & Hne & Hheap).
  destruct c as [s rp sa ou]. cbn [srv] in *.
  unfold handleUndoMoves. mauto; try (intros [=]; fail).
  intros [= <-].
  match goal with H : Game_restoreState _ _ = _ |- _ =>
    erewrite Game_restoreState_eq in H by eassumption; injection H as _ <- end.
  match goal with H : sendMatchMessage ?r ?msg ?prm ?c = (_, ?c') |- _ =>
    pose proof (sendMatchMessage_srv r msg prm c) as Hsrv;
    rewrite H in Hsrv; cbn [snd srv] in Hsrv end.
  rewrite Hsrv.
  pose proof (fresh_loc_None s) as Hfresh.
  assert (Hfr : fresh (dom (heap s)) <> snap) by (intros E; congruence).
  split.
  - unfold boardOf. erewrite matches_setMatch_eq by exact Hm. cbn.
    by rewrite lookup_insert_eq.
  - eexists _, _. erewrite matches_setMatch_eq by exact Hm.
    split; [reflexivity|]. split; [reflexivity|]. split; [exact Hsnap|].
    split; [exact Hfr|]. cbn. by rewrite lookup_insert_ne.
Qed.

(** C2.  An accepted ROLL_DICE request on a connection of the match
    [mr] leaves the board as it was and retains a snapshot of it, a
    board object of its own.  After any run of MOVE_PIECE requests on
    connections of [mr], an accepted UNDO_MOVES request on a connection
    of [mr] leaves the game with a board equal to the board at the roll,
    in an object that is not the snapshot, and the snapshot still holds
    that value. *)
Theorem undo_restores_snapshot (o : Oracle) (k : SocketID) (params : option Params)
        (c0 c1 : Ctx) sk (mr : MatchRef) (reqs : list (SocketID * Params))
        (k' : SocketID) (params' : option Params) (c2 c3 : Ctx) :
  clients (srv c0) !! k = Some sk -> sk_match sk = Some mr ->
  handleRollDice o k params c0 = (Ok true, c1) ->
  playMoves DEBUG mr reqs (srv c1) = Some (srv c2) ->
  boundTo (srv c2) k' mr = true ->
  handleUndoMoves k' params' c2 = (Ok true, c3) ->
  exists st0 snap,
    boardOf (srv c0) mr = Some st0
    /\ snapshotHeld mr snap st0 (srv c1)
    /\ boardOf (srv c3) mr = Some st0
    /\ snapshotHeld mr snap st0 (srv c3).
Proof.
  intros Hk Hsk Hroll Hmoves Hk' Hundo.
  destruct (handleRollDice_held o k params c0 c1 sk mr Hk Hsk Hroll)
    as (st0 & snap & Hb0 & _ & Hheld1).
  pose proof (playMoves_held mr snap st0 reqs _ _ Hmoves Hheld1) as Hheld2.
  destruct (handleUndoMoves_held k' params' c2 c3 mr snap st0 Hk' Hheld2 Hundo)
    as [Hb3 Hheld3].
  by exists st0, snap.
Qed.

(** *** The request wrapper *)

Abbreviation M := (@M State Dice Piece MoveAction).

Lemma sendPlayerMessage_emits (r : PlayerRef) msg params (c : Ctx) :
  exists evs,
    snd (sendPlayerMessage r msg params c)
    = mkCtx (srv c) (reply c) (sendAfter c) (out c ++ evs)
    /\ Forall (fun e => e_msg e = msg /\ e_params e = params) evs.
Proof.
  destruct c as [s rp sa ou]. unfold sendPlayerMessage. msimpl.
  destruct (players s !! r) as [p|]; msimpl;
    [|exists []; by rewrite app_nil_r].
  destruct (p_socketID p) as [k'|]; msimpl;
    [|exists []; by rewrite app_nil_r].
  destruct (clients s !! k'); msimpl;
    [|exists []; by rewrite app_nil_r].
  eexists [_]. split; [reflexivity|]. by repeat constructor.
Qed.

Lemma sendMatchMessage_emits (r : MatchRef) msg params (c : Ctx) :
  exists evs,
    snd (sendMatchMessage r msg params c)
    = mkCtx (srv c) (reply c) (sendAfter c) (out c ++ evs)
    /\ Forall (fun e => e_msg e = msg /\ e_params e = params) evs.
Proof.
  destruct (matches (srv c) !! r) as [m|] eqn:Hm.
  - rewrite (sendMatchMessage_out r c m) by done. eexists. split; [reflexivity|].
    apply Forall_fmap, Forall_true. by intros k'.
  - destruct c as [s rp sa ou]. unfold sendMatchMessage. msimpl.
    cbn [srv] in Hm. rewrite Hm. msimpl. exists []. by rewrite app_nil_r.
Qed.

Lemma runDeferred_emits (ds : list Deferred) (c : Ctx) :
  exists evs,
    snd (forEach ds runDeferred c)
    = mkCtx (srv c) (reply c) (sendAfter c) (out c ++ evs)
    /\ Forall (fun e => exists d, d ∈ ds /\ e_msg e = d_msg d
                                  /\ e_params e = d_params d) evs.
Proof.
  revert c. induction ds as [|d ds IH]; intros c.
  - exists []. destruct c. cbn. by rewrite app_nil_r.
  - cbn [forEach]. unfold mbind at 1, M_bind at 1.
    assert (Hd : exists evs,
               snd (runDeferred d c)
               = mkCtx (srv c) (reply c) (sendAfter c) (out c ++ evs)
               /\ Forall (fun e => e_msg e = d_msg d /\ e_params e = d_params d) evs)
      by (destruct d; [apply sendMatchMessage_emits | apply sendPlayerMessage_emits]).
    destruct Hd as (evs1 & H1 & Hall1).
    assert (Hin1 : Forall (fun e => exists d', d' ∈ d :: ds /\ e_msg e = d_msg d'
                                              /\ e_params e = d_params d') evs1).
    { eapply Forall_impl; [exact Hall1|]. intros e He. exists d.
      split; [apply elem_of_cons; by left|done]. }
    destruct (runDeferred d c) as [[[]|] c1]; cbn [snd] in H1; subst c1.
    + destruct (IH (mkCtx (srv c) (reply c) (sendAfter c) (out c ++ evs1)))
        as (evs2 & H2 & Hall2).
      exists (evs1 ++ evs2)%list. rewrite H2. cbn [srv reply sendAfter out].
      rewrite app_assoc. split; [done|]. apply Forall_app. split; [done|].
      eapply Forall_impl; [exact Hall2|]. intros e (d' & Hd' & He).
      exists d'. split; [apply elem_of_cons; by right|done].
    + by exists evs1.
Qed.

(** What follows the handler in [handleRequest]: the reply is sent,
    then the deferred broadcasts. *)
Lemma serve_tail (msg : Message) (k : SocketID) (s1 : Server) (rep : Obj)
      (sa1 : option (list Deferred)) (ou1 : list Emit) :
  exists evs,
    (let '(_, c) :=
       match sa1 with
       | Some ds =>
           fun c : Ctx =>
             let (r0, c'0) := forEach ds runDeferred c in
             match r0 with
             | Ok _ => (Ok tt, mkCtx (srv c'0) (reply c'0) None (out c'0))
             | Thrown => (Thrown, c'0)
             end
       | None => fun c : Ctx => (Ok tt, c)
       end (mkCtx s1 rep sa1 (ou1 ++ [mkEmit k msg rep])%list)
     in (srv c, out c))
    = (s1, (ou1 ++ mkEmit k msg rep :: evs)%list)
    /\ (sa1 = None -> evs = [])
    /\ (forall e, e ∈ evs ->
          exists ds d, sa1 = Some ds /\ d ∈ ds
                       /\ e_msg e = d_msg d /\ e_params e = d_params d).
Proof.
  destruct sa1 as [ds|].
  - destruct (runDeferred_emits ds
                (mkCtx s1 rep (Some ds) (ou1 ++ [mkEmit k msg rep])%list))
      as (evs & Hevs & Hall).
    exists evs.
    destruct (forEach ds runDeferred _) as [[[]|] c2]; cbn [snd] in Hevs; subst c2;
      cbn [srv reply sendAfter out]; rewrite <- app_assoc;
      (split; [reflexivity|]; split; [done|]);
      intros e He; exists ds;
      destruct (proj1 (Forall_forall _ _) Hall e He) as (d & Hd' & Hm & Hp);
      by exists d.
  - exists []. split; [reflexivity|]. split; [done|].
    intros e He. by apply elem_of_nil in He.
Qed.

(** A request whose handler returns is answered by exactly one reply
    on the requesting connection: it carries the result of the handler
    and the match the connection is bound to, it comes after whatever
    the handler itself has emitted, and before the broadcasts the
    handler has deferred; those are all that follows. *)
Theorem reply_before_deferred (o : Oracle) (msg : Message) (k : SocketID)
        (params : option Params) (s : Server) h (b : bool) (c1 : Ctx) sk :
  dispatch loadRule matchLength DEBUG o msg k params = Some h ->
  h (mkCtx s (initialReply params) None []) = (Ok b, c1) ->
  clients (srv c1) !! k = Some sk ->
  exists evs,
    serve loadRule matchLength DEBUG o msg k params s
    = (srv c1,
       (out c1 ++ mkEmit k msg (finalReply b (sk_match sk) (reply c1)) :: evs)%list)
    /\ (sendAfter c1 = None -> evs = [])
    /\ (forall e, e ∈ evs ->
          exists ds d, sendAfter c1 = Some ds /\ d ∈ ds
                       /\ e_msg e = d_msg d /\ e_params e = d_params d).
Proof.
  intros Hd Hh Hk. destruct c1 as [s1 rp1 sa1 ou1]. cbn [srv reply sendAfter out] in *.
  unfold serve, handleRequest. rewrite Hd. msimpl. rewrite Hh. msimpl.
  rewrite Hk. msimpl.
  unfold finalReply. destruct (sk_match sk) as [mr|]; cbn [srv reply sendAfter out];
    apply serve_tail.
Qed.

(** *** The sequence number of the client *)

Lemma keeps_ret {A} (a : A) : keepsSeq (mret a : M A).
Proof. by intros c. Qed.

Lemma keeps_bind {A B} (m : M A) (f : A -> M B) :
  keepsSeq m -> (forall a, keepsSeq (f a)) -> keepsSeq (m ≫= f).
Proof.
  intros Hm Hf c. unfold mbind, M_bind. specialize (Hm c).
  destruct (m c) as [[a|] c1]; cbn [snd] in *; [|done].
  by rewrite (Hf a c1).
Qed.

Lemma keeps_throw {A} : keepsSeq (throw : M A).
Proof. by intros c. Qed.

Lemma keeps_deref {A} (x : option A) : keepsSeq (deref x : M A).
Proof. by destruct x. Qed.

Lemma keeps_getServer : keepsSeq (getServer : M Server).
Proof. by intros c. Qed.

Lemma keeps_modifyServer (f : Server -> Server) : keepsSeq (modifyServer f).
Proof. by intros c. Qed.

Lemma keeps_setSendAfter (d : option (list Deferred)) :
  keepsSeq (setSendAfter d : M unit).
Proof. by intros c. Qed.

Lemma keeps_emit (e : Emit) : keepsSeq (emit e : M unit).
Proof. by intros c. Qed.

Lemma keeps_setReply (key : string) (v : Val) :
  key <> "clientMsgSeq" -> keepsSeq (setReply key v : M unit).
Proof. intros Hk c. cbn. by rewrite lookup_insert_ne. Qed.

Lemma keeps_setReplyOpt (key : string) (v : option Val) :
  key <> "clientMsgSeq" -> keepsSeq (setReplyOpt key v : M unit).
Proof.
  intros Hk c. cbn. unfold withOpt.
  destruct v; [by rewrite lookup_insert_ne|by rewrite lookup_delete_ne].
Qed.

Lemma keeps_tryCatch {A} (body handler : M A) :
  keepsSeq body -> keepsSeq handler -> keepsSeq (tryCatch body handler).
Proof.
  intros Hb Hh c. unfold tryCatch. specialize (Hb c).
  destruct (body c) as [[a|] c1]; cbn [snd] in *; [done|].
  by rewrite (Hh c1).
Qed.

Lemma keeps_forEach {A} (l : list A) (f : A -> M unit) :
  (forall a, keepsSeq (f a)) -> keepsSeq (forEach l f).
Proof.
  intros Hf. induction l as [|a t IH]; cbn [forEach].
  - apply keeps_ret.
  - apply keeps_bind; [apply Hf|done].
Qed.

(** Going through a computation, one operation at a time. *)
Ltac head_of t :=
  lazymatch t with
  | ?f _ => head_of f
  | _ => t
  end.

Ltac keeps_step :=
  lazymatch goal with
  | |- keepsSeq (mbind _ _) => apply keeps_bind; [|intros ?]
  | |- keepsSeq (mret _) => apply keeps_ret
  | |- keepsSeq throw => apply keeps_throw
  | |- keepsSeq (deref _) => apply keeps_deref
  | |- keepsSeq getServer => apply keeps_getServer
  | |- keepsSeq (modifyServer _) => apply keeps_modifyServer
  | |- keepsSeq (setSendAfter _) => apply keeps_setSendAfter
  | |- keepsSeq (emit _) => apply keeps_emit
  | |- keepsSeq (setReply _ _) => apply keeps_setReply; discriminate
  | |- keepsSeq (setReplyOpt _ _) => apply keeps_setReplyOpt; discriminate
  | |- keepsSeq (tryCatch _ _) => apply keeps_tryCatch
  | |- keepsSeq (forEach _ _) => apply keeps_forEach; intros ?
  | |- keepsSeq (match ?x with _ => _ end) => destruct x
  | |- keepsSeq (let _ := _ in _) => cbv zeta
  | |- keepsSeq ((fun _ => _) _) => cbv beta
  | |- keepsSeq ?t => let h := head_of t in unfold h
  end.

Ltac keeps := repeat keeps_step.

Lemma keeps_endGame (o : Oracle) (k : SocketID) winner resigned :
  keepsSeq (endGame o k winner resigned : M bool).
Proof. unfold endGame. keeps. Qed.

(** No handler touches the sequence number. *)
Lemma dispatch_keeps (o : Oracle) (msg : Message) (k : SocketID)
      (params : option Params) h :
  dispatch loadRule matchLength DEBUG o msg k params = Some h -> keepsSeq h.
Proof.
  destruct msg; intros [= <-].
  - unfold handleCreateGuest. keeps.
  - unfold handleGetMatchList. keeps.
  - unfold handleCreateMatch. keeps.
  - unfold handleJoinMatch. keeps.
  - unfold handleRollDice. keeps.
  - unfold handleMovePiece. keeps.
  - unfold handleConfirmMoves.
    repeat first [apply keeps_endGame | keeps_step].
  - unfold handleUndoMoves. keeps.
  - unfold handleResignGame.
    repeat first [apply keeps_endGame | keeps_step].
  - unfold handleResignMatch. keeps.
Qed.

(** The reply to a request echoes the sequence number the client gave
    it, whatever the request and whatever its result; a request without
    a sequence number (or with 0) gets a reply without one.  This is
    what lets the client find the callback of the request. *)
Theorem reply_echoes_sequence (o : Oracle) (msg : Message) (k : SocketID)
        (params : option Params) (s : Server) h (b : bool) (c1 : Ctx) sk :
  dispatch loadRule matchLength DEBUG o msg k params = Some h ->
  h (mkCtx s (initialReply params) None []) = (Ok b, c1) ->
  clients (srv c1) !! k = Some sk ->
  exists (rep : Obj) evs,
    serve loadRule matchLength DEBUG o msg k params s
    = (srv c1, (out c1 ++ mkEmit k msg rep :: evs)%list)
    /\ rep !! "result" = Some (VBool b)
    /\ (forall n, params ≫= prm_clientMsgSeq = Some n -> n <> 0 ->
                  rep !! "clientMsgSeq" = Some (VNum n))
    /\ (truthyNum (params ≫= prm_clientMsgSeq) = false ->
        rep !! "clientMsgSeq" = None).
Proof.
  intros Hd Hh Hk.
  pose proof (dispatch_keeps o msg k params h Hd
                (mkCtx s (initialReply params) None [])) as Hseq.
  rewrite Hh in Hseq. cbn [snd reply] in Hseq.
  destruct c1 as [s1 rp1 sa1 ou1]. cbn [srv reply sendAfter out] in *.
  assert (Hrep : forall key, key <> "result" -> key <> "match" ->
            finalReply b (sk_match sk) rp1 !! key = rp1 !! key).
  { intros key H1 H2. unfold finalReply.
    destruct (sk_match sk); by rewrite ?lookup_insert_ne. }
  assert (Hres : finalReply b (sk_match sk) rp1 !! "result" = Some (VBool b)).
  { unfold finalReply. destruct (sk_match sk).
    - rewrite lookup_insert_ne by done. apply lookup_insert_eq.
    - apply lookup_insert_eq. }
  destruct (serve_tail msg k s1 (finalReply b (sk_match sk) rp1) sa1 ou1)
    as (evs & Hserve & _).
  exists (finalReply b (sk_match sk) rp1), evs. split; [|split; [|split]].
  - unfold serve, handleRequest. rewrite Hd. msimpl. rewrite Hh. msimpl.
    rewrite Hk. msimpl. rewrite <- Hserve.
    unfold finalReply. by destruct (sk_match sk).
  - exact Hres.
  - intros n Hn Hn0. rewrite Hrep, Hseq by done.
    unfold initialReply, truthyNum, withOpt. rewrite Hn.
    destruct (Z.eqb_spec n 0); [done|]. cbn. apply lookup_insert_eq.
  - intros Hf. rewrite Hrep, Hseq by done.
    unfold initialReply. rewrite Hf. done.
Qed.

(** A game request on a connection that is bound to no match reads a
    property of [undefined]: the handler throws, so the client gets no
    reply at all, and nothing is changed.  The same holds of MOVE_PIECE
    when a piece is given. *)
Theorem no_match_no_reply (o : Oracle) (msg : Message) (k : SocketID)
        (params : option Params) (s : Server) sk :
  clients s !! k = Some sk ->
  sk_match sk = None ->
  msg ∈ [ROLL_DICE; CONFIRM_MOVES; UNDO_MOVES; RESIGN_GAME; RESIGN_MATCH]
  \/ (msg = MOVE_PIECE /\ exists prm pc, params = Some prm /\ prm_piece prm = Some pc) ->
  serve loadRule matchLength DEBUG o msg k params s = (s, []).
Proof.
  intros Hk Hm Hmsg. unfold serve, handleRequest.
  destruct Hmsg as [Hmsg|(-> & prm & pc & -> & Hpc)].
  - repeat (apply elem_of_cons in Hmsg as [->|Hmsg]);
      [ unfold dispatch, handleRollDice
      | unfold dispatch, handleConfirmMoves
      | unfold dispatch, handleUndoMoves
      | unfold dispatch, handleResignGame
      | unfold dispatch, handleResignMatch
      | by apply elem_of_nil in Hmsg ];
      msimpl; rewrite Hk; msimpl; rewrite ?Hk; msimpl; rewrite ?Hk; msimpl;
      rewrite Hm; try reflexivity; destruct (sk_rule sk); reflexivity.
  - unfold dispatch, handleMovePiece. msimpl. rewrite Hk. msimpl. rewrite Hk. msimpl.
    rewrite Hk. msimpl. rewrite Hpc, Hm. reflexivity.
Qed.

(** *** The list of matches *)

(** The entry of a match in the list. *)
Lemma omap_filter_map {A B} (P : A -> bool) (f : A -> B) (l : list A) :
  omap (fun a => if P a then None else Some (f a)) l
  = map f (filter (fun a => P a = false) l).
Proof.
  induction l as [|a t IH]; [done|]. cbn [omap list_omap].
  rewrite filter_cons. destruct (P a) eqn:E.
  - rewrite decide_False by done. exact IH.
  - rewrite decide_True by done. cbn. by rewrite <- IH.
Qed.

(** GET_MATCH_LIST always succeeds and changes nothing.  It lists the
    matches that are not over, all of them and in their order, each
    with its id and with [isOpen] telling that the guest seat is free;
    a listed name is never empty (a match without a name is listed as
    ["Match <id>"]), and a listed slug is never the empty string. *)
Theorem match_list_shows_live_matches (k : SocketID) (params : option Params) (c : Ctx) :
  exists l,
    handleGetMatchList k params c
    = (Ok true, mkCtx (srv c) (<["list" := VList l]> (reply c)) (sendAfter c) (out c))
    /\ map i_id l = map m_id (filter (fun m => m_isOver m = false) (matches (srv c)))
    /\ map i_isOpen l
       = map (fun m => negb (isSomeB (m_guest m)))
             (filter (fun m => m_isOver m = false) (matches (srv c)))
    /\ Forall (fun i => i_name i <> "" /\ i_slug i <> Some ""
                        /\ i_hostSlug i <> Some "") l.
Proof.
  destruct c as [s rp sa ou]. unfold handleGetMatchList. msimpl.
  eexists. split; [reflexivity|].
  rewrite omap_filter_map. rewrite !map_map. cbn [i_id i_isOpen].
  split; [done|]. split; [done|].
  apply Forall_fmap, Forall_forall. intros m _. cbn. split; [|split].
  - destruct (m_name m) as [[|a n]|]; cbn; done.
  - destruct (m_slug m) as [[|a n]|]; cbn; done.
  - destruct (m_hostSlug m) as [[|a n]|]; cbn; done.
Qed.

(** *** Refused requests *)

(** The context a refused request leaves: the server, the messages
    emitted and the deferred broadcasts are as they were, and the reply
    has got an error text. *)
Ltac refused_frame :=
  cbn [fst snd]; try discriminate; intros _;
  repeat (split; [reflexivity|]); eexists; reflexivity.

Lemma handleRollDice_refused (o : Oracle) (k : SocketID) (params : option Params)
      (c : Ctx) :
  fst (handleRollDice o k params c) = Ok false ->
  untouched c (snd (handleRollDice o k params c)).
Proof.
  destruct c as [s rp sa ou]. unfold handleRollDice, untouched, Game_diceWasRolled.
  mauto; refused_frame.
Qed.

(** A refused ROLL_DICE request (no game, game not started, not the
    turn of the player, dice already rolled) changes nothing and
    notifies nobody: only the reply gets an error text. *)
Theorem roll_refused_is_silent (o : Oracle) (k : SocketID) (params : option Params)
        (c c' : Ctx) :
  handleRollDice o k params c = (Ok false, c') ->
  srv c' = srv c /\ out c' = out c /\ sendAfter c' = sendAfter c
  /\ exists text, reply c' = <["errorMessage" := VStr text]> (reply c).
Proof.
  intros H. pose proof (handleRollDice_refused o k params c) as Hr.
  rewrite H in Hr. exact (Hr eq_refl).
Qed.

Lemma handleConfirmMoves_refused (o : Oracle) (k : SocketID) (params : option Params)
      (c : Ctx) :
  fst (handleConfirmMoves o k params c) = Ok false ->
  let c' := snd (handleConfirmMoves o k params c) in
  srv c' = srv c /\ out c' = out c /\ sendAfter c' = sendAfter c
  /\ reply c' = <["errorMessage" := VStr "Confirming moves is not allowed!"]> (reply c)
  /\ exists sk rule mr m game gv,
       clients (srv c) !! k = Some sk /\ sk_rule sk = Some rule
       /\ sk_match sk = Some mr /\ matches (srv c) !! mr = Some m
       /\ m_currentGame m = Some game /\ viewOf (srv c) game = Some gv
       /\ validateConfirm rule gv (resolvePlayer (srv c) (sk_player sk)) = false.
Proof.
  destruct c as [s rp sa ou]. unfold handleConfirmMoves.
  mauto; cbn [fst snd]; try discriminate; intros _.
  repeat (split; [reflexivity|]).
  eexists _, _, _, _, _, _.
  repeat (split; [first [reflexivity | eassumption]|]).
  match goal with H : negb ?b = true |- ?b = false => by destruct b end.
Qed.

(** CONFIRM_MOVES is refused only when the rule does not let the player
    confirm; then the turn does not pass, nothing is changed and
    nobody is notified: the reply says that confirming is not allowed. *)
Theorem confirm_refused_is_silent (o : Oracle) (k : SocketID) (params : option Params)
        (c c' : Ctx) :
  handleConfirmMoves o k params c = (Ok false, c') ->
  srv c' = srv c /\ out c' = out c /\ sendAfter c' = sendAfter c
  /\ reply c' = <["errorMessage" := VStr "Confirming moves is not allowed!"]> (reply c)
  /\ exists sk rule mr m game gv,
       clients (srv c) !! k = Some sk /\ sk_rule sk = Some rule
       /\ sk_match sk = Some mr /\ matches (srv c) !! mr = Some m
       /\ m_currentGame m = Some game /\ viewOf (srv c) game = Some gv
       /\ validateConfirm rule gv (resolvePlayer (srv c) (sk_player sk)) = false.
Proof.
  intros H. pose proof (handleConfirmMoves_refused o k params c) as Hr.
  rewrite H in Hr. exact (Hr eq_refl).
Qed.

Lemma handleUndoMoves_refused (k : SocketID) (params : option Params) (c : Ctx) :
  fst (handleUndoMoves k params c) = Ok false ->
  let c' := snd (handleUndoMoves k params c) in
  srv c' = srv c /\ out c' = out c /\ sendAfter c' = sendAfter c
  /\ reply c' = <["errorMessage" := VStr "Undo moves is not allowed!"]> (reply c)
  /\ exists sk rule mr m game gv,
       clients (srv c) !! k = Some sk /\ sk_rule sk = Some rule
       /\ sk_match sk = Some mr /\ matches (srv c) !! mr = Some m
       /\ m_currentGame m = Some game /\ viewOf (srv c) game = Some gv
       /\ validateUndo rule gv (resolvePlayer (srv c) (sk_player sk)) = false.
Proof.
  destruct c as [s rp sa ou]. unfold handleUndoMoves.
  mauto; cbn [fst snd]; try discriminate; intros _.
  repeat (split; [reflexivity|]).
  eexists _, _, _, _, _, _.
  repeat (split; [first [reflexivity | eassumption]|]).
  match goal with H : negb ?b = true |- ?b = false => by destruct b end.
Qed.

(** UNDO_MOVES is refused only when the rule does not let the player
    undo; then the board stays as the moves left it, nothing else is
    changed and nobody is notified. *)
Theorem undo_refused_is_silent (k : SocketID) (params : option Params) (c c' : Ctx) :
  handleUndoMoves k params c = (Ok false, c') ->
  srv c' = srv c /\ out c' = out c /\ sendAfter c' = sendAfter c
  /\ reply c' = <["errorMessage" := VStr "Undo moves is not allowed!"]> (reply c)
  /\ exists sk rule mr m game gv,
       clients (srv c) !! k = Some sk /\ sk_rule sk = Some rule
       /\ sk_match sk = Some mr /\ matches (srv c) !! mr = Some m
       /\ m_currentGame m = Some game /\ viewOf (srv c) game = Some gv
       /\ validateUndo rule gv (resolvePlayer (srv c) (sk_player sk)) = false.
Proof.
  intros H. pose proof (handleUndoMoves_refused k params c) as Hr.
  rewrite H in Hr. exact (Hr eq_refl).
Qed.

Lemma handleJoinMatch_refused (k : SocketID) (params : option Params) (c : Ctx) :
  fst (handleJoinMatch loadRule k params c) = Ok false ->
  let c' := snd (handleJoinMatch loadRule k params c) in
  srv c' = srv c /\ out c' = out c /\ sendAfter c' = sendAfter c
  /\ exists text,
       reply c' = <["errorMessage" := VStr text]> (reply c)
       /\ text ∈ ["Match not found!"; "Match is full!"; "Player not found!"].
Proof.
  destruct c as [[cl pl ma he] rp sa ou]. unfold handleJoinMatch.
  mautof; cbn [fst snd]; try discriminate; intros _;
    (repeat (split; [reflexivity|])); eexists; (split; [reflexivity|]);
    repeat first [ apply elem_of_cons; left; reflexivity | apply elem_of_cons; right ].
Qed.

(** A refused JOIN_MATCH request (no such match, match full, no player
    on the connection) changes nothing: no seat is taken, no game is
    started, nobody is notified. *)
Theorem join_refused_changes_nothing (k : SocketID) (params : option Params)
        (c c' : Ctx) :
  handleJoinMatch loadRule k params c = (Ok false, c') ->
  srv c' = srv c /\ out c' = out c /\ sendAfter c' = sendAfter c
  /\ exists text,
       reply c' = <["errorMessage" := VStr text]> (reply c)
       /\ text ∈ ["Match not found!"; "Match is full!"; "Player not found!"].
Proof.
  intros H. pose proof (handleJoinMatch_refused k params c) as Hr.
  rewrite H in Hr. exact (Hr eq_refl).
Qed.

Lemma negb_nonEmpty (x : string) : negb (Slug.nonEmpty x) = true -> x = "".
Proof. by destruct x. Qed.

Lemma nonEmpty_ne (x : string) : Slug.nonEmpty x = true -> x <> "".
Proof. by destruct x. Qed.

Lemma nonEmpty_false (x : string) : Slug.nonEmpty x = false -> x = "".
Proof. by destruct x. Qed.

(** The display name of the request is empty, or it is not. *)
Ltac name_empty :=
  first [ by apply iccjSafeDisplayName_falsy
        | by apply nonEmpty_false
        | by apply negb_nonEmpty ].
Ltac renamed :=
  let Hx := fresh in
  intros Hx;
  first [ exfalso; apply Hx; name_empty
        | split;
          [ reflexivity
          | match goal with
            | H : alter _ ?n ?pl !! ?n = Some _ |- _ =>
                rewrite list_lookup_alter_eq in H; destruct (pl !! n); cbn in H;
                [injection H as <-; reflexivity | discriminate H]
            end ] ].
Ltac kept :=
  let Hx := fresh in
  intros Hx;
  first [ reflexivity
        | exfalso;
          match goal with
          | H : Slug.nonEmpty _ = true |- _ => rewrite Hx in H; discriminate H
          end ].

Lemma handleCreateMatch_refused (o : Oracle) (k : SocketID) (params : option Params)
      (c : Ctx) :
  fst (handleCreateMatch loadRule matchLength o k params c) = Ok false ->
  let c' := snd (handleCreateMatch loadRule matchLength o k params c) in
  clients (srv c') = clients (srv c) /\ matches (srv c') = matches (srv c)
  /\ heap (srv c') = heap (srv c)
  /\ out c' = out c /\ sendAfter c' = sendAfter c
  /\ ((reply c' = <["errorMessage" := VStr "Player not found!"]> (reply c)
       /\ players (srv c') = players (srv c)
       /\ exists sk, clients (srv c) !! k = Some sk /\ sk_player sk = None)
      \/ (reply c' = <["errorMessage" := VStr "Host name is required."]> (reply c)
          /\ exists sk (pr : PlayerRef) p,
               clients (srv c) !! k = Some sk /\ sk_player sk = Some pr
               /\ players (srv c') !! pr = Some p
               /\ Slug.iccjSlugify (Some (p_name p)) = ""
               /\ Slug.iccjSlugify (params ≫= prm_hostSlug) = ""
               /\ (Slug.iccjSafeDisplayName (params ≫= prm_playerName) <> "" ->
                   players (srv c')
                   = alter (Player_name
                              (Slug.iccjSafeDisplayName (params ≫= prm_playerName)))
                           pr (players (srv c))
                   /\ p_name p = Slug.iccjSafeDisplayName (params ≫= prm_playerName))
               /\ (Slug.iccjSafeDisplayName (params ≫= prm_playerName) = "" ->
                   players (srv c') = players (srv c)))).
Proof.
  destruct c as [[cl pl ma he] rp sa ou]. unfold handleCreateMatch.
  mautof; cbn [fst snd]; try discriminate; intros _;
    (repeat (split; [reflexivity|])).
  all: first
    [ left; split; [reflexivity|]; split; [reflexivity|];
      eexists; split; [reflexivity|assumption]
    | right; split; [reflexivity|]; eexists _, _, _;
      split; [reflexivity|]; split; [eassumption|]; split; [eassumption|];
      split; [by apply negb_nonEmpty|];
      split; [first [by apply negb_nonEmpty | by apply iccjSlugify_falsy]|];
      split; [renamed|kept] ].
Qed.

(** A refused CREATE_MATCH request creates no match and no game and
    notifies nobody.  When it is refused for want of a host name (the
    slug given and the slug of the name of the player are both empty)
    the display name of the request, cleaned up, has nevertheless
    become the name of the player when it is not empty; when it is
    empty the players are as they were. *)
Theorem create_refused_keeps_matches (o : Oracle) (k : SocketID)
        (params : option Params) (c c' : Ctx) :
  handleCreateMatch loadRule matchLength o k params c = (Ok false, c') ->
  clients (srv c') = clients (srv c) /\ matches (srv c') = matches (srv c)
  /\ heap (srv c') = heap (srv c)
  /\ out c' = out c /\ sendAfter c' = sendAfter c
  /\ ((reply c' = <["errorMessage" := VStr "Player not found!"]> (reply c)
       /\ players (srv c') = players (srv c)
       /\ exists sk, clients (srv c) !! k = Some sk /\ sk_player sk = None)
      \/ (reply c' = <["errorMessage" := VStr "Host name is required."]> (reply c)
          /\ exists sk (pr : PlayerRef) p,
               clients (srv c) !! k = Some sk /\ sk_player sk = Some pr
               /\ players (srv c') !! pr = Some p
               /\ Slug.iccjSlugify (Some (p_name p)) = ""
               /\ Slug.iccjSlugify (params ≫= prm_hostSlug) = ""
               /\ (Slug.iccjSafeDisplayName (params ≫= prm_playerName) <> "" ->
                   players (srv c')
                   = alter (Player_name
                              (Slug.iccjSafeDisplayName (params ≫= prm_playerName)))
                           pr (players (srv c))
                   /\ p_name p = Slug.iccjSafeDisplayName (params ≫= prm_playerName))
               /\ (Slug.iccjSafeDisplayName (params ≫= prm_playerName) = "" ->
                   players (srv c') = players (srv c)))).
Proof.
  intros H. pose proof (handleCreateMatch_refused o k params c) as Hr.
  rewrite H in Hr. exact (Hr eq_refl).
Qed.

(** *** Confirming the moves of a turn *)

(** CONFIRM_MOVES by a player who has won the game ends the game in
    favour of that player: it does what the end of a game does for that
    winner, not marked as a resignation.  The colour of the player gets
    the score of the game, nothing is sent before the reply, and no
    EVENT_TURN_START is sent at all: the events deferred are
    EVENT_MATCH_OVER when the match is over, EVENT_GAME_OVER and then
    EVENT_GAME_RESTART otherwise. *)
Theorem confirm_by_winner_ends_game (o : Oracle) (k : SocketID) (params : option Params)
        (c : Ctx) sk rule (mr : MatchRef) m game gv (pr : PlayerRef) w col :
  clients (srv c) !! k = Some sk ->
  sk_match sk = Some mr -> sk_rule sk = Some rule -> sk_player sk = Some pr ->
  matches (srv c) !! mr = Some m ->
  m_currentGame m = Some game ->
  viewOf (srv c) game = Some gv ->
  players (srv c) !! pr = Some w ->
  p_currentPieceType w = Some col ->
  validateConfirm rule gv (Some w) = true ->
  hasWon rule (gv_state gv) (Some w) = true ->
  exists c' m',
    handleConfirmMoves o k params c = (Ok true, c')
    /\ endGame o k (Some pr) false c = (Ok true, c')
    /\ matches (srv c') !! mr = Some m'
    /\ m_score m' col = m_score m col + getGameScore rule (gv_state gv) (Some w)
    /\ (forall col', col' <> col -> m_score m' col' = m_score m col')
    /\ out c' = out c /\ reply c' = reply c
    /\ sendAfter c'
       = Some (if m_isOver m'
               then [ToMatch mr EVENT_MATCH_OVER (overParams mr (Some pr) false)]
               else [ToMatch mr EVENT_GAME_OVER (overParams mr (Some pr) false);
                     ToMatch mr EVENT_GAME_RESTART
                       (<["match" := VMatch mr]> (<["game" := VGameOf mr]>
                         {[ "resigned" := VBool false ]}))]).
Proof.
  intros Hk Hm Hr Hpr Hmr Hg Hv Hw Hcol Hval Hwon.
  assert (Hst : heap (srv c) !! g_state game = Some (gv_state gv)).
  { unfold viewOf in Hv. apply bind_Some in Hv as (st & Hst & [= <-]). exact Hst. }
  pose proof (endGame_eq o k pr false c sk rule mr m game (gv_state gv) w col
                Hk Hm Hr Hmr Hg Hst Hw Hcol) as E.
  cbv zeta in E.
  set (total := m_score m col + getGameScore rule (gv_state gv) (Some w)) in *.
  set (m1 := Match_score _ m) in *.
  set (m2 := if m_length m <=? total then Match_isOver true m1 else m1) in *.
  assert (Htot : m_score m2 col = total).
  { subst m2 m1. destruct (m_length m <=? total); cbn; by rewrite decide_True. }
  assert (Hoth : forall col', col' <> col -> m_score m2 col' = m_score m col').
  { intros col' Hne. subst m2 m1.
    destruct (m_length m <=? total); cbn; by rewrite decide_False. }
  assert (Hrun : handleConfirmMoves o k params c = endGame o k (Some pr) false c).
  { destruct c as [s rp sa ou]. cbn [srv] in *. unfold handleConfirmMoves. msimpl.
    rewrite Hk. msimpl. rewrite Hk. msimpl. rewrite Hk. msimpl.
    rewrite Hr, Hm. msimpl. rewrite Hmr. msimpl. rewrite Hg. msimpl. rewrite Hv. msimpl.
    rewrite Hpr. unfold resolvePlayer at 1 2. cbn [mbind option_bind]. rewrite Hw.
    rewrite Hval, Hwon. cbn [negb]. rewrite E. by destruct (m_isOver m2). }
  rewrite Hrun, E. destruct (m_isOver m2) eqn:Hover.
  - eexists _, m2. split; [reflexivity|]. split; [reflexivity|]. cbn [srv out reply sendAfter].
    split; [by eapply matches_setMatch_eq|].
    split; [exact Htot|]. split; [exact Hoth|]. rewrite Hover. by repeat split.
  - eexists _, (Match_currentGame _ m2). split; [reflexivity|]. split; [reflexivity|].
    cbn [srv out reply sendAfter].
    split; [eapply matches_setMatch_eq; cbn; exact Hmr|].
    split; [exact Htot|]. split; [exact Hoth|].
    change (m_isOver (Match_currentGame ?g m2)) with (m_isOver m2).
    rewrite Hover. by repeat split.
Qed.

(** *** One open match for a host *)

Lemma names_alter_same (pl : list Player) (pr : PlayerRef) p (dn : string) :
  pl !! pr = Some p -> p_name p = dn ->
  forall r : PlayerRef,
    p_name <$> alter (Player_name dn) pr pl !! r = p_name <$> pl !! r.
Proof.
  intros Hp Hn r. destruct (decide (r = pr)) as [->|Hne].
  - rewrite list_lookup_alter_eq, Hp. cbn. by rewrite Hn.
  - by rewrite list_lookup_alter_ne.
Qed.

(** CREATE_MATCH when an open match answers to the slug of the host. *)
Lemma handleCreateMatch_reuse (o : Oracle) (k : SocketID) (prm : Params) (c : Ctx)
      sk (pr : PlayerRef) p (mr : MatchRef) m :
  truthyStr (prm_hostSlug prm) = false ->
  clients (srv c) !! k = Some sk -> sk_player sk = Some pr ->
  players (srv c) !! pr = Some p ->
  (Slug.nonEmpty (Slug.iccjSafeDisplayName (prm_playerName prm)) = true ->
   p_name p = Slug.iccjSafeDisplayName (prm_playerName prm)) ->
  Slug.nonEmpty (Slug.iccjSlugify (Some (p_name p))) = true ->
  getOpenMatchByHostSlug (srv c) (Slug.iccjSlugify (Some (p_name p))) = Some mr ->
  matches (srv c) !! mr = Some m ->
  exists c',
    handleCreateMatch loadRule matchLength o k (Some prm) c = (Ok true, c')
    /\ matches (srv c') = matches (srv c) /\ heap (srv c') = heap (srv c)
    /\ players (srv c') !! pr = Some p
    /\ length (players (srv c')) = length (players (srv c))
    /\ (exists sk', clients (srv c') !! k = Some sk' /\ sk_match sk' = Some mr
                    /\ sk_player sk' = Some pr)
    /\ reply c' !! "reused" = Some (VBool true)
    /\ reply c' !! "matchID" = Some (VNum (m_id m))
    /\ reply c' !! "hostSlug" = Some (VStr (Slug.iccjSlugify (Some (p_name p)))).
Proof.
  intros Hs Hk Hpr Hp Hname Hne Hopen Hm.
  destruct c as [[cl pl ma he] rp sa ou]. cbn [srv clients players matches heap] in *.
  unfold handleCreateMatch. cbn [mbind option_bind]. rewrite Hs.
  mfull. rewrite Hk. mfull. rewrite Hpr. mfull.
  destruct (truthyStr (prm_playerName prm)) eqn:E1;
    [destruct (Slug.nonEmpty (Slug.iccjSafeDisplayName (prm_playerName prm))) eqn:E2|];
    mfull.
  1: { rewrite list_lookup_alter_eq, Hp. cbn [fmap option_fmap option_map]. mfull.
       cbn [Slug.nonEmpty negb p_name Player_name].
       rewrite <- (Hname eq_refl). rewrite Hne. cbn [negb]. mfull.
       match goal with
       | |- context [getOpenMatchByHostSlug ?s' ?h] =>
           replace (getOpenMatchByHostSlug s' h) with (Some mr)
             by (rewrite <- Hopen; symmetry; apply getOpenMatchByHostSlug_ext;
                 [reflexivity | apply (names_alter_same pl pr p (p_name p) Hp eq_refl)])
       end.
       mfull. rewrite Hm. mfull.
       eexists. split; [reflexivity|]. mfull.
       split; [reflexivity|]. split; [reflexivity|].
       split; [rewrite list_lookup_alter_eq, Hp; by destruct p|].
       split; [by rewrite length_alter|].
       split; [eexists; rewrite !lookup_alter_eq, Hk; by repeat split|].
       repeat (split; [solve_field|]). solve_field. }
  all: rewrite Hp; mfull; cbn [Slug.nonEmpty negb]; rewrite Hne; cbn [negb]; mfull;
    rewrite Hopen; mfull; rewrite Hm; mfull;
    eexists; (split; [reflexivity|]); mfull;
    (split; [reflexivity|]); (split; [reflexivity|]);
    (split; [exact Hp|]); (split; [reflexivity|]);
    (split; [eexists; rewrite !lookup_alter_eq, Hk; by repeat split|]);
    repeat (split; [solve_field|]); solve_field.
Qed.

(** Asking twice for a match is asking once: after an accepted
    CREATE_MATCH, the same request on the same connection is accepted
    again, marked [reused], bound to the same match, and it creates no
    match, no game and no player. *)
Theorem create_twice_one_match (o o2 : Oracle) (k : SocketID) (prm : Params)
        (c c' c2 : Ctx) :
  truthyStr (prm_hostSlug prm) = false ->
  handleCreateMatch loadRule matchLength o k (Some prm) c = (Ok true, c') ->
  srv c2 = srv c' ->
  exists c3 (mr : MatchRef),
    handleCreateMatch loadRule matchLength o2 k (Some prm) c2 = (Ok true, c3)
    /\ matches (srv c3) = matches (srv c') /\ heap (srv c3) = heap (srv c')
    /\ length (players (srv c3)) = length (players (srv c'))
    /\ (exists sk', clients (srv c') !! k = Some sk' /\ sk_match sk' = Some mr)
    /\ (exists sk3, clients (srv c3) !! k = Some sk3 /\ sk_match sk3 = Some mr)
    /\ reply c3 !! "reused" = Some (VBool true).
Proof.
  intros Hs Hc Hsrv.
  destruct (handleCreateMatch_accepted o k prm c c' Hs Hc)
    as (sk' & pr & hp & mr & Hk & Hpr & Hmr & Hhp & Hname & Hne & _ & Hopen & _).
  destruct (getOpenMatchByHostSlug_open _ _ _ Hopen) as (m & Hm & _).
  rewrite <- Hsrv in Hk, Hhp, Hopen, Hm.
  destruct (handleCreateMatch_reuse o2 k prm c2 sk' pr hp mr m
              Hs Hk Hpr Hhp Hname Hne Hopen Hm)
    as (c3 & Hc3 & Hma & Hhe & _ & Hlen & (sk3 & Hk3 & Hm3 & _) & Hre & _).
  exists c3, mr. rewrite <- Hsrv.
  split; [exact Hc3|]. split; [exact Hma|]. split; [exact Hhe|]. split; [exact Hlen|].
  split; [by exists sk'|]. split; [by exists sk3|]. exact Hre.
Qed.

(** *** Guests *)

Lemma map_id_alter (f : Player -> Player) (r : PlayerRef) (pl : list Player) :
  (forall p, p_id (f p) = p_id p) -> map p_id (alter f r pl) = map p_id pl.
Proof.
  intros Hf. revert r. induction pl as [|p t IH]; intros [|r]; cbn; [done..| |].
  - by rewrite Hf.
  - by rewrite IH.
Qed.

(** CREATE_GUEST never refuses, and whatever it does it leaves the
    matches, the games and the boards alone, lets every other
    connection be, and keeps the players it finds, with their ids, in
    their places: it adds one player at most. *)
Theorem create_guest_frame (o : Oracle) (k : SocketID) (params : option Params) (c : Ctx) :
  let r := handleCreateGuest loadRule o k params c in
  fst r <> Ok false
  /\ matches (srv (snd r)) = matches (srv c)
  /\ heap (srv (snd r)) = heap (srv c)
  /\ out (snd r) = out c
  /\ (forall k', k' <> k -> clients (srv (snd r)) !! k' = clients (srv c) !! k')
  /\ exists new,
       map p_id (players (srv (snd r))) = (map p_id (players (srv c)) ++ new)%list
       /\ (length new <= 1)%nat.
Proof.
  destruct c as [[cl pl ma he] rp sa ou]. unfold handleCreateGuest.
  mautof; cbn [fst snd];
    (split; [discriminate|]); do 3 (split; [reflexivity|]);
    (split; [intros k' Hk'; by rewrite ?lookup_alter_ne|]);
    eexists;
    (split;
     [ repeat first [ rewrite map_id_alter by (by intros []) | rewrite map_app ];
       first [ reflexivity | symmetry; apply app_nil_r ]
     | cbn; lia ]).
Qed.

(** A CREATE_GUEST request that names no player, on a connection
    without a cookie, makes a new player, the last of the players: its
    name is the display name of the request, cleaned up, or
    ["Player <id>"] when that is empty; the connection is bound to it,
    and to no match; the reply carries it and is not marked as a
    reconnection. *)
Theorem create_guest_new (o : Oracle) (k : SocketID) (params : option Params)
        (c : Ctx) sk :
  clients (srv c) !! k = Some sk ->
  truthyNum (params ≫= prm_playerID) = false ->
  truthyStr (sk_cookie sk) = false ->
  exists c' p,
    handleCreateGuest loadRule o k params c = (Ok true, c')
    /\ players (srv c') = (players (srv c) ++ [p])%list
    /\ p_name p
       = Slug.orElse (Slug.iccjSafeDisplayName (params ≫= prm_playerName))
                     ("Player " +:+ pretty (p_id p))
    /\ p_name p <> ""
    /\ p_socketID p = Some k
    /\ clients (srv c')
       = <[k := Socket_player (Some (length (players (srv c)))) sk]> (clients (srv c))
    /\ matches (srv c') = matches (srv c) /\ heap (srv c') = heap (srv c)
    /\ reply c' !! "player" = Some (VPlayer (length (players (srv c))))
    /\ reply c' !! "reconnected" = Some (VBool false)
    /\ sendAfter c' = sendAfter c /\ out c' = out c.
Proof.
  intros Hk Hid Hcookie.
  destruct c as [[cl pl ma he] rp sa ou]. cbn [srv clients players matches heap] in *.
  cbv beta delta [mbind] in Hid.
  unfold handleCreateGuest. mfull. rewrite Hk. mfull.
  rewrite Hid, andb_false_r, Hcookie. mfull.
  eexists _, _. split; [reflexivity|]. mfull.
  rewrite alter_app_r_alt by done. rewrite Nat.sub_diag. cbn [alter list_alter].
  split; [reflexivity|].
  assert (Hdn : Slug.iccjSafeDisplayName (params ≫= prm_playerName)
                = match params with
                  | Some p => if truthyStr (prm_playerName p)
                              then Slug.iccjSafeDisplayName (prm_playerName p) else ""
                  | None => ""
                  end).
  { destruct params as [p|]; [|done].
    destruct (truthyStr (prm_playerName p)) eqn:E; [done|].
    by apply iccjSafeDisplayName_falsy. }
  cbv beta delta [mbind] in Hdn.
  split; [cbn; by rewrite Hdn|].
  split.
  { cbn. unfold Slug.orElse. destruct (Slug.nonEmpty _) eqn:E; [|done].
    by apply nonEmpty_ne. }
  split; [reflexivity|].
  split.
  { apply map_eq. intros k'. destruct (decide (k' = k)) as [->|Hne].
    - by rewrite lookup_alter_eq, lookup_insert_eq, Hk.
    - by rewrite lookup_alter_ne, lookup_insert_ne. }
  do 2 (split; [reflexivity|]).
  split; [solve_field|]. split; [solve_field|]. by split.
Qed.

(** *** Joining an open match *)

(** What JOIN_MATCH does to an open match. *)
Lemma handleJoinMatch_run (k : SocketID) (params : option Params) (c : Ctx)
      (mr : MatchRef) m sk (gr : PlayerRef) g game :
  joinTarget (srv c) params = Some mr ->
  matches (srv c) !! mr = Some m -> m_guest m = None ->
  m_currentGame m = Some game ->
  clients (srv c) !! k = Some sk -> sk_player sk = Some gr ->
  players (srv c) !! gr = Some g ->
  exists c' m',
    handleJoinMatch loadRule k params c = (Ok true, c')
    /\ matches (srv c') !! mr = Some m'
    /\ length (matches (srv c')) = length (matches (srv c))
    /\ (forall r : MatchRef, r <> mr -> matches (srv c') !! r = matches (srv c) !! r)
    /\ m_guest m' = Some gr /\ m_host m' = m_host m /\ m_id m' = m_id m
    /\ m_isOver m' = m_isOver m /\ m_score m' = m_score m
    /\ m_players m' = (m_players m ++ [p_id g])%list
    /\ m_currentGame m'
       = Some (Game_turnNumber 1 (Game_turnPlayer (m_host m) (Game_hasStarted true game)))
    /\ truthyStr (m_hostName m') = true
    /\ m_guestName m' = Some (Slug.orElse (p_name g) "Guest")
    /\ m_slug m' = Some (Slug.iccjMatchSlug (m_hostName m') (m_guestName m'))
    /\ m_name m' = Some (default "" (m_hostName m') +:+ " vs "
                         +:+ default "" (m_guestName m'))
    /\ players (srv c')
       = alter (Player_currentPieceType (Some BLACK)) gr
           (alter (Player_currentMatch (Some (m_id m))) gr (players (srv c)))
    /\ heap (srv c') = heap (srv c)
    /\ clients (srv c')
       = alter (Socket_rule (Some (loadRule RuleBgCasual))) k
           (alter (Socket_match (Some mr)) k (clients (srv c)))
    /\ out c' = out c
    /\ sendAfter c' = Some [ToMatch mr EVENT_MATCH_START (matchParams mr)]
    /\ reply c' !! "guest" = Some (VPlayer gr)
    /\ reply c' !! "host" = Some (vplayer (m_host m)).
Proof.
  intros Hres Hm Hguest Hgame Hk Hgr Hg.
  destruct c as [[cl pl ma he] rp sa ou]. cbn [srv clients players matches heap] in *.
  unfold handleJoinMatch. cbv beta delta [joinTarget mbind] in Hres. mfull.
  rewrite Hres.
  mfull. rewrite Hm. mfull. rewrite Hguest. cbn [isSomeB].
  rewrite Hk. mfull. rewrite Hgr. mfull. rewrite Hg. mfull.
  do 3 (rewrite ?list_lookup_alter_eq, ?Hm;
        cbn [fmap option_fmap option_map m_currentGame Match_name Match_slug
             Match_guestName Match_hostName Match_addGuestPlayer Match_players
             Match_guest Match_currentGame];
        rewrite ?Hgame; mfull).
  eexists _, _. split; [reflexivity|]. mfull.
  split; [by rewrite !list_lookup_alter_eq, ?Hm|].
  split; [by rewrite !length_alter|].
  split; [intros r Hr; by rewrite !list_lookup_alter_ne|].
  do 7 (split; [reflexivity|]).
  split.
  { cbn. destruct (truthyStr (m_hostName m)) eqn:E.
    - by destruct (m_hostName m) as [[|]|].
    - destruct (resolvePlayer _ (m_host m)) as [h|]; [|done].
      unfold Slug.orElse. by destruct (p_name h). }
  do 8 (split; [reflexivity|]).
  split; solve_field.
Qed.

(** A JOIN_MATCH request that is about an open match with a game, on a
    connection that has a player, is accepted.  The player takes the
    guest seat with the black pieces, the game is started with the host
    to move in turn 1 on the board it had, the match is named after
    both players and gets the slug of both names, nothing is sent
    before the reply and EVENT_MATCH_START is deferred to the match.
    From then on no slug resolves to the match, and the other matches
    are as they were. *)
Theorem join_starts_game (k : SocketID) (params : option Params) (c : Ctx)
        (mr : MatchRef) m sk (gr : PlayerRef) g game :
  joinTarget (srv c) params = Some mr ->
  matches (srv c) !! mr = Some m -> m_guest m = None ->
  m_currentGame m = Some game ->
  clients (srv c) !! k = Some sk -> sk_player sk = Some gr ->
  players (srv c) !! gr = Some g ->
  exists c' m' g' p',
    handleJoinMatch loadRule k params c = (Ok true, c')
    /\ matches (srv c') !! mr = Some m'
    /\ m_guest m' = Some gr /\ m_host m' = m_host m
    /\ m_players m' = (m_players m ++ [p_id g])%list
    /\ m_currentGame m' = Some g'
    /\ g_hasStarted g' = true /\ g_turnPlayer g' = m_host m /\ g_turnNumber g' = 1
    /\ g_state g' = g_state game /\ g_moveSequence g' = g_moveSequence game
    /\ g_turnDice g' = g_turnDice game
    /\ m_slug m' = Some (Slug.iccjMatchSlug (m_hostName m') (m_guestName m'))
    /\ m_name m' = Some (default "" (m_hostName m') +:+ " vs "
                         +:+ default "" (m_guestName m'))
    /\ players (srv c') !! gr = Some p'
    /\ p_currentMatch p' = Some (m_id m) /\ p_currentPieceType p' = Some BLACK
    /\ p_name p' = p_name g /\ p_id p' = p_id g
    /\ out c' = out c
    /\ sendAfter c' = Some [ToMatch mr EVENT_MATCH_START (matchParams mr)]
    /\ (forall h, getOpenMatchByHostSlug (srv c') h <> Some mr)
    /\ (forall r : MatchRef, r <> mr -> matches (srv c') !! r = matches (srv c) !! r)
    /\ length (matches (srv c')) = length (matches (srv c))
    /\ heap (srv c') = heap (srv c).
Proof.
  intros Hres Hm Hguest Hgame Hk Hgr Hg.
  destruct (handleJoinMatch_run k params c mr m sk gr g game
              Hres Hm Hguest Hgame Hk Hgr Hg)
    as (c' & m' & Hc' & Hm' & Hlen & Hothers & Hg' & Hh' & _ & _ & _ & Hpl & Hcg
        & _ & _ & Hslug & Hname & Hplayers & Hheap & _ & Hout & Hafter & _).
  exists c', m', (Game_turnNumber 1 (Game_turnPlayer (m_host m) (Game_hasStarted true game))),
    (Player_currentPieceType (Some BLACK) (Player_currentMatch (Some (m_id m)) g)).
  do 6 (split; [assumption|]). do 6 (split; [reflexivity|]).
  split; [exact Hslug|]. split; [exact Hname|].
  split; [by rewrite Hplayers, !list_lookup_alter_eq, Hg|].
  do 4 (split; [reflexivity|]).
  split; [exact Hout|]. split; [exact Hafter|].
  split; [|by repeat split].
  intros h Hopen. apply getOpenMatchByHostSlug_open in Hopen as (m2 & Hm2 & Hnone & _).
  rewrite Hm' in Hm2. injection Hm2 as <-. congruence.
Qed.

(** *** Moves *)

Lemma writeState_eq (l : loc) (st : State) (c : Ctx) :
  writeState l st c
  = (Ok tt, mkCtx (setBoard l st (srv c)) (reply c) (sendAfter c) (out c)).
Proof. reflexivity. Qed.

(** The payload of EVENT_PIECE_MOVE. *)
Lemma handleMovePiece_accepted (k : SocketID) (params : option Params) (c c' : Ctx) :
  handleMovePiece DEBUG k params c = (Ok true, c') ->
  exists sk mr m game rule gv prm pc dice dice' st',
    clients (srv c) !! k = Some sk
    /\ sk_match sk = Some mr /\ sk_rule sk = Some rule
    /\ matches (srv c) !! mr = Some m /\ m_currentGame m = Some game
    /\ params = Some prm /\ prm_piece prm = Some pc
    /\ jsLt (prm_moveSequence prm) (g_moveSequence game) = false
    /\ viewOf (srv c) game = Some gv
    /\ validateMove rule gv (resolvePlayer (srv c) (sk_player sk)) pc (prm_steps prm) = true
    /\ applyMoveActions rule (gv_state gv)
         (getMoveActions rule (gv_state gv) pc (prm_steps prm)) = (st', true)
    /\ g_turnDice game = Some dice
    /\ markAsPlayed rule dice (prm_steps prm) = Some dice'
    /\ srv c' =
         setMatch mr
           (Match_currentGame
              (Some (Game_moveSequence (g_moveSequence game + 1)
                       (Game_turnDice (Some dice') game))) m)
           (setBoard (g_state game) st' (srv c))
    /\ out c' =
         (out c ++ map (fun k' => mkEmit k' EVENT_PIECE_MOVE
                          (movePayload mr pc prm
                             (getMoveActions rule (gv_state gv) pc (prm_steps prm))))
                       (recipients (srv c) (m_players m)))%list
    /\ sendAfter c' = sendAfter c.
Proof.
  destruct c as [s rp sa ou]. unfold handleMovePiece, tryCatch.
  mauto; try (intros [=]; fail).
  intros [= <-].
  match goal with H : writeState _ _ _ = _ |- _ =>
    rewrite writeState_eq in H; first [injection H as _ <- | injection H as <-] end.
  match goal with H : modifyCurrentGame _ (Game_turnDice _) _ = _ |- _ =>
    erewrite modifyCurrentGame_set in H;
      [ | unfold setBoard; cbn; eassumption | eassumption ];
      first [injection H as _ <- | injection H as <-] end.
  match goal with H : modifyCurrentGame _ _ _ = _ |- _ =>
    erewrite modifyCurrentGame_set in H;
      [ | cbn [srv]; eapply matches_setMatch_eq; unfold setBoard; cbn; eassumption
        | reflexivity ];
      first [injection H as _ <- | injection H as <-] end.
  match goal with H : sendMatchMessage _ _ _ _ = _ |- _ =>
    erewrite sendMatchMessage_out in H;
      [ | cbn [srv]; eapply matches_setMatch_eq; cbn; eapply matches_setMatch_eq;
          unfold setBoard; cbn; eassumption ];
      first [injection H as _ <- | injection H as <-] end.
  eexists _, _, _, _, _, _, _, _, _, _, _.
  repeat (split; [first [reflexivity | eassumption]|]).
  split; [match goal with H : negb ?b = false |- ?b = true => by destruct b end|].
  repeat (split; [first [reflexivity | eassumption]|]).
  cbn [srv out sendAfter]. split; [|split].
  - unfold setMatch, setBoard. cbn. by rewrite list_insert_insert_eq.
  - reflexivity.
  - reflexivity.
Qed.

(** An accepted MOVE_PIECE request advances the move counter of the
    game by one and touches nothing but that game and its board.  The
    client sends the counter it knows with each move: the same request
    sent again, be it a duplicate delivery, is refused as already
    played and changes nothing. *)
Theorem move_counts_once (k : SocketID) (prm : Params) (c c' : Ctx) :
  handleMovePiece DEBUG k (Some prm) c = (Ok true, c') ->
  exists (mr : MatchRef) n,
    counterOf (srv c) mr = Some n
    /\ counterOf (srv c') mr = Some (n + 1)
    /\ clients (srv c') = clients (srv c) /\ players (srv c') = players (srv c)
    /\ (forall r : MatchRef, r <> mr -> matches (srv c') !! r = matches (srv c) !! r)
    /\ (prm_moveSequence prm = Some n ->
        forall c2 : Ctx, srv c2 = srv c' ->
          handleMovePiece DEBUG k (Some prm) c2
          = fail "This move has already been played!" c2).
Proof.
  intros H.
  destruct (handleMovePiece_accepted k (Some prm) c c' H)
    as (sk & mr & m & game & rule & gv & prm' & pc & dice & dice' & st'
        & Hk & Hm & Hr & Hmr & Hg & [= <-] & Hpc & Hlt & Hv & Hval & Happ & Hd & Hmark
        & Hsrv & Hout & _).
  exists mr, (g_moveSequence game).
  assert (Hmr' : matches (srv c') !! mr
                 = Some (Match_currentGame
                           (Some (Game_moveSequence (g_moveSequence game + 1)
                                    (Game_turnDice (Some dice') game))) m)).
  { rewrite Hsrv. apply (matches_setMatch_eq mr _ _ m). exact Hmr. }
  split; [unfold counterOf; rewrite Hmr; cbn; by rewrite Hg|].
  split; [unfold counterOf; by rewrite Hmr'|].
  split; [by rewrite Hsrv|]. split; [by rewrite Hsrv|].
  split; [intros r Hne; rewrite Hsrv; by rewrite matches_setMatch_ne|].
  intros Hn c2 Hc2.
  assert (Hst : staleText prm = "This move has already been played!")
    by (unfold staleText; by rewrite Hpc).
  rewrite <- Hst.
  eapply (handleMovePiece_stale k prm c2 sk mr _ _ (g_moveSequence game)).
  - rewrite Hc2, Hsrv. exact Hk.
  - exact Hm.
  - rewrite Hc2. exact Hmr'.
  - reflexivity.
  - exact Hn.
  - cbn. lia.
Qed.

(** An accepted MOVE_PIECE request announces the move to every
    participant of the match that has a connection, the player who
    moved included, with the piece, the steps and the actions of the
    move; it emits nothing else before its reply and defers nothing. *)
Theorem move_is_announced_to_all (k : SocketID) (prm : Params) (c c' : Ctx) :
  handleMovePiece DEBUG k (Some prm) c = (Ok true, c') ->
  exists sk (mr : MatchRef) m rule gv pc evs,
    clients (srv c) !! k = Some sk /\ sk_match sk = Some mr
    /\ sk_rule sk = Some rule
    /\ matches (srv c) !! mr = Some m
    /\ prm_piece prm = Some pc
    /\ (exists game, m_currentGame m = Some game /\ viewOf (srv c) game = Some gv)
    /\ out c' = (out c ++ evs)%list
    /\ sendAfter c' = sendAfter c
    /\ (forall id k', id ∈ m_players m -> socketOf (srv c) id = Some k' ->
          mkEmit k' EVENT_PIECE_MOVE
            (movePayload mr pc prm (getMoveActions rule (gv_state gv) pc (prm_steps prm)))
          ∈ evs)
    /\ (forall e, e ∈ evs ->
          e_msg e = EVENT_PIECE_MOVE
          /\ e_params e
             = movePayload mr pc prm (getMoveActions rule (gv_state gv) pc (prm_steps prm))
          /\ exists id, id ∈ m_players m /\ socketOf (srv c) id = Some (e_socket e)).
Proof.
  intros H.
  destruct (handleMovePiece_accepted k (Some prm) c c' H)
    as (sk & mr & m & game & rule & gv & prm' & pc & dice & dice' & st'
        & Hk & Hm & Hr & Hmr & Hg & [= <-] & Hpc & Hlt & Hv & Hval & Happ & Hd & Hmark
        & Hsrv & Hout & Hafter).
  exists sk, mr, m, rule, gv, pc. eexists.
  do 5 (split; [assumption|]). split; [by exists game|].
  split; [exact Hout|]. split; [exact Hafter|]. split.
  - intros id k' Hid Hsock.
    apply list_elem_of_fmap. exists k'. split; [done|].
    apply elem_of_recipients. by exists id.
  - intros e He. apply list_elem_of_fmap in He as (k' & -> & Hk').
    apply elem_of_recipients in Hk' as (id & Hid & Hsock).
    cbn. repeat (split; [done|]). by exists id.
Qed.

(** *** Resigning a game *)

(** RESIGN_GAME when the seat opposite the player is empty (the host
    of a match nobody has joined): the end of the game reads a property
    of the missing winner and throws before anything is changed; the
    client gets no reply. *)
Theorem resign_game_without_opponent (o : Oracle) (k : SocketID)
        (params : option Params) (s : Server) sk (mr : MatchRef) m :
  clients s !! k = Some sk -> sk_match sk = Some mr ->
  matches s !! mr = Some m ->
  opponentOf s m (sk_player sk) = None ->
  serve loadRule matchLength DEBUG o RESIGN_GAME k params s = (s, []).
Proof.
  intros Hk Hm Hmr Hopp. unfold serve, handleRequest. cbn [dispatch].
  unfold handleResignGame, endGame. msimpl.
  rewrite Hk. msimpl. rewrite Hk. msimpl. rewrite Hm. msimpl. rewrite Hmr. msimpl.
  rewrite Hopp, Hk. msimpl. rewrite Hk. msimpl.
  destruct (sk_rule sk) as [rule|]; msimpl; [|reflexivity].
  rewrite Hm. msimpl. rewrite Hmr. msimpl.
  destruct (m_currentGame m) as [game|]; msimpl; [|reflexivity].
  destruct (heap s !! g_state game) as [st|]; msimpl; reflexivity.
Qed.

(** RESIGN_GAME ends the game in favour of the player in the other
    seat: the guest of the match when it is the host who resigns, the
    host when it is a player with another id (the guest).  It does
    what the end of a game does for that winner, marked as a
    resignation, and reports success.  The colour of the winner gets
    the score of the game, nothing is sent before the reply, and the
    events deferred name the winner and the resignation:
    EVENT_MATCH_OVER when the match is over, EVENT_GAME_OVER and then
    EVENT_GAME_RESTART otherwise. *)
Theorem resign_game_awards_opponent (o : Oracle) (k : SocketID) (params : option Params)
        (c : Ctx) sk rule (mr : MatchRef) m game st
        (pr hr gr wr : PlayerRef) p h w col :
  clients (srv c) !! k = Some sk ->
  sk_match sk = Some mr -> sk_rule sk = Some rule ->
  matches (srv c) !! mr = Some m ->
  m_currentGame m = Some game ->
  heap (srv c) !! g_state game = Some st ->
  sk_player sk = Some pr -> players (srv c) !! pr = Some p ->
  m_host m = Some hr -> players (srv c) !! hr = Some h ->
  m_guest m = Some gr ->
  (p_id p = p_id h /\ wr = gr) \/ (p_id p <> p_id h /\ wr = hr) ->
  players (srv c) !! wr = Some w ->
  p_currentPieceType w = Some col ->
  exists c' m',
    handleResignGame o k params c = (Ok true, c')
    /\ endGame o k (Some wr) true c = (Ok true, c')
    /\ matches (srv c') !! mr = Some m'
    /\ m_score m' col = m_score m col + getGameScore rule st (Some w)
    /\ (forall col', col' <> col -> m_score m' col' = m_score m col')
    /\ out c' = out c /\ reply c' = reply c
    /\ sendAfter c'
       = Some (if m_isOver m'
               then [ToMatch mr EVENT_MATCH_OVER (overParams mr (Some wr) true)]
               else [ToMatch mr EVENT_GAME_OVER (overParams mr (Some wr) true);
                     ToMatch mr EVENT_GAME_RESTART
                       (<["match" := VMatch mr]> (<["game" := VGameOf mr]>
                         {[ "resigned" := VBool true ]}))]).
Proof.
  intros Hk Hm Hr Hmr Hg Hst Hpr Hp Hhr Hh Hgr Hseat Hw Hcol.
  assert (Hopp : opponentOf (srv c) m (sk_player sk) = Some wr).
  { destruct (opponentOf_seats (srv c) m (sk_player sk) p h) as [Hhost Hother].
    - rewrite Hpr. exact Hp.
    - rewrite Hhr. exact Hh.
    - destruct Hseat as [[Hid ->]|[Hid ->]].
      + by rewrite (Hhost Hid).
      + by rewrite (Hother Hid). }
  pose proof (endGame_eq o k wr true c sk rule mr m game st w col
                Hk Hm Hr Hmr Hg Hst Hw Hcol) as E.
  cbv zeta in E.
  set (total := m_score m col + getGameScore rule st (Some w)) in *.
  set (m1 := Match_score _ m) in *.
  set (m2 := if m_length m <=? total then Match_isOver true m1 else m1) in *.
  assert (Htot : m_score m2 col = total).
  { subst m2 m1. destruct (m_length m <=? total); cbn; by rewrite decide_True. }
  assert (Hoth : forall col', col' <> col -> m_score m2 col' = m_score m col').
  { intros col' Hne. subst m2 m1.
    destruct (m_length m <=? total); cbn; by rewrite decide_False. }
  assert (Hrun : handleResignGame o k params c = endGame o k (Some wr) true c).
  { destruct c as [s rp sa ou]. cbn [srv] in *. unfold handleResignGame. msimpl.
    rewrite Hk. msimpl. rewrite Hk. msimpl. rewrite Hm. msimpl. rewrite Hmr. msimpl.
    rewrite Hopp. rewrite E. by destruct (m_isOver m2). }
  rewrite Hrun, E. destruct (m_isOver m2) eqn:Hover.
  - eexists _, m2. split; [reflexivity|]. split; [reflexivity|]. cbn [srv out reply sendAfter].
    split; [by eapply matches_setMatch_eq|].
    split; [exact Htot|]. split; [exact Hoth|]. rewrite Hover. by repeat split.
  - eexists _, (Match_currentGame _ m2). split; [reflexivity|]. split; [reflexivity|].
    cbn [srv out reply sendAfter].
    split; [eapply matches_setMatch_eq; cbn; exact Hmr|].
    split; [exact Htot|]. split; [exact Hoth|].
    change (m_isOver (Match_currentGame ?g m2)) with (m_isOver m2).
    rewrite Hover. by repeat split.
Qed.

End Properties.

(* ===================================================================== *)
(** ** The theorems at work on the concrete run *)
(* ===================================================================== *)

(** After Alice's first move the counter is 1: a second request that
    still carries 0 is refused and changes nothing. *)
Lemma stale_move_rejected_witness :
  exists rep : Obj,
    serve Toy.loadRule 1 false (Toy.oracle 10) MOVE_PIECE "sA"
          (Some (Toy.moveParams 1 2 0)) Toy.moved
      = (Toy.moved, [mkEmit "sA" MOVE_PIECE rep])
    /\ rep !! "result" = Some (VBool false)
    /\ rep !! "errorMessage" = Some (VStr "This move has already been played!").
Proof.
  eapply (stale_move_rejected Toy.loadRule 1 false (Toy.oracle 10) "sA"
            (Toy.moveParams 1 2 0) Toy.moved).
  - vm_compute; reflexivity.
  - reflexivity.
  - vm_compute; reflexivity.
  - reflexivity.
  - reflexivity.
  - simpl; lia.
Defined.

(** C4 fails as stated: right after the roll the counter is 0, and a
    request carrying 7 is accepted; the piece moves and the counter
    becomes 1. *)
Lemma future_move_counterexample :
  let r := serve Toy.loadRule 1 false (Toy.oracle 9) MOVE_PIECE "sA"
                 (Some (Toy.moveParams 0 3 7)) Toy.rolled in
  counterOf Toy.rolled 0%nat = Some 0
  /\ prm_moveSequence (Toy.moveParams 0 3 7) = Some 7
  /\ replyField "result" "sA" MOVE_PIECE (snd r) = Some (VBool true)
  /\ replyField "errorMessage" "sA" MOVE_PIECE (snd r) = None
  /\ boardOf Toy.rolled 0%nat = Some [0; 0]
  /\ boardOf (fst r) 0%nat = Some [3; 0]
  /\ counterOf (fst r) 0%nat = Some 1
  /\ fst r <> Toy.rolled.
Proof.
  cbv zeta. repeat split; try (vm_compute; reflexivity).
  intros H. apply (f_equal (fun s => counterOf s 0%nat)) in H.
  vm_compute in H. discriminate H.
Qed.

(** The amended statement at the same state, for a request the rule
    refuses (no die shows 5): it is answered like the request carrying
    the counter, with an error text and no change. *)
Lemma future_move_as_current_witness :
  serve Toy.loadRule 1 false (Toy.oracle 9) MOVE_PIECE "sA"
        (Some (Toy.moveParams 0 5 7)) Toy.rolled
  = serve Toy.loadRule 1 false (Toy.oracle 9) MOVE_PIECE "sA"
        (Some (Toy.moveParams 0 5 0)) Toy.rolled
  /\ exists (rep : Obj) (text : string),
      serve Toy.loadRule 1 false (Toy.oracle 9) MOVE_PIECE "sA"
            (Some (Toy.moveParams 0 5 7)) Toy.rolled
        = (Toy.rolled, [mkEmit "sA" MOVE_PIECE rep])
      /\ rep !! "result" = Some (VBool false)
      /\ rep !! "errorMessage" = Some (VStr text).
Proof.
  destruct (future_move_as_current Toy.loadRule 1 false (Toy.oracle 9) "sA"
              (Toy.moveParams 0 5 7) Toy.rolled
              _ 0%nat _ _ 7
              ltac:(vm_compute; reflexivity) ltac:(reflexivity)
              ltac:(vm_compute; reflexivity) ltac:(reflexivity)
              ltac:(reflexivity) ltac:(simpl; lia)) as [Heq Hrej].
  split; [exact Heq|].
  eapply Hrej.
  - reflexivity.
  - vm_compute; reflexivity.
  - reflexivity.
  - left. vm_compute; reflexivity.
Defined.

(** Bob, the guest, resigns the match he has just joined: nothing
    changes in the server, and both connections are told that Alice,
    the host, has won.  When Alice resigns instead, both are told that
    Bob has won. *)
Lemma resign_match_frame_witness :
  (fst (serve Toy.loadRule 1 false (Toy.oracle 5) RESIGN_MATCH "sB"
             (Some Toy.noParams) Toy.joined) = Toy.joined
   /\ exists rep : Obj,
       snd (serve Toy.loadRule 1 false (Toy.oracle 5) RESIGN_MATCH "sB"
                  (Some Toy.noParams) Toy.joined)
       = [ mkEmit "sB" RESIGN_MATCH rep;
           mkEmit "sA" EVENT_MATCH_OVER (overParams 0%nat (Some 0%nat) true);
           mkEmit "sB" EVENT_MATCH_OVER (overParams 0%nat (Some 0%nat) true) ]
       /\ rep !! "result" = Some (VBool true)
       /\ rep !! "errorMessage" = None)
  /\ (fst (serve Toy.loadRule 1 false (Toy.oracle 5) RESIGN_MATCH "sA"
                (Some Toy.noParams) Toy.joined) = Toy.joined
      /\ exists rep : Obj,
          snd (serve Toy.loadRule 1 false (Toy.oracle 5) RESIGN_MATCH "sA"
                     (Some Toy.noParams) Toy.joined)
          = [ mkEmit "sA" RESIGN_MATCH rep;
              mkEmit "sA" EVENT_MATCH_OVER (overParams 0%nat (Some 1%nat) true);
              mkEmit "sB" EVENT_MATCH_OVER (overParams 0%nat (Some 1%nat) true) ]
          /\ rep !! "result" = Some (VBool true)
          /\ rep !! "errorMessage" = None).
Proof.
  assert (Hm : exists m alice bob,
             matches Toy.joined !! 0%nat = Some m
             /\ m_host m = Some 0%nat /\ m_guest m = Some 1%nat
             /\ m_players m = [101; 103]
             /\ players Toy.joined !! 0%nat = Some alice
             /\ players Toy.joined !! 1%nat = Some bob
             /\ p_id alice = 101 /\ p_id bob = 103
             /\ recipients Toy.joined (m_players m) = ["sA"; "sB"]).
  { do 3 eexists. split; [vm_compute; reflexivity|].
    do 3 (split; [reflexivity|]).
    split; [vm_compute; reflexivity|]. split; [vm_compute; reflexivity|].
    split; [reflexivity|]. split; [reflexivity|]. vm_compute; reflexivity. }
  destruct Hm as (m & alice & bob & Hm & Hhost & Hguest & _ & Ha & Hb & Hida & Hidb & Hrec).
  split.
  - pose proof (resign_match_frame Toy.loadRule 1 false (Toy.oracle 5) "sB"
                  (Some Toy.noParams) Toy.joined) as [H1 H2].
    split; [exact H1|].
    assert (Hk : exists sk, clients Toy.joined !! "sB" = Some sk
                            /\ sk_match sk = Some 0%nat /\ sk_player sk = Some 1%nat)
      by (eexists; split; [vm_compute; reflexivity|split; reflexivity]).
    destruct Hk as (sk & Hk & Hmr & Hpl).
    destruct (H2 sk 0%nat m Hk Hmr Hm) as (rep & winner & Hout & Hres & Herr & Hwin).
    assert (Hw : winner = Some 0%nat).
    { rewrite <- Hhost. apply (Hwin bob alice).
      - rewrite Hpl. exact Hb.
      - rewrite Hhost. exact Ha.
      - rewrite Hida, Hidb. discriminate. }
    exists rep. rewrite Hout, Hw, Hrec. by repeat split.
  - pose proof (resign_match_frame Toy.loadRule 1 false (Toy.oracle 5) "sA"
                  (Some Toy.noParams) Toy.joined) as [H1 H2].
    split; [exact H1|].
    assert (Hk : exists sk, clients Toy.joined !! "sA" = Some sk
                            /\ sk_match sk = Some 0%nat /\ sk_player sk = Some 0%nat)
      by (eexists; split; [vm_compute; reflexivity|split; reflexivity]).
    destruct Hk as (sk & Hk & Hmr & Hpl).
    destruct (H2 sk 0%nat m Hk Hmr Hm) as (rep & winner & Hout & Hres & Herr & Hwin).
    assert (Hw : winner = Some 1%nat).
    { rewrite <- Hguest. apply (Hwin alice alice).
      - rewrite Hpl. exact Ha.
      - rewrite Hhost. exact Ha.
      - reflexivity. }
    exists rep. rewrite Hout, Hw, Hrec. by repeat split.
Defined.

(** Alice rolls on ["sA"]: the event goes to Bob's connection ["sB"]
    and to no other. *)
Lemma dice_roll_to_others_witness :
  let c := mkCtx Toy.joined (initialReply (Some Toy.noParams)) None [] in
  let c' := snd (handleRollDice (Toy.oracle 8) "sA" (Some Toy.noParams) c) in
  exists sk mr m pr p evs,
    clients (srv c) !! "sA" = Some sk
    /\ sk_match sk = Some mr /\ matches (srv c) !! mr = Some m
    /\ sk_player sk = Some pr /\ players (srv c) !! pr = Some p
    /\ out c' = (out c ++ evs)%list
    /\ (forall id k', id ∈ m_players m -> id <> p_id p ->
                       socketOf (srv c) id = Some k' ->
                       mkEmit k' EVENT_DICE_ROLL (matchParams mr) ∈ evs)
    /\ (forall e, e ∈ evs ->
                  e_msg e = EVENT_DICE_ROLL /\ e_params e = matchParams mr
                  /\ exists id, id ∈ m_players m /\ id <> p_id p
                                /\ socketOf (srv c) id = Some (e_socket e)).
Proof.
  intros c c'.
  apply (dice_roll_to_others (Toy.oracle 8) "sA" (Some Toy.noParams) c c').
  vm_compute; reflexivity.
Defined.

Example dice_roll_run :
  snd (serve Toy.loadRule 1 false (Toy.oracle 8) ROLL_DICE "sA"
             (Some Toy.noParams) Toy.joined)
  = [ mkEmit "sB" EVENT_DICE_ROLL (matchParams 0%nat);
      mkEmit "sA" ROLL_DICE
        (<["match" := VMatch 0%nat]> (<["result" := VBool true]>
          (<["dice" := VDice [3; 2]]> (<["player" := VPlayer 0%nat]>
            {[ "result" := VBool false ]})))) ].
Proof. vm_compute; reflexivity. Qed.

(** Bob resigns the first game of the match of length 1: Alice's colour
    gets the point and the match is over. *)
Lemma end_game_scoring_witness :
  let c := mkCtx Toy.joined (initialReply (Some Toy.noParams)) None [] in
  exists sk rule m game st w col,
    (clients (srv c) !! "sB" = Some sk
     /\ sk_match sk = Some 0%nat /\ sk_rule sk = Some rule
     /\ matches (srv c) !! 0%nat = Some m
     /\ m_currentGame m = Some game
     /\ heap (srv c) !! g_state game = Some st
     /\ players (srv c) !! 0%nat = Some w
     /\ p_currentPieceType w = Some col)
    /\ exists c' m',
      endGame (Toy.oracle 7) "sB" (Some 0%nat) true c = (Ok true, c')
      /\ matches (srv c') !! 0%nat = Some m'
      /\ m_score m' col = m_score m col + getGameScore rule st (Some w)
      /\ (forall col', col' <> col -> m_score m' col' = m_score m col')
      /\ m_length m' = m_length m
      /\ m_isOver m' = m_isOver m || (m_length m <=? m_score m' col)
      /\ (m_isOver m = false -> (m_isOver m' = true <-> m_length m <= m_score m' col))
      /\ (m_isOver m' = false ->
          exists g',
            m_currentGame m' = Some g'
            /\ heap (srv c) !! g_state g' = None
            /\ heap (srv c') !! g_state g' = Some (r_initialState rule)
            /\ g_hasStarted g' = true
            /\ g_turnPlayer g' = Some 0%nat
            /\ g_turnNumber g' = 1)
      /\ (m_isOver m' = true ->
          m_currentGame m' = Some game /\ heap (srv c') = heap (srv c)).
Proof.
  intros c.
  assert (H : exists sk rule m game st w col,
      clients (srv c) !! "sB" = Some sk
      /\ sk_match sk = Some 0%nat /\ sk_rule sk = Some rule
      /\ matches (srv c) !! 0%nat = Some m
      /\ m_currentGame m = Some game
      /\ heap (srv c) !! g_state game = Some st
      /\ players (srv c) !! 0%nat = Some w
      /\ p_currentPieceType w = Some col).
  { do 7 eexists.
    split; [vm_compute; reflexivity|]. split; [reflexivity|].
    split; [reflexivity|]. split; [vm_compute; reflexivity|].
    split; [reflexivity|]. split; [vm_compute; reflexivity|].
    split; [vm_compute; reflexivity|]. reflexivity. }
  destruct H as (sk & rule & m & game & st & w & col & H).
  exists sk, rule, m, game, st, w, col. split; [exact H|].
  destruct H as (H1 & H2 & H3 & H4 & H5 & H6 & H7 & H8).
  exact (end_game_scoring (Toy.oracle 7) "sB" 0%nat true c sk rule 0%nat m game st w col
           H1 H2 H3 H4 H5 H6 H7 H8).
Defined.

Example end_game_run :
  let s' := Toy.step 7 RESIGN_GAME "sB" Toy.noParams Toy.joined in
  (m ← matches s' !! 0%nat; Some (m_score m WHITE, m_score m BLACK, m_isOver m))
  = Some (1, 0, true).
Proof. vm_compute; reflexivity. Qed.

(** Bob asks for a match under another rule: the request is accepted and
    the match is bound to ["RuleBgCasual"] all the same. *)
Lemma rule_is_RuleBgCasual_witness :
  let prm : Toy.Params :=
    mkParams None (Some "Bob") None None None (Some "RuleBgGulbara")
             None None None None in
  let c := mkCtx Toy.withBob (initialReply (Some prm)) None [] in
  exists c',
    handleCreateMatch Toy.loadRule 1 (Toy.oracle 6) "sB" (Some prm) c = (Ok true, c')
    /\ bindsCasual Toy.loadRule "sB" c'
    /\ namesKept (matches (srv c)) (matches (srv c')).
Proof.
  intros prm c.
  destruct (rule_is_RuleBgCasual Toy.loadRule 1 (Toy.oracle 6) "sB" prm None c)
    as (_ & _ & Hcreate & _).
  eexists. split; [vm_compute; reflexivity|].
  apply Hcreate. vm_compute; reflexivity.
Defined.

(** C5 fails as stated: Carol addresses, by its slug, the match in which
    Bob is seated.  The reply is not of the "match full" kind: the match
    is not found. *)
Lemma join_full_match_counterexample :
  let r := serve Toy.loadRule 1 false (Toy.oracle 11) JOIN_MATCH "sC"
                 (Some (Toy.joinBySlug "alice")) Toy.withCarol in
  (m ← matches Toy.withCarol !! 0%nat; Some (m_hostSlug m, m_guest m))
    = Some (Some "alice", Some 1%nat)
  /\ replyField "result" "sC" JOIN_MATCH (snd r) = Some (VBool false)
  /\ replyField "errorMessage" "sC" JOIN_MATCH (snd r) = Some (VStr "Match not found!")
  /\ replyField "errorMessage" "sC" JOIN_MATCH (snd r) <> Some (VStr "Match is full!").
Proof.
  cbv zeta. split; [vm_compute; reflexivity|]. split; [vm_compute; reflexivity|].
  split; [vm_compute; reflexivity|].
  intros H. vm_compute in H. discriminate H.
Qed.

(** The amended statement for Carol: by id the match is reported full,
    by slug it is not found, and it is not altered either way. *)
Lemma join_full_match_witness :
  (exists rep : Obj,
     serve Toy.loadRule 1 false (Toy.oracle 11) JOIN_MATCH "sC"
           (Some (Toy.joinByID 202)) Toy.withCarol
       = (Toy.withCarol, [mkEmit "sC" JOIN_MATCH rep])
     /\ rep !! "result" = Some (VBool false)
     /\ rep !! "errorMessage" = Some (VStr "Match is full!"))
  /\ (exists rep : Obj,
        serve Toy.loadRule 1 false (Toy.oracle 11) JOIN_MATCH "sC"
              (Some (Toy.joinBySlug "alice")) Toy.withCarol
          = (Toy.withCarol, [mkEmit "sC" JOIN_MATCH rep])
        /\ rep !! "result" = Some (VBool false)
        /\ rep !! "errorMessage" = Some (VStr "Match not found!")).
Proof.
  split.
  - destruct (join_full_match Toy.loadRule 1 false (Toy.oracle 11) "sC"
                (Toy.joinByID 202) Toy.withCarol _
                ltac:(vm_compute; reflexivity)) as (Hid & _ & _).
    eapply (Hid ltac:(reflexivity) ltac:(reflexivity) 0%nat).
    + vm_compute; reflexivity.
    + vm_compute; reflexivity.
    + vm_compute. discriminate.
  - destruct (join_full_match Toy.loadRule 1 false (Toy.oracle 11) "sC"
                (Toy.joinBySlug "alice") Toy.withCarol _
                ltac:(vm_compute; reflexivity)) as (_ & Hslug & _).
    destruct (Hslug ltac:(reflexivity)) as [_ Hnone].
    apply Hnone. vm_compute; reflexivity.
Defined.

(** C8 fails as stated: Alice's id arrives again on the connection ["sA"],
    to which Alice is bound already; without a cookie the request ends in
    a new player and the reply is not marked as a reconnection. *)
Lemma reconnect_counterexample :
  let r := serve Toy.loadRule 1 false (Toy.oracle 12) CREATE_GUEST "sA"
                 (Some (Toy.guestByID 101)) Toy.joined in
  getPlayerByID Toy.joined (Some 101) = Some 0%nat
  /\ (p ← players Toy.joined !! 0%nat;
      mr ← getMatchByID Toy.joined (p_currentMatch p);
      m ← matches Toy.joined !! mr; Some (m_isOver m)) = Some false
  /\ length (players Toy.joined) = 2%nat
  /\ length (players (fst r)) = 3%nat
  /\ replyField "reconnected" "sA" CREATE_GUEST (snd r) = Some (VBool false)
  /\ replyField "player" "sA" CREATE_GUEST (snd r) = Some (VPlayer 2%nat).
Proof. cbv zeta. repeat (split; [vm_compute; reflexivity|]). vm_compute; reflexivity. Qed.

(** The amended statement: the same id on the new connection ["sA2"]. *)
Lemma reconnect_rebinds_witness :
  let c := mkCtx Toy.reconnecting (initialReply (Some (Toy.guestByID 101))) None [] in
  exists sk p m,
    (clients (srv c) !! "sA2" = Some sk
     /\ sk_player sk = None
     /\ truthyNum (prm_playerID (Toy.guestByID 101)) = true
     /\ getPlayerByID (srv c) (prm_playerID (Toy.guestByID 101)) = Some 0%nat
     /\ players (srv c) !! 0%nat = Some p
     /\ getMatchByID (srv c) (p_currentMatch p) = Some 0%nat
     /\ matches (srv c) !! 0%nat = Some m
     /\ m_isOver m = false
     /\ m_ruleName m = Some "RuleBgCasual")
    /\ exists c',
      handleCreateGuest Toy.loadRule (Toy.oracle 12) "sA2" (Some (Toy.guestByID 101)) c
        = (Ok true, c')
      /\ (exists sk', clients (srv c') !! "sA2" = Some sk'
                      /\ sk_player sk' = Some 0%nat /\ sk_match sk' = Some 0%nat
                      /\ sk_rule sk' = Some (Toy.loadRule "RuleBgCasual"))
      /\ (exists p', players (srv c') !! 0%nat = Some p'
                     /\ p_id p' = p_id p /\ p_socketID p' = Some "sA2"
                     /\ p_currentMatch p' = p_currentMatch p
                     /\ p_currentPieceType p' = p_currentPieceType p)
      /\ length (players (srv c')) = length (players (srv c))
      /\ (forall r' : PlayerRef, r' <> 0%nat ->
                                 players (srv c') !! r' = players (srv c) !! r')
      /\ matches (srv c') = matches (srv c)
      /\ heap (srv c') = heap (srv c)
      /\ reply c' !! "reconnected" = Some (VBool true)
      /\ reply c' !! "player" = Some (VPlayer 0%nat)
      /\ sendAfter c' = Some [ToPlayer 0%nat EVENT_MATCH_START (matchParams 0%nat)].
Proof.
  intros c.
  assert (H : exists sk p m,
     clients (srv c) !! "sA2" = Some sk
     /\ sk_player sk = None
     /\ truthyNum (prm_playerID (Toy.guestByID 101)) = true
     /\ getPlayerByID (srv c) (prm_playerID (Toy.guestByID 101)) = Some 0%nat
     /\ players (srv c) !! 0%nat = Some p
     /\ getMatchByID (srv c) (p_currentMatch p) = Some 0%nat
     /\ matches (srv c) !! 0%nat = Some m
     /\ m_isOver m = false
     /\ m_ruleName m = Some "RuleBgCasual").
  { do 3 eexists.
    split; [vm_compute; reflexivity|]. split; [reflexivity|]. split; [reflexivity|].
    split; [vm_compute; reflexivity|]. split; [vm_compute; reflexivity|].
    split; [vm_compute; reflexivity|]. split; [vm_compute; reflexivity|].
    split; reflexivity. }
  destruct H as (sk & p & m & H).
  exists sk, p, m. split; [exact H|].
  destruct H as (H1 & H2 & H3 & H4 & H5 & H6 & H7 & H8 & H9).
  exact (reconnect_rebinds Toy.loadRule (Toy.oracle 12) "sA2" (Toy.guestByID 101) c
           sk 0%nat p 0%nat m "RuleBgCasual" H1 H2 H3 H4 H5 H6 H7 H8 H9).
Defined.

(** C6 fails as stated: Alice asks for a match under the display name
    ["Alice "] and with the slug ["bob"] of her own choosing; the
    request is accepted, and the slug of the match is ["bob"], not
    ["alice"]. *)
Lemma slug_pairing_counterexample :
  let r := serve Toy.loadRule 1 false (Toy.oracle 2) CREATE_MATCH "sA"
                 (Some Toy.aliceAsBob) Toy.withAlice in
  prm_playerName Toy.aliceAsBob = Some "Alice "
  /\ prm_hostSlug Toy.aliceAsBob = Some "bob"
  /\ Slug.iccjSlugify (Some "Alice ") = "alice"
  /\ replyField "result" "sA" CREATE_MATCH (snd r) = Some (VBool true)
  /\ replyField "hostSlug" "sA" CREATE_MATCH (snd r) = Some (VStr "bob")
  /\ replyField "slug" "sA" CREATE_MATCH (snd r) = Some (VStr "bob")
  /\ (m ← matches (fst r) !! 0%nat; Some (m_hostName m, m_hostSlug m, m_slug m))
     = Some (Some "Alice", Some "bob", Some "bob")
  /\ length (matches (fst r)) = 1%nat.
Proof.
  cbv zeta. repeat split; vm_compute; reflexivity.
Qed.

(** Alice opens a match as ["Alice "] and gets the slug ["alice"]; Bob
    joins with ["ALICE"] and is seated in that match, the only one. *)
Lemma slug_pairing_witness :
  let c := mkCtx Toy.withAlice (initialReply (Some Toy.aliceParams)) None [] in
  let c' := snd (handleCreateMatch Toy.loadRule 1 (Toy.oracle 2) "sA"
                                   (Some Toy.aliceParams) c) in
  let c2 := mkCtx Toy.withBob (initialReply (Some (Toy.joinBySlug "ALICE"))) None [] in
  reply c' !! "hostSlug" = Some (VStr "alice")
  /\ exists c3 sk3 m3,
       handleJoinMatch Toy.loadRule "sB" (Some (Toy.joinBySlug "ALICE")) c2 = (Ok true, c3)
       /\ length (matches (srv c3)) = 1%nat
       /\ clients (srv c3) !! "sB" = Some sk3 /\ sk_match sk3 = Some 0%nat
       /\ matches (srv c3) !! 0%nat = Some m3 /\ m_guest m3 = Some 1%nat.
Proof.
  intros c c' c2.
  destruct (slug_pairing Toy.loadRule 1 (Toy.oracle 2) "sA" Toy.aliceParams c c'
              ltac:(vm_compute; reflexivity))
    as (sk' & pr & hp & mr & sl & Hk & Hpr & Hmr & Hhp & Hname & Hsl & _ & Hrep & _ & _
        & Hjoin & _).
  vm_compute in Hk. injection Hk as <-.
  vm_compute in Hpr. injection Hpr as <-.
  vm_compute in Hmr. injection Hmr as <-.
  rewrite (Hname ltac:(vm_compute; reflexivity)) in Hsl. vm_compute in Hsl. subst sl.
  split; [exact Hrep|].
  destruct (Hjoin "ALICE" "sB" (Toy.joinBySlug "ALICE") c2 _ 1%nat _
              ltac:(exists "", "ALICE", ""; split; [reflexivity|];
                    split; [constructor|]; split; [constructor|]; reflexivity)
              ltac:(reflexivity)
              ltac:(vm_compute; reflexivity)
              ltac:(intros r m Hm; vm_compute in Hm; destruct r;
                    [injection Hm as <-; discriminate | discriminate Hm])
              ltac:(vm_compute; reflexivity)
              ltac:(reflexivity)
              ltac:(vm_compute; reflexivity))
    as (c3 & m & m3 & Hc3 & Hlen & (sk3 & Hk3 & Hm3) & _ & Hmr3 & _ & Hg3 & _).
  exists c3, sk3, m3. repeat (split; [assumption|]). assumption.
Defined.

(** Alice rolls, advances piece 0 by 3, and undoes: the board is again
    the board at the roll. *)
Lemma undo_restores_snapshot_witness :
  let c0 := mkCtx Toy.joined (initialReply (Some Toy.noParams)) None [] in
  let c1 := snd (handleRollDice (Toy.oracle 8) "sA" (Some Toy.noParams) c0) in
  let c2 := mkCtx Toy.moved (initialReply (Some Toy.noParams)) None [] in
  let c3 := snd (handleUndoMoves "sA" (Some Toy.noParams) c2) in
  boardOf Toy.moved 0%nat = Some [3; 0]
  /\ boardOf (srv c3) 0%nat = Some [0; 0]
  /\ exists st0 snap,
       boardOf (srv c0) 0%nat = Some st0
       /\ snapshotHeld 0%nat snap st0 (srv c1)
       /\ boardOf (srv c3) 0%nat = Some st0
       /\ snapshotHeld 0%nat snap st0 (srv c3).
Proof.
  intros c0 c1 c2 c3.
  split; [vm_compute; reflexivity|]. split; [vm_compute; reflexivity|].
  eapply (undo_restores_snapshot false (Toy.oracle 8) "sA" (Some Toy.noParams) c0 c1 _
            0%nat [("sA", Toy.moveParams 0 3 0)] "sA" (Some Toy.noParams) c2 c3).
  - vm_compute; reflexivity.
  - reflexivity.
  - vm_compute; reflexivity.
  - vm_compute; reflexivity.
  - vm_compute; reflexivity.
  - vm_compute; reflexivity.
Defined.

(* ===================================================================== *)
(** ** Further runs *)
(* ===================================================================== *)

(** The cookie of player 101, followed by another cookie. *)
Lemma cookie_round_trip_witness :
  Cookie.playerID ("player_id=" +:+ pretty 101 +:+ "; io=abc") = Some 101.
Proof.
  apply (CookieFacts.cookie_round_trip 101 "; io=abc"); [|reflexivity].
  split; [lia|]. apply Z.leb_le. vm_compute. reflexivity.
Defined.

(** A name of dots, dashes and spaces has an empty slug. *)
Lemma slug_empty_iff_witness :
  Slug.iccjSlugify (Some " .-. ") = "" /\ Slug.noAlnum (Slug.chars " .-. ").
Proof.
  assert (Ha : Forall (fun c => Slug.isASCII c = true) (Slug.chars " .-. "))
    by (repeat constructor).
  assert (Hn : Slug.noAlnum (Slug.chars " .-. ")) by (repeat constructor).
  split; [|exact Hn].
  apply (proj2 (SlugMore.slug_empty_iff " .-. " Ha)). exact Hn.
Defined.

(** Bob joins: his reply comes first, EVENT_MATCH_START follows for
    both players. *)
Lemma reply_before_deferred_witness :
  let prm := Toy.joinBySlug "ALICE" in
  let c1 := snd (handleJoinMatch Toy.loadRule "sB" (Some prm)
                   (mkCtx Toy.withBob (initialReply (Some prm)) None [])) in
  exists sk evs,
    clients (srv c1) !! "sB" = Some sk
    /\ serve Toy.loadRule 1 false (Toy.oracle 4) JOIN_MATCH "sB" (Some prm) Toy.withBob
       = (srv c1,
          (out c1 ++ mkEmit "sB" JOIN_MATCH (finalReply true (sk_match sk) (reply c1))
                  :: evs)%list)
    /\ map (fun e => (e_socket e, e_msg e)) evs
       = [("sA", EVENT_MATCH_START); ("sB", EVENT_MATCH_START)].
Proof.
  intros prm c1.
  assert (Hk : exists sk, clients (srv c1) !! "sB" = Some sk)
    by (eexists; vm_compute; reflexivity).
  destruct Hk as [sk Hk]. exists sk.
  destruct (reply_before_deferred Toy.loadRule 1 false (Toy.oracle 4) JOIN_MATCH "sB"
              (Some prm) Toy.withBob _ true c1 sk eq_refl
              ltac:(vm_compute; reflexivity) Hk) as (evs & Hserve & _).
  exists evs. split; [exact Hk|]. split; [exact Hserve|].
  assert (Hout : map (fun e => (e_socket e, e_msg e))
                   (snd (serve Toy.loadRule 1 false (Toy.oracle 4) JOIN_MATCH "sB"
                           (Some prm) Toy.withBob))
                 = [("sB", JOIN_MATCH); ("sA", EVENT_MATCH_START);
                    ("sB", EVENT_MATCH_START)])
    by (vm_compute; reflexivity).
  rewrite Hserve in Hout. cbn [snd] in Hout.
  assert (Ho1 : out c1 = []) by (vm_compute; reflexivity).
  rewrite Ho1 in Hout. cbn in Hout. by injection Hout.
Defined.

(** Bob's join carried the sequence number 7: so does the reply. *)
Lemma reply_echoes_sequence_witness :
  let prm := Toy.numbered (Toy.joinBySlug "ALICE") in
  exists (rep : Obj) evs,
    snd (serve Toy.loadRule 1 false (Toy.oracle 4) JOIN_MATCH "sB" (Some prm) Toy.withBob)
    = (mkEmit "sB" JOIN_MATCH rep :: evs)
    /\ rep !! "result" = Some (VBool true)
    /\ rep !! "clientMsgSeq" = Some (VNum 7).
Proof.
  intros prm.
  set (c1 := snd (handleJoinMatch Toy.loadRule "sB" (Some prm)
                    (mkCtx Toy.withBob (initialReply (Some prm)) None []))).
  assert (Hk : exists sk, clients (srv c1) !! "sB" = Some sk)
    by (eexists; vm_compute; reflexivity).
  destruct Hk as [sk Hk].
  destruct (reply_echoes_sequence Toy.loadRule 1 false (Toy.oracle 4) JOIN_MATCH "sB"
              (Some prm) Toy.withBob _ true c1 sk eq_refl
              ltac:(vm_compute; reflexivity) Hk) as (rep & evs & Hserve & Hres & Hseq & _).
  exists rep, evs. rewrite Hserve. cbn [snd].
  assert (Ho1 : out c1 = []) by (vm_compute; reflexivity).
  rewrite Ho1. split; [reflexivity|]. split; [exact Hres|].
  apply (Hseq 7); [reflexivity|lia].
Defined.

(** Bob, connected but in no match, rolls: no reply. *)
Lemma no_match_no_reply_witness :
  serve Toy.loadRule 1 false (Toy.oracle 5) ROLL_DICE "sB" (Some Toy.noParams) Toy.withBob
  = (Toy.withBob, []).
Proof.
  assert (Hk : exists sk, clients Toy.withBob !! "sB" = Some sk /\ sk_match sk = None)
    by (eexists; split; [vm_compute; reflexivity|reflexivity]).
  destruct Hk as (sk & Hk & Hm).
  apply (no_match_no_reply Toy.loadRule 1 false (Toy.oracle 5) ROLL_DICE "sB"
           (Some Toy.noParams) Toy.withBob sk Hk Hm).
  left. apply elem_of_cons. by left.
Defined.

(** Alice rolls a second time in her turn. *)
Lemma roll_refused_is_silent_witness :
  let c := mkCtx Toy.rolled (initialReply (Some Toy.noParams)) None [] in
  let c' := snd (handleRollDice (Toy.oracle 9) "sA" (Some Toy.noParams) c) in
  handleRollDice (Toy.oracle 9) "sA" (Some Toy.noParams) c = (Ok false, c')
  /\ srv c' = srv c /\ out c' = out c
  /\ reply c' !! "errorMessage" = Some (VStr "Dice was already rolled!").
Proof.
  intros c c'.
  assert (H : handleRollDice (Toy.oracle 9) "sA" (Some Toy.noParams) c = (Ok false, c'))
    by (vm_compute; reflexivity).
  destruct (roll_refused_is_silent (Toy.oracle 9) "sA" (Some Toy.noParams) c c' H)
    as (Hs & Ho & _).
  split; [exact H|]. split; [exact Hs|]. split; [exact Ho|]. vm_compute; reflexivity.
Defined.

(** Alice confirms with both dice still to play. *)
Lemma confirm_refused_is_silent_witness :
  let c := mkCtx Toy.rolled (initialReply (Some Toy.noParams)) None [] in
  let c' := snd (handleConfirmMoves (Toy.oracle 9) "sA" (Some Toy.noParams) c) in
  handleConfirmMoves (Toy.oracle 9) "sA" (Some Toy.noParams) c = (Ok false, c')
  /\ srv c' = srv c /\ out c' = out c.
Proof.
  intros c c'.
  assert (H : handleConfirmMoves (Toy.oracle 9) "sA" (Some Toy.noParams) c = (Ok false, c'))
    by (vm_compute; reflexivity).
  destruct (confirm_refused_is_silent (Toy.oracle 9) "sA" (Some Toy.noParams) c c' H)
    as (Hs & Ho & _).
  by repeat split.
Defined.

(** Alice undoes before she has rolled. *)
Lemma undo_refused_is_silent_witness :
  let c := mkCtx Toy.joined (initialReply (Some Toy.noParams)) None [] in
  let c' := snd (handleUndoMoves "sA" (Some Toy.noParams) c) in
  handleUndoMoves "sA" (Some Toy.noParams) c = (Ok false, c')
  /\ srv c' = srv c /\ out c' = out c.
Proof.
  intros c c'.
  assert (H : handleUndoMoves "sA" (Some Toy.noParams) c = (Ok false, c'))
    by (vm_compute; reflexivity).
  destruct (undo_refused_is_silent "sA" (Some Toy.noParams) c c' H) as (Hs & Ho & _).
  by repeat split.
Defined.

(** Carol asks for a match nobody has opened. *)
Lemma join_refused_changes_nothing_witness :
  let prm := Toy.joinBySlug "zoe" in
  let c := mkCtx Toy.withCarol (initialReply (Some prm)) None [] in
  let c' := snd (handleJoinMatch Toy.loadRule "sC" (Some prm) c) in
  handleJoinMatch Toy.loadRule "sC" (Some prm) c = (Ok false, c')
  /\ srv c' = srv c /\ out c' = out c.
Proof.
  intros prm c c'.
  assert (H : handleJoinMatch Toy.loadRule "sC" (Some prm) c = (Ok false, c'))
    by (vm_compute; reflexivity).
  destruct (join_refused_changes_nothing Toy.loadRule "sC" (Some prm) c c' H)
    as (Hs & Ho & _).
  by repeat split.
Defined.

(** Alice asks for a match under the name ["..."]: the request is
    refused, and she is called ["..."] from then on. *)
Lemma create_refused_keeps_matches_witness :
  let c := mkCtx Toy.withAlice (initialReply (Some Toy.dotsParams)) None [] in
  let c' := snd (handleCreateMatch Toy.loadRule 1 (Toy.oracle 2) "sA"
                   (Some Toy.dotsParams) c) in
  handleCreateMatch Toy.loadRule 1 (Toy.oracle 2) "sA" (Some Toy.dotsParams) c
  = (Ok false, c')
  /\ matches (srv c') = matches (srv c)
  /\ (p_name <$> players (srv c) !! 0%nat) = Some "Player 101"
  /\ (p_name <$> players (srv c') !! 0%nat) = Some "...".
Proof.
  intros c c'.
  assert (H : handleCreateMatch Toy.loadRule 1 (Toy.oracle 2) "sA" (Some Toy.dotsParams) c
              = (Ok false, c'))
    by (vm_compute; reflexivity).
  destruct (create_refused_keeps_matches Toy.loadRule 1 (Toy.oracle 2) "sA"
              (Some Toy.dotsParams) c c' H) as (_ & Hm & _).
  split; [exact H|]. split; [exact Hm|]. split; vm_compute; reflexivity.
Defined.

(** Alice asks for her match a second time. *)
Lemma create_twice_one_match_witness :
  let c := mkCtx Toy.withAlice (initialReply (Some Toy.aliceParams)) None [] in
  let c2 := mkCtx Toy.hosted (initialReply (Some Toy.aliceParams)) None [] in
  exists c3 (mr : nat),
    handleCreateMatch Toy.loadRule 1 (Toy.oracle 3) "sA" (Some Toy.aliceParams) c2
    = (Ok true, c3)
    /\ matches (srv c3) = matches Toy.hosted
    /\ length (matches Toy.hosted) = 1%nat
    /\ reply c3 !! "reused" = Some (VBool true).
Proof.
  intros c c2.
  set (c' := snd (handleCreateMatch Toy.loadRule 1 (Toy.oracle 2) "sA"
                    (Some Toy.aliceParams) c)).
  assert (H : handleCreateMatch Toy.loadRule 1 (Toy.oracle 2) "sA"
                (Some Toy.aliceParams) c = (Ok true, c'))
    by (vm_compute; reflexivity).
  assert (Hs : srv c2 = srv c') by (vm_compute; reflexivity).
  destruct (create_twice_one_match Toy.loadRule 1 (Toy.oracle 2) (Toy.oracle 3) "sA"
              Toy.aliceParams c c' c2 eq_refl H Hs)
    as (c3 & mr & Hc3 & Hm & _ & _ & _ & _ & Hre).
  exists c3, mr. split; [exact Hc3|]. split; [by rewrite Hm, <- Hs|].
  split; [vm_compute; reflexivity|exact Hre].
Defined.

(** Bob joins Alice's match by its id. *)
Lemma join_starts_game_witness :
  let prm := Toy.joinByID 202 in
  let c := mkCtx Toy.withBob (initialReply (Some prm)) None [] in
  exists c' m' g',
    handleJoinMatch Toy.loadRule "sB" (Some prm) c = (Ok true, c')
    /\ matches (srv c') !! 0%nat = Some m'
    /\ m_guest m' = Some 1%nat
    /\ m_currentGame m' = Some g'
    /\ g_hasStarted g' = true /\ g_turnNumber g' = 1
    /\ m_slug m' = Some "alice-vs-bob" /\ m_name m' = Some "Alice vs Bob".
Proof.
  intros prm c.
  assert (H : exists m sk g game,
             joinTarget (srv c) (Some prm) = Some 0%nat
             /\ matches (srv c) !! 0%nat = Some m /\ m_guest m = None
             /\ m_currentGame m = Some game
             /\ clients (srv c) !! "sB" = Some sk /\ sk_player sk = Some 1%nat
             /\ players (srv c) !! 1%nat = Some g).
  { do 4 eexists. split; [vm_compute; reflexivity|].
    split; [vm_compute; reflexivity|]. split; [reflexivity|]. split; [reflexivity|].
    split; [vm_compute; reflexivity|]. split; [reflexivity|]. vm_compute; reflexivity. }
  destruct H as (m & sk & g & game & H1 & H2 & H3 & H4 & H5 & H6 & H7).
  destruct (join_starts_game Toy.loadRule "sB" (Some prm) c 0%nat m sk 1%nat g game
              H1 H2 H3 H4 H5 H6 H7)
    as (c' & m' & g' & p' & Hc' & Hm' & Hg & _ & _ & Hcg & Hs & _ & Ht & _ & _ & _
        & Hslug & Hname & _).
  exists c', m', g'. do 6 (split; [assumption|]).
  assert (E : c' = snd (handleJoinMatch Toy.loadRule "sB" (Some prm) c))
    by (rewrite Hc'; reflexivity).
  assert (Hv : (m ← matches (srv (snd (handleJoinMatch Toy.loadRule "sB" (Some prm) c)))
                      !! 0%nat; Some (m_slug m, m_name m))
               = Some (Some "alice-vs-bob", Some "Alice vs Bob"))
    by (vm_compute; reflexivity).
  rewrite <- E, Hm' in Hv. cbn in Hv. injection Hv as Hv1 Hv2. by split.
Defined.

(** Alice's first move, delivered twice. *)
Lemma move_counts_once_witness :
  let prm := Toy.moveParams 0 3 0 in
  let c := mkCtx Toy.rolled (initialReply (Some prm)) None [] in
  let c' := snd (handleMovePiece false "sA" (Some prm) c) in
  let c2 := mkCtx Toy.moved (initialReply (Some prm)) None [] in
  handleMovePiece false "sA" (Some prm) c = (Ok true, c')
  /\ counterOf (srv c) 0%nat = Some 0
  /\ counterOf (srv c') 0%nat = Some 1
  /\ handleMovePiece false "sA" (Some prm) c2
     = fail "This move has already been played!" c2.
Proof.
  intros prm c c' c2.
  assert (H : handleMovePiece false "sA" (Some prm) c = (Ok true, c'))
    by (vm_compute; reflexivity).
  destruct (move_counts_once false "sA" prm c c' H)
    as (mr & n & Hn & _ & _ & _ & _ & Hreplay).
  assert (H0 : counterOf (srv c) 0%nat = Some 0) by (vm_compute; reflexivity).
  assert (H1 : counterOf (srv c') 0%nat = Some 1) by (vm_compute; reflexivity).
  split; [exact H|]. split; [exact H0|]. split; [exact H1|].
  assert (Hmr : mr = 0%nat).
  { destruct mr as [|mr]; [reflexivity|]. exfalso.
    assert (E : counterOf (srv c) (S mr) = None) by (vm_compute; reflexivity).
    rewrite E in Hn. discriminate Hn. }
  subst mr. rewrite H0 in Hn. injection Hn as <-.
  apply Hreplay; [reflexivity|vm_compute; reflexivity].
Defined.

(** Alice's first move is announced to Alice and to Bob. *)
Lemma move_is_announced_to_all_witness :
  let prm := Toy.moveParams 0 3 0 in
  let c := mkCtx Toy.rolled (initialReply (Some prm)) None [] in
  let c' := snd (handleMovePiece false "sA" (Some prm) c) in
  handleMovePiece false "sA" (Some prm) c = (Ok true, c')
  /\ map (fun e => (e_socket e, e_msg e)) (out c')
     = [("sA", EVENT_PIECE_MOVE); ("sB", EVENT_PIECE_MOVE)]
  /\ exists evs, out c' = (out c ++ evs)%list
                 /\ Forall (fun e => e_msg e = EVENT_PIECE_MOVE) evs.
Proof.
  intros prm c c'.
  assert (H : handleMovePiece false "sA" (Some prm) c = (Ok true, c'))
    by (vm_compute; reflexivity).
  destruct (move_is_announced_to_all false "sA" prm c c' H)
    as (sk & mr & m & rule & gv & pc & evs & _ & _ & _ & _ & _ & _ & Hout & _ & _ & Hall).
  split; [exact H|]. split; [vm_compute; reflexivity|].
  exists evs. split; [exact Hout|].
  apply Forall_forall. intros e He. by destruct (Hall e He) as [Hmsg _].
Defined.

(** Alice connects and asks for a guest without giving a name. *)
Lemma create_guest_new_witness :
  let s := connect "sA" None Toy.empty in
  let c := mkCtx s (initialReply (Some Toy.noParams)) None [] in
  exists c' p,
    handleCreateGuest Toy.loadRule (Toy.oracle 1) "sA" (Some Toy.noParams) c = (Ok true, c')
    /\ players (srv c') = [p]
    /\ p_name p = "Player 101".
Proof.
  intros s c.
  assert (Hk : exists sk, clients (srv c) !! "sA" = Some sk /\ truthyStr (sk_cookie sk) = false)
    by (eexists; split; [vm_compute; reflexivity|reflexivity]).
  destruct Hk as (sk & Hk & Hcookie).
  destruct (create_guest_new Toy.loadRule (Toy.oracle 1) "sA" (Some Toy.noParams) c sk
              Hk eq_refl Hcookie)
    as (c' & p & Hc' & Hpl & Hname & _).
  exists c', p. split; [exact Hc'|]. split; [exact Hpl|].
  assert (E : c' = snd (handleCreateGuest Toy.loadRule (Toy.oracle 1) "sA"
                          (Some Toy.noParams) c))
    by (rewrite Hc'; reflexivity).
  assert (Hv : map p_name (players (srv (snd (handleCreateGuest Toy.loadRule
                 (Toy.oracle 1) "sA" (Some Toy.noParams) c)))) = ["Player 101"])
    by (vm_compute; reflexivity).
  rewrite <- E, Hpl in Hv. by injection Hv.
Defined.

(** Alice resigns the game of the match nobody has joined yet. *)
Lemma resign_game_without_opponent_witness :
  serve Toy.loadRule 1 false (Toy.oracle 5) RESIGN_GAME "sA" (Some Toy.noParams) Toy.hosted
  = (Toy.hosted, []).
Proof.
  assert (H : exists sk m,
             clients Toy.hosted !! "sA" = Some sk /\ sk_match sk = Some 0%nat
             /\ matches Toy.hosted !! 0%nat = Some m
             /\ opponentOf Toy.hosted m (sk_player sk) = None).
  { do 2 eexists. split; [vm_compute; reflexivity|]. split; [reflexivity|].
    split; [vm_compute; reflexivity|]. vm_compute; reflexivity. }
  destruct H as (sk & m & H1 & H2 & H3 & H4).
  exact (resign_game_without_opponent Toy.loadRule 1 false (Toy.oracle 5) "sA"
           (Some Toy.noParams) Toy.hosted sk 0%nat m H1 H2 H3 H4).
Defined.

(** Bob, the guest, resigns the game: the point goes to the colour of
    Alice, the host.  When Alice resigns, the point goes to the colour
    of Bob. *)
Lemma resign_game_awards_opponent_witness :
  let c := mkCtx Toy.joined (initialReply (Some Toy.noParams)) None [] in
  (exists c' m',
     handleResignGame (Toy.oracle 7) "sB" (Some Toy.noParams) c = (Ok true, c')
     /\ matches (srv c') !! 0%nat = Some m'
     /\ m_score m' WHITE = 1 /\ m_score m' BLACK = 0)
  /\ (exists c' m',
        handleResignGame (Toy.oracle 7) "sA" (Some Toy.noParams) c = (Ok true, c')
        /\ matches (srv c') !! 0%nat = Some m'
        /\ m_score m' WHITE = 0 /\ m_score m' BLACK = 1).
Proof.
  intros c.
  assert (H : exists rule m game st alice bob,
      ((exists skB, clients (srv c) !! "sB" = Some skB /\ sk_match skB = Some 0%nat
                    /\ sk_rule skB = Some rule /\ sk_player skB = Some 1%nat)
       /\ (exists skA, clients (srv c) !! "sA" = Some skA /\ sk_match skA = Some 0%nat
                       /\ sk_rule skA = Some rule /\ sk_player skA = Some 0%nat))
      /\ matches (srv c) !! 0%nat = Some m
      /\ m_currentGame m = Some game
      /\ heap (srv c) !! g_state game = Some st
      /\ m_host m = Some 0%nat /\ m_guest m = Some 1%nat
      /\ players (srv c) !! 0%nat = Some alice
      /\ players (srv c) !! 1%nat = Some bob
      /\ p_id alice = 101 /\ p_id bob = 103
      /\ p_currentPieceType alice = Some WHITE
      /\ p_currentPieceType bob = Some BLACK
      /\ m_score m WHITE = 0 /\ m_score m BLACK = 0
      /\ getGameScore rule st (Some alice) = 1
      /\ getGameScore rule st (Some bob) = 1).
  { do 6 eexists.
    split; [split; eexists; (split; [vm_compute; reflexivity|]); by repeat split|].
    split; [vm_compute; reflexivity|]. split; [reflexivity|].
    split; [vm_compute; reflexivity|]. split; [reflexivity|]. split; [reflexivity|].
    split; [vm_compute; reflexivity|]. split; [vm_compute; reflexivity|].
    do 6 (split; [reflexivity|]).
    split; vm_compute; reflexivity. }
  destruct H as (rule & m & game & st & alice & bob
                 & ((skB & HkB & HmB & HrB & HpB) & (skA & HkA & HmA & HrA & HpA))
                 & Hm & Hg & Hst & Hhost & Hguest
                 & Ha & Hb & Hida & Hidb & Hca & Hcb & Hw & Hbl & Hsa & Hsb).
  split.
  - destruct (resign_game_awards_opponent (Toy.oracle 7) "sB" (Some Toy.noParams) c
                skB rule 0%nat m game st 1%nat 0%nat 1%nat 0%nat bob alice alice WHITE
                HkB HmB HrB Hm Hg Hst HpB Hb Hhost Ha Hguest
                ltac:(right; split; [rewrite Hida, Hidb; discriminate|reflexivity])
                Ha Hca)
      as (c' & m' & Hc' & _ & Hm' & Hcol & Hoth & _).
    exists c', m'. split; [exact Hc'|]. split; [exact Hm'|].
    split; [rewrite Hcol, Hw, Hsa; reflexivity|].
    rewrite (Hoth BLACK) by discriminate. exact Hbl.
  - destruct (resign_game_awards_opponent (Toy.oracle 7) "sA" (Some Toy.noParams) c
                skA rule 0%nat m game st 0%nat 0%nat 1%nat 1%nat alice alice bob BLACK
                HkA HmA HrA Hm Hg Hst HpA Ha Hhost Ha Hguest
                ltac:(left; split; reflexivity)
                Hb Hcb)
      as (c' & m' & Hc' & _ & Hm' & Hcol & Hoth & _).
    exists c', m'. split; [exact Hc'|]. split; [exact Hm'|].
    split; [rewrite (Hoth WHITE) by discriminate; exact Hw|].
    rewrite Hcol, Hbl, Hsb; reflexivity.
Defined.

(** Alice confirms with both pieces at the end of the board: the game,
    and with it the match of length 1, is hers. *)
Lemma confirm_by_winner_ends_game_witness :
  let c := mkCtx Toy.won (initialReply (Some Toy.noParams)) None [] in
  exists c' m',
    handleConfirmMoves (Toy.oracle 11) "sA" (Some Toy.noParams) c = (Ok true, c')
    /\ matches (srv c') !! 0%nat = Some m'
    /\ m_score m' WHITE = 1
    /\ out c' = [].
Proof.
  intros c.
  assert (H : exists sk rule m game gv w,
      clients (srv c) !! "sA" = Some sk
      /\ sk_match sk = Some 0%nat /\ sk_rule sk = Some rule /\ sk_player sk = Some 0%nat
      /\ matches (srv c) !! 0%nat = Some m
      /\ m_currentGame m = Some game
      /\ viewOf (srv c) game = Some gv
      /\ players (srv c) !! 0%nat = Some w
      /\ p_currentPieceType w = Some WHITE
      /\ validateConfirm rule gv (Some w) = true
      /\ hasWon rule (gv_state gv) (Some w) = true
      /\ m_score m WHITE = 0
      /\ getGameScore rule (gv_state gv) (Some w) = 1).
  { do 6 eexists.
    split; [vm_compute; reflexivity|]. split; [reflexivity|].
    split; [reflexivity|]. split; [reflexivity|].
    split; [vm_compute; reflexivity|].
    split; [reflexivity|]. split; [vm_compute; reflexivity|].
    split; [vm_compute; reflexivity|].
    split; [reflexivity|]. split; [vm_compute; reflexivity|].
    split; [vm_compute; reflexivity|]. by split. }
  destruct H as (sk & rule & m & game & gv & w & H1 & H2 & H3 & H4 & H5 & H6 & H7 & H8
                 & H9 & H10 & H11 & Hw & Hsc).
  destruct (confirm_by_winner_ends_game (Toy.oracle 11) "sA" (Some Toy.noParams) c
              sk rule 0%nat m game gv 0%nat w WHITE H1 H2 H3 H4 H5 H6 H7 H8 H9 H10 H11)
    as (c' & m' & Hc' & _ & Hm' & Hcol & _ & Hout & _).
  exists c', m'. split; [exact Hc'|]. split; [exact Hm'|].
  split; [rewrite Hcol, Hw, Hsc; reflexivity|]. exact Hout.
Defined.
